(** * voidui CLI: version reconciliation and merge engine

    A shallow embedding of the pure core of the voidui command line tool
    (checksums, lock-file store, three-way merge, changelog range
    resolution, registry items, component location and the decisions of
    the add, update and snapshot commands) together with the properties
    stated for it.

    Strings are [string] (sequences of 8-bit characters); a file's text is
    represented by its UTF-8 byte sequence, so [\r] and [\n] are the single
    bytes 13 and 10 and never occur inside a multi-byte character.  JS
    array indices and lengths are [Z], with [-1] as the "not found"
    sentinel exactly as in the source.  Where the code measures or cuts a
    string by position ([formatChecksum]) the string is the list of its
    UTF-16 code units. *)

From Stdlib Require Import ZArith List String Ascii Bool Lia Sorted.
From stdpp Require Import base option list gmap strings.
Import ListNotations.

#[local] Open Scope string_scope.
#[local] Open Scope list_scope.
#[local] Open Scope Z_scope.

(* ===================================================================== *)
(** ** JS string and array primitives used by the sources *)
(* ===================================================================== *)

Module Js.

Definition CR : ascii := ascii_of_nat 13.
Definition LF : ascii := ascii_of_nat 10.

(** [s.replace(/\r\n/g, "\n")]: one left-to-right pass, every CR LF pair
    becomes LF, scanning resumes after the pair. *)
Fixpoint replaceCRLF (s : string) : string :=
  match s with
  | EmptyString => EmptyString
  | String c rest =>
      match rest with
      | String c2 rest2 =>
          if (Ascii.eqb c CR && Ascii.eqb c2 LF)%bool
          then String LF (replaceCRLF rest2)
          else String c (replaceCRLF rest)
      | EmptyString => String c EmptyString
      end
  end.

(** [s.split("\n")], with the line being accumulated in [cur]. *)
Fixpoint splitAcc (cur : string) (s : string) : list string :=
  match s with
  | EmptyString => [cur]
  | String c rest =>
      if Ascii.eqb c LF
      then cur :: splitAcc EmptyString rest
      else splitAcc (cur +:+ String c EmptyString) rest
  end.

Definition splitLines (s : string) : list string := splitAcc EmptyString s.

(** [lines.join("\n")]. *)
Fixpoint joinLines (lines : list string) : string :=
  match lines with
  | [] => EmptyString
  | [l] => l
  | l :: rest => l +:+ String LF (joinLines rest)
  end.

(** [arr.slice(start, end)] with the clamping of negative and
    out-of-range arguments that [Array.prototype.slice] performs. *)
Definition clampIndex (len i : Z) : Z :=
  if i <? 0 then Z.max (len + i) 0 else Z.min i len.

Definition slice {A} (l : list A) (start stop : Z) : list A :=
  let len := Z.of_nat (length l) in
  let k := clampIndex len start in
  let final := clampIndex len stop in
  firstn (Z.to_nat (final - k)) (skipn (Z.to_nat k) l).

(** [arr.findIndex(p)]: first index whose element satisfies [p], else -1. *)
Fixpoint findIndexFrom {A} (p : A -> bool) (l : list A) (i : Z) : Z :=
  match l with
  | [] => -1
  | x :: rest => if p x then i else findIndexFrom p rest (i + 1)
  end.

Definition findIndex {A} (p : A -> bool) (l : list A) : Z :=
  findIndexFrom p l 0.

(** [s.startsWith(p)] and the remainder after the prefix. *)
Fixpoint stripPrefix (p s : string) : option string :=
  match p, s with
  | EmptyString, _ => Some s
  | String a p', String b s' =>
      if Ascii.eqb a b then stripPrefix p' s' else None
  | String _ _, EmptyString => None
  end.

(** Number of matches of a literal pattern under a global regular
    expression ([s.match(/pat/g).length]): matches are found left to
    right and do not overlap; [skip] counts the characters of the
    current match still to be stepped over. *)
Fixpoint countFrom (pat : string) (skip : nat) (s : string) : nat :=
  match s with
  | EmptyString => 0%nat
  | String _ rest =>
      match skip with
      | S k => countFrom pat k rest
      | O =>
          match stripPrefix pat s with
          | Some _ => S (countFrom pat (String.length pat - 1) rest)
          | None => countFrom pat 0 rest
          end
      end
  end.

Definition countMatches (pat s : string) : nat := countFrom pat 0 s.

(** [s.includes(pat)]. *)
Fixpoint includes (pat s : string) : bool :=
  match stripPrefix pat s with
  | Some _ => true
  | None =>
      match s with
      | EmptyString => false
      | String _ rest => includes pat rest
      end
  end.

(** Where the code measures or cuts a string by position ([length],
    [substring], [startsWith]) the string is taken as JS has it: the
    sequence of its UTF-16 code units. *)

(** The code units of a text whose characters are all ASCII: one unit per
    character. *)
Definition unitsOfAscii (s : string) : list Z :=
  map (fun c => Z.of_nat (nat_of_ascii c)) (list_ascii_of_string s).

(** [s.startsWith(p)] on code units. *)
Fixpoint unitsStartWith (p s : list Z) : bool :=
  match p, s with
  | [], _ => true
  | x :: p', y :: s' => (x =? y) && unitsStartWith p' s'
  | _ :: _, [] => false
  end.

(** [s.substring(start, end)]: both arguments are clamped to
    [[0, s.length]] and swapped when they are out of order. *)
Definition clampPos (len i : Z) : Z := Z.max 0 (Z.min i len).

Definition substring (s : list Z) (start stop : Z) : list Z :=
  let len := Z.of_nat (length s) in
  let a := clampPos len start in
  let b := clampPos len stop in
  firstn (Z.to_nat (Z.max a b - Z.min a b)) (skipn (Z.to_nat (Z.min a b)) s).

(** [s.substring(start)]. *)
Definition substringFrom (s : list Z) (start : Z) : list Z :=
  substring s start (Z.of_nat (length s)).

(** [s.replace(/^prefix/, "")]: the prefix is dropped when it is there. *)
Definition dropPrefix (prefix s : string) : string :=
  match stripPrefix prefix s with
  | Some rest => rest
  | None => s
  end.

End Js.

(* ===================================================================== *)
(** ** SHA-256 (FIPS 180-4), the digest behind [createHash("sha256")] *)
(* ===================================================================== *)

Module Sha256.

Definition mask32 : Z := 4294967295.

Definition add32 (x y : Z) : Z := (x + y) mod 4294967296.
Definition rotr (n x : Z) : Z :=
  Z.lor (Z.shiftr x n) (Z.land (Z.shiftl x (32 - n)) mask32).
Definition shr (n x : Z) : Z := Z.shiftr x n.
Definition not32 (x : Z) : Z := Z.lxor x mask32.

Definition Ch (x y z : Z) : Z := Z.lxor (Z.land x y) (Z.land (not32 x) z).
Definition Maj (x y z : Z) : Z :=
  Z.lxor (Z.lxor (Z.land x y) (Z.land x z)) (Z.land y z).
Definition bigSigma0 (x : Z) : Z :=
  Z.lxor (Z.lxor (rotr 2 x) (rotr 13 x)) (rotr 22 x).
Definition bigSigma1 (x : Z) : Z :=
  Z.lxor (Z.lxor (rotr 6 x) (rotr 11 x)) (rotr 25 x).
Definition smallSigma0 (x : Z) : Z :=
  Z.lxor (Z.lxor (rotr 7 x) (rotr 18 x)) (shr 3 x).
Definition smallSigma1 (x : Z) : Z :=
  Z.lxor (Z.lxor (rotr 17 x) (rotr 19 x)) (shr 10 x).

(** Integer cube and square roots by bisection, used to derive the round
    constants and the initial hash value from the primes as the standard
    defines them. *)
Fixpoint bisect (fuel : nat) (p : Z -> bool) (lo hi : Z) : Z :=
  match fuel with
  | O => lo
  | S fuel' =>
      let mid := (lo + hi) / 2 in
      if p mid then bisect fuel' p mid hi else bisect fuel' p lo mid
  end.

Definition fracRootBits (degree : Z) (prime : Z) : Z :=
  let scaled := prime * 2 ^ (32 * degree) in
  bisect 48 (fun r => r ^ degree <=? scaled) 0 (2 ^ 36) mod 4294967296.

Definition primes64 : list Z :=
  [2; 3; 5; 7; 11; 13; 17; 19; 23; 29; 31; 37; 41; 43; 47; 53;
   59; 61; 67; 71; 73; 79; 83; 89; 97; 101; 103; 107; 109; 113; 127; 131;
   137; 139; 149; 151; 157; 163; 167; 173; 179; 181; 191; 193; 197; 199;
   211; 223; 227; 229; 233; 239; 241; 251; 257; 263; 269; 271; 277; 281;
   283; 293; 307; 311].

(** Round constants: first 32 bits of the fractional parts of the cube
    roots of the first 64 primes. *)
Definition K : list Z :=
  Eval vm_compute in map (fracRootBits 3) primes64.

Record state := mkState {
  h0 : Z; h1 : Z; h2 : Z; h3 : Z; h4 : Z; h5 : Z; h6 : Z; h7 : Z }.

(** Initial hash value: first 32 bits of the fractional parts of the
    square roots of the first 8 primes. *)
Definition initial : state :=
  Eval vm_compute in
    match map (fracRootBits 2) (firstn 8 primes64) with
    | [a; b; c; d; e; f; g; h] => mkState a b c d e f g h
    | _ => mkState 0 0 0 0 0 0 0 0
    end.

Definition be64 (n : Z) : list Z :=
  map (fun k => Z.land (Z.shiftr n (8 * k)) 255) [7; 6; 5; 4; 3; 2; 1; 0].

Definition pad (msg : list Z) : list Z :=
  let len := Z.of_nat (length msg) in
  msg ++ [128] ++ repeat 0 (Z.to_nat ((55 - len) mod 64)) ++ be64 (8 * len).

Fixpoint chunks {A} (n : nat) (size : nat) (l : list A) : list (list A) :=
  match n with
  | O => []
  | S n' => firstn size l :: chunks n' size (skipn size l)
  end.

Definition wordOfBytes (bs : list Z) : Z :=
  fold_left (fun acc b => acc * 256 + b) bs 0.

Definition blockWords (block : list Z) : list Z :=
  map wordOfBytes (chunks 16 4 block).

Definition nthZ (l : list Z) (i : nat) : Z := nth i l 0.

(** Message schedule: the 16 block words extended to 64. *)
Fixpoint schedule (n : nat) (w : list Z) : list Z :=
  match n with
  | O => w
  | S n' =>
      let t := length w in
      let wt := add32 (add32 (add32 (smallSigma1 (nthZ w (t - 2)))
                                    (nthZ w (t - 7)))
                             (smallSigma0 (nthZ w (t - 15))))
                      (nthZ w (t - 16)) in
      schedule n' (w ++ [wt])
  end.

Definition round (s : state) (kw : Z * Z) : state :=
  let '(k, w) := kw in
  let t1 := add32 (add32 (add32 (add32 (h7 s) (bigSigma1 (h4 s)))
                                (Ch (h4 s) (h5 s) (h6 s))) k) w in
  let t2 := add32 (bigSigma0 (h0 s)) (Maj (h0 s) (h1 s) (h2 s)) in
  mkState (add32 t1 t2) (h0 s) (h1 s) (h2 s)
          (add32 (h3 s) t1) (h4 s) (h5 s) (h6 s).

Definition compress (s : state) (block : list Z) : state :=
  let w := schedule 48 (blockWords block) in
  let r := fold_left round (combine K w) s in
  mkState (add32 (h0 s) (h0 r)) (add32 (h1 s) (h1 r))
          (add32 (h2 s) (h2 r)) (add32 (h3 s) (h3 r))
          (add32 (h4 s) (h4 r)) (add32 (h5 s) (h5 r))
          (add32 (h6 s) (h6 r)) (add32 (h7 s) (h7 r)).

Definition hashState (msg : list Z) : state :=
  let padded := pad msg in
  fold_left compress (chunks (length padded / 64) 64 padded) initial.

Definition be32 (w : Z) : list Z :=
  map (fun k => Z.land (Z.shiftr w (8 * k)) 255) [3; 2; 1; 0].

Definition stateBytes (s : state) : list Z :=
  be32 (h0 s) ++ be32 (h1 s) ++ be32 (h2 s) ++ be32 (h3 s) ++
  be32 (h4 s) ++ be32 (h5 s) ++ be32 (h6 s) ++ be32 (h7 s).

(** The 32-byte digest of a byte sequence. *)
Definition digest (msg : list Z) : list Z := stateBytes (hashState msg).

End Sha256.

(* ===================================================================== *)
(** ** utils/checksum.ts and the checksum validator *)
(* ===================================================================== *)

Module Checksum.

(** The bytes hashed by [hash.update(text, "utf-8")]. *)
Definition utf8Bytes (s : string) : list Z :=
  map (fun c => Z.of_nat (nat_of_ascii c)) (list_ascii_of_string s).

Definition hexDigits : list ascii := list_ascii_of_string "0123456789abcdef".

Definition hexDigit (n : Z) : ascii :=
  nth (Z.to_nat (n mod 16)) hexDigits "0"%char.

(** [digest("hex")]: two lowercase hexadecimal digits per byte. *)
Fixpoint hex (bytes : list Z) : string :=
  match bytes with
  | [] => EmptyString
  | b :: rest => String (hexDigit (b / 16)) (String (hexDigit b) (hex rest))
  end.

(** [computeChecksum], as a function of the content read from the file. *)
Definition computeChecksum (content : string) : string :=
  let normalizedContent := Js.replaceCRLF content in
  let digest := hex (Sha256.digest (utf8Bytes normalizedContent)) in
  "sha256:" +:+ digest.

(** [compareChecksums]. *)
Definition compareChecksums (expected actual : string) : bool :=
  bool_decide (expected = actual).

(** Character class [[a-f0-9]]. *)
Definition isLowerHex (c : ascii) : bool :=
  let n := nat_of_ascii c in
  ((97 <=? n)%nat && (n <=? 102)%nat) || ((48 <=? n)%nat && (n <=? 57)%nat).

(** [[a-f0-9]{n}$]: exactly [n] characters of the class, then the end. *)
Fixpoint matchHexExactly (n : nat) (s : string) : bool :=
  match n, s with
  | O, EmptyString => true
  | S n', String c s' => isLowerHex c && matchHexExactly n' s'
  | _, _ => false
  end.

(** [checksumSchema]: the regular expression [^sha256:[a-f0-9]{64}$]. *)
Definition checksumSchema (s : string) : bool :=
  match Js.stripPrefix "sha256:" s with
  | Some rest => matchHexExactly 64 rest
  | None => false
  end.

(** The text contains a CR immediately followed by a CR LF pair. *)
Fixpoint hasCRCRLF (s : string) : bool :=
  match s with
  | String c1 ((String c2 (String c3 _)) as rest) =>
      (Ascii.eqb c1 Js.CR && Ascii.eqb c2 Js.CR && Ascii.eqb c3 Js.LF)
      || hasCRCRLF rest
  | _ => false
  end.

(** [formatChecksum], on the UTF-16 code units of its argument. *)
Definition formatChecksum (checksum : list Z) : list Z :=
  if negb (Js.unitsStartWith (Js.unitsOfAscii "sha256:") checksum)
  then checksum
  else
    let hash := Js.substringFrom checksum 7 in
    if Z.of_nat (length hash) <=? 16 then checksum
    else
      let start := Js.substring hash 0 6 in
      let stop := Js.substringFrom hash (Z.of_nat (length hash) - 6) in
      Js.unitsOfAscii "sha256:" ++ start ++ Js.unitsOfAscii "..." ++ stop.

End Checksum.

(* ===================================================================== *)
(** ** utils/lock-file.ts: the lock store *)
(* ===================================================================== *)

Module LockStore.

Record ComponentLockEntry := mkEntry {
  installedVersion : string;
  installedAt : string;
  checksum : string;
  registryUrl : option string }.

(** Objects live in a heap and are held by reference.  A lock file object
    has the optional [$schema], the [version] and a reference to its
    [components] object; a components object maps names to entries (its
    own properties). *)
Abbreviation loc := positive.

Inductive object :=
| LockFileObject (schema : option string) (version : string)
                 (components : loc)
| ComponentsObject (props : gmap string ComponentLockEntry).

Abbreviation heap := (gmap loc object).

(** The value of an object literal is a newly allocated object. *)
Definition alloc (h : heap) (o : object) : heap * loc :=
  let l := fresh (dom h) in (<[l := o]> h, l).

(** The expression [lockFile.components]. *)
Definition getComponents (h : heap) (lockFile : loc)
  : option (gmap string ComponentLockEntry) :=
  match h !! lockFile with
  | Some (LockFileObject _ _ c) =>
      match h !! c with
      | Some (ComponentsObject props) => Some props
      | _ => None
      end
  | _ => None
  end.

(** [updateComponentEntry]: two object literals with spreads; the
    computed key is written after the copied properties. *)
Definition updateComponentEntry (h : heap) (lockFile : loc)
    (componentName : string) (entry : ComponentLockEntry)
  : option (heap * loc) :=
  match h !! lockFile with
  | Some (LockFileObject sch ver c) =>
      match h !! c with
      | Some (ComponentsObject props) =>
          let '(h1, c') :=
            alloc h (ComponentsObject (<[componentName := entry]> props)) in
          Some (alloc h1 (LockFileObject sch ver c'))
      | _ => None
      end
  | _ => None
  end.

(** [removeComponentEntry]: rest destructuring copies every own property
    but the named one into a new object. *)
Definition removeComponentEntry (h : heap) (lockFile : loc)
    (componentName : string) : option (heap * loc) :=
  match h !! lockFile with
  | Some (LockFileObject sch ver c) =>
      match h !! c with
      | Some (ComponentsObject props) =>
          let remainingComponents := delete componentName props in
          let '(h1, c') := alloc h (ComponentsObject remainingComponents) in
          Some (alloc h1 (LockFileObject sch ver c'))
      | _ => None
      end
  | _ => None
  end.

(** Properties every plain object inherits from [Object.prototype]. *)
Definition objectPrototypeKeys : list string :=
  ["constructor"; "__defineGetter__"; "__defineSetter__"; "hasOwnProperty";
   "__lookupGetter__"; "__lookupSetter__"; "isPrototypeOf";
   "propertyIsEnumerable"; "toString"; "valueOf"; "__proto__";
   "toLocaleString"].

(** What a property read or the [||] operator can yield here. *)
Inductive value :=
| Undefined
| Null
| Entry (e : ComponentLockEntry)
| Inherited (name : string).

Definition truthy (v : value) : bool :=
  match v with
  | Undefined | Null => false
  | Entry _ | Inherited _ => true
  end.

(** [name in obj]: own or inherited property. *)
Definition hasProperty (props : gmap string ComponentLockEntry)
    (name : string) : bool :=
  match props !! name with
  | Some _ => true
  | None => bool_decide (name ∈ objectPrototypeKeys)
  end.

(** [obj[name]]: the own property, else the inherited one, else
    [undefined]. *)
Definition getProperty (props : gmap string ComponentLockEntry)
    (name : string) : value :=
  match props !! name with
  | Some e => Entry e
  | None =>
      if bool_decide (name ∈ objectPrototypeKeys) then Inherited name
      else Undefined
  end.

(** [isComponentTracked]. *)
Definition isComponentTracked (h : heap) (lockFile : loc)
    (componentName : string) : option bool :=
  props ← getComponents h lockFile;
  Some (hasProperty props componentName).

(** [getComponentEntry]: [lockFile.components[componentName] || null]. *)
Definition getComponentEntry (h : heap) (lockFile : loc)
    (componentName : string) : option value :=
  props ← getComponents h lockFile;
  let v := getProperty props componentName in
  Some (if truthy v then v else Null).

(** The lock file value reachable from a reference. *)
Record LockFile := mkLockFile {
  schema : option string;
  version : string;
  components : gmap string ComponentLockEntry }.

Definition readValue (h : heap) (lockFile : loc) : option LockFile :=
  match h !! lockFile with
  | Some (LockFileObject sch ver c) =>
      match h !! c with
      | Some (ComponentsObject props) => Some (mkLockFile sch ver props)
      | _ => None
      end
  | _ => None
  end.

(** [readOrCreateLockFile], given what [readLockFile] returned: the
    existing lock file, or a new one with the format version and no
    component. *)
Definition LOCK_FILE_VERSION : string := "1.0".

Definition readOrCreateLockFile (h : heap) (existing : option loc)
  : heap * loc :=
  match existing with
  | Some lockFile => (h, lockFile)
  | None =>
      let '(h1, c) := alloc h (ComponentsObject ∅) in
      alloc h1 (LockFileObject None LOCK_FILE_VERSION c)
  end.

End LockStore.

(* ===================================================================== *)
(** ** utils/diff-formatter.ts: changelog range resolution *)
(* ===================================================================== *)

Module DiffFormatter.

Inductive ChangeType :=
| added | changed | deprecated | removed | fixed | security.

Record ChangelogChange := mkChange {
  type : ChangeType;
  description : string }.

Record ChangelogEntry := mkChangelogEntry {
  version : string;
  date : string;
  changes : list ChangelogChange;
  breaking : option bool }.

(** [filterEntriesBetweenVersions]. *)
Definition filterEntriesBetweenVersions (entries : list ChangelogEntry)
    (fromVersion toVersion : string) : list ChangelogEntry :=
  let fromIndex :=
    Js.findIndex (fun e => String.eqb (version e) fromVersion) entries in
  let toIndex :=
    Js.findIndex (fun e => String.eqb (version e) toVersion) entries in
  if (fromIndex =? -1) || (toIndex =? -1) then []
  else
    let start := Z.min fromIndex toIndex in
    let stop := Z.max fromIndex toIndex in
    rev (Js.slice entries start (stop + 1)).

(** [getChangeIcon]. *)
Definition getChangeIcon (t : ChangeType) : string :=
  match t with
  | added => "+"
  | changed => "~"
  | deprecated => "!"
  | removed => "-"
  | fixed => "*"
  | security => "!"
  end.

End DiffFormatter.

(* ===================================================================== *)
(** ** The line merge of node-diff3 called by [threeWayMerge] *)
(* ===================================================================== *)

(** [diff3Merge] is imported from the node-diff3 package.  Its algorithm is
    transcribed here function by function: the Hunt-McIlroy longest common
    subsequence ([LCS]), the mismatch chunks derived from it
    ([diffIndices]), the grouping of the chunks of both sides into stable
    and unstable regions ([diff3MergeRegions]) and the final assembly into
    [ok] and [conflict] blocks ([diff3Merge], with its default option
    [excludeFalseConflicts]).  The table of equivalence classes is a finite
    map keyed by the line text.  The examples documented with the package
    are reproduced in [Diff3Facts]. *)
Module Diff3.

(** A candidate of the LCS search: a linked list through [chain]. *)
Inductive candidate :=
| NoCandidate
| Candidate (buffer1index buffer2index : Z) (chain : candidate).

Definition NULLRESULT : candidate := Candidate (-1) (-1) NoCandidate.

Definition buffer2index (c : candidate) : Z :=
  match c with
  | Candidate _ j _ => j
  | NoCandidate => -1
  end.

Definition len {A} (l : list A) : Z := Z.of_nat (length l).

(** [arr[i]] for an index inside the array. *)
Definition at_ (candidates : list candidate) (i : Z) : candidate :=
  nth (Z.to_nat i) candidates NoCandidate.

(** [arr[i] = c] for [i <= arr.length]; writing at [arr.length] appends. *)
Definition setAt (candidates : list candidate) (i : Z) (c : candidate)
  : list candidate :=
  if i <? len candidates then <[Z.to_nat i := c]> candidates
  else candidates ++ [c].

(** First loop of [LCS]: positions of every item of [buffer2], ascending. *)
Fixpoint buildClasses (buffer2 : list string) (j : Z)
    (equivalenceClasses : gmap string (list Z)) : gmap string (list Z) :=
  match buffer2 with
  | [] => equivalenceClasses
  | item :: rest =>
      buildClasses rest (j + 1)
        match equivalenceClasses !! item with
        | Some js => <[item := js ++ [j]]> equivalenceClasses
        | None => <[item := [j]]> equivalenceClasses
        end
  end.

(** The search [for (s = r; s < candidates.length; s++)], run over the
    candidates from index [s] on; yields [candidates.length] when no
    index qualifies. *)
Fixpoint search (cs : list candidate) (j s : Z) : Z :=
  match cs with
  | [] => s
  | c :: rest =>
      if (buffer2index c <? j)
         && match rest with
            | [] => true
            | next :: _ => buffer2index next >? j
            end
      then s
      else search rest j (s + 1)
  end.

Definition findS (candidates : list candidate) (j r : Z) : Z :=
  search (skipn (Z.to_nat r) candidates) j r.

(** The loop over [buffer2indices] for one item of [buffer1]. *)
Fixpoint matchItem (i : Z) (buffer2indices : list Z) (r : Z)
    (c : candidate) (candidates : list candidate)
  : Z * candidate * list candidate :=
  match buffer2indices with
  | [] => (r, c, candidates)
  | j :: rest =>
      let s := findS candidates j r in
      if s <? len candidates then
        let newCandidate := Candidate i j (at_ candidates s) in
        let candidates' :=
          if r =? len candidates then candidates ++ [c]
          else setAt candidates r c in
        let r' := s + 1 in
        if r' =? len candidates' then (r', newCandidate, candidates')
        else matchItem i rest r' newCandidate candidates'
      else matchItem i rest r c candidates
  end.

(** The loop over [buffer1]. *)
Fixpoint scan (buffer1 : list string) (i : Z)
    (equivalenceClasses : gmap string (list Z))
    (candidates : list candidate) : list candidate :=
  match buffer1 with
  | [] => candidates
  | item :: rest =>
      let buffer2indices := default [] (equivalenceClasses !! item) in
      let '(r, c, candidates') :=
        matchItem i buffer2indices 0 (at_ candidates 0) candidates in
      scan rest (i + 1) equivalenceClasses (setAt candidates' r c)
  end.

Definition LCS (buffer1 buffer2 : list string) : candidate :=
  let equivalenceClasses := buildClasses buffer2 0 ∅ in
  let candidates := scan buffer1 0 equivalenceClasses [NULLRESULT] in
  at_ candidates (len candidates - 1).

(** A mismatched chunk: offset and length in each buffer. *)
Record chunk := mkChunk {
  buffer1 : Z * Z;
  buffer1Content : list string;
  buffer2 : Z * Z;
  buffer2Content : list string }.

(** The walk of [diffIndices] along the chain; chunks are appended to
    [result] from the last one to the first. *)
Fixpoint walkChain (b1 b2 : list string) (c : candidate) (tail1 tail2 : Z)
    (result : list chunk) : list chunk :=
  match c with
  | NoCandidate => result
  | Candidate i j chain =>
      let mismatchLength1 := tail1 - i - 1 in
      let mismatchLength2 := tail2 - j - 1 in
      let tail1 := i in
      let tail2 := j in
      walkChain b1 b2 chain tail1 tail2
        (if negb (mismatchLength1 =? 0) || negb (mismatchLength2 =? 0)
         then result ++
              [mkChunk (tail1 + 1, mismatchLength1)
                 (Js.slice b1 (tail1 + 1) (tail1 + 1 + mismatchLength1))
                 (tail2 + 1, mismatchLength2)
                 (Js.slice b2 (tail2 + 1) (tail2 + 1 + mismatchLength2))]
         else result)
  end.

Definition diffIndices (b1 b2 : list string) : list chunk :=
  rev (walkChain b1 b2 (LCS b1 b2) (len b1) (len b2) []).

Inductive side := SideA | SideB.

Record hunk := mkHunk {
  ab : side;
  oStart : Z;
  oLength : Z;
  abStart : Z;
  abLength : Z }.

Definition addHunk (s : side) (h : chunk) : hunk :=
  mkHunk s (fst (buffer1 h)) (snd (buffer1 h))
           (fst (buffer2 h)) (snd (buffer2 h)).

(** [hunks.sort((x, y) => x.oStart - y.oStart)]; the sort is stable, so
    the result is the one of a stable insertion sort. *)
Fixpoint insertHunk (h : hunk) (sorted : list hunk) : list hunk :=
  match sorted with
  | [] => [h]
  | x :: rest =>
      if oStart h <=? oStart x then h :: x :: rest
      else x :: insertHunk h rest
  end.

Definition sortHunks (hunks : list hunk) : list hunk :=
  foldr insertHunk [] hunks.

Inductive buffer := BufO | BufA | BufB.

Inductive region :=
| Stable (buf : buffer) (bufferStart bufferLength : Z)
         (bufferContent : list string)
| Unstable (aStart aLength : Z) (aContent : list string)
           (oStart' oLength' : Z) (oContent : list string)
           (bStart bLength : Z) (bContent : list string).

Section Regions.
Variables a o b : list string.

Definition advanceTo (endOffset : Z) (st : Z * list region)
  : Z * list region :=
  let '(currOffset, results) := st in
  if endOffset >? currOffset then
    (endOffset,
     results ++ [Stable BufO currOffset (endOffset - currOffset)
                   (Js.slice o currOffset endOffset)])
  else st.

(** The inner [while]: pull every following hunk that starts at or
    before the end of the region into the region. *)
Fixpoint pullOverlapping (hunks : list hunk) (regionEnd : Z)
    (regionHunks : list hunk) : Z * list hunk * list hunk :=
  match hunks with
  | [] => (regionEnd, regionHunks, [])
  | nextHunk :: rest =>
      let nextHunkStart := oStart nextHunk in
      if nextHunkStart >? regionEnd then (regionEnd, regionHunks, hunks)
      else pullOverlapping rest
             (Z.max regionEnd (nextHunkStart + oLength nextHunk))
             (regionHunks ++ [nextHunk])
  end.

Definition bound := (Z * Z * Z * Z)%type.

Definition widen (bd : bound) (h : hunk) : bound :=
  let '(b0, b1, b2, b3) := bd in
  let oEnd := oStart h + oLength h in
  let abEnd := abStart h + abLength h in
  (Z.min (abStart h) b0, Z.max abEnd b1,
   Z.min (oStart h) b2, Z.max oEnd b3).

(** The loop over [regionHunks] that merges the hunks of each side. *)
Fixpoint mergeBounds (regionHunks : list hunk) (bounds : bound * bound)
  : bound * bound :=
  match regionHunks with
  | [] => bounds
  | h :: rest =>
      mergeBounds rest
        match ab h with
        | SideA => (widen (fst bounds) h, snd bounds)
        | SideB => (fst bounds, widen (snd bounds) h)
        end
  end.

Definition conflictRegion (regionStart regionEnd : Z)
    (regionHunks : list hunk) : region :=
  let '((a0, a1, a2, a3), (b0, b1, b2, b3)) :=
    mergeBounds regionHunks
      ((len a, -1, len o, -1), (len b, -1, len o, -1)) in
  let aStart := a0 + (regionStart - a2) in
  let aEnd := a1 + (regionEnd - a3) in
  let bStart := b0 + (regionStart - b2) in
  let bEnd := b1 + (regionEnd - b3) in
  Unstable aStart (aEnd - aStart) (Js.slice a aStart aEnd)
           regionStart (regionEnd - regionStart)
           (Js.slice o regionStart regionEnd)
           bStart (bEnd - bStart) (Js.slice b bStart bEnd).

(** The outer [while (hunks.length)]; every turn removes at least one
    hunk, so [length hunks] turns suffice. *)
Fixpoint regionLoop (turns : nat) (hunks : list hunk)
    (st : Z * list region) : Z * list region :=
  match turns, hunks with
  | S turns', hunk :: rest =>
      let regionStart := oStart hunk in
      let st1 := advanceTo regionStart st in
      let '(regionEnd, regionHunks, rest') :=
        pullOverlapping rest (oStart hunk + oLength hunk) [hunk] in
      let results :=
        match regionHunks with
        | [_] =>
            if abLength hunk >? 0 then
              let buf := match ab hunk with SideA => a | SideB => b end in
              snd st1 ++
              [Stable (match ab hunk with SideA => BufA | SideB => BufB end)
                 (abStart hunk) (abLength hunk)
                 (Js.slice buf (abStart hunk)
                    (abStart hunk + abLength hunk))]
            else snd st1
        | _ => snd st1 ++ [conflictRegion regionStart regionEnd regionHunks]
        end in
      regionLoop turns' rest' (regionEnd, results)
  | _, _ => st
  end.

Definition diff3MergeRegions : list region :=
  let hunks :=
    sortHunks (map (addHunk SideA) (diffIndices o a) ++
               map (addHunk SideB) (diffIndices o b)) in
  let st := regionLoop (length hunks) hunks (0, []) in
  snd (advanceTo (len o) st).

End Regions.

Inductive block :=
| Ok (ok : list string)
| Conflict (a : list string) (aIndex : Z) (o : list string) (oIndex : Z)
           (b : list string) (bIndex : Z).

Definition flushOk (st : list string * list block)
  : list string * list block :=
  let '(okBuffer, results) := st in
  ([], match okBuffer with
       | [] => results
       | _ => results ++ [Ok okBuffer]
       end).

Fixpoint sameItems (a b : list string) : bool :=
  match a, b with
  | [], [] => true
  | x :: a', y :: b' => String.eqb x y && sameItems a' b'
  | _, _ => false
  end.

Definition isFalseConflict (a b : list string) : bool :=
  (len a =? len b) && sameItems a b.

Definition mergeRegion (st : list string * list block) (r : region)
  : list string * list block :=
  match r with
  | Stable _ _ _ bufferContent => (fst st ++ bufferContent, snd st)
  | Unstable aStart _ aContent oStart _ oContent bStart _ bContent =>
      if isFalseConflict aContent bContent
      then (fst st ++ aContent, snd st)
      else
        let '(okBuffer, results) := flushOk st in
        (okBuffer,
         results ++
         [Conflict aContent aStart oContent oStart bContent bStart])
  end.

Definition diff3Merge (a o b : list string) : list block :=
  snd (flushOk (fold_left mergeRegion (diff3MergeRegions a o b) ([], []))).

End Diff3.

(* ===================================================================== *)
(** ** utils/merge.ts: three-way merge of component files *)
(* ===================================================================== *)

Module Merge.

Record MergeResult := mkMergeResult {
  success : bool;
  content : string;
  conflictCount : Z }.

Record Labels := mkLabels {
  ours : option string;
  theirs : option string }.

(** [labels?.field || fallback]: the fallback is taken when [labels] or
    the field is missing and also when the label is the empty string. *)
Definition labelOr (labels : option Labels)
    (field : Labels -> option string) (fallback : string) : string :=
  match labels ≫= field with
  | Some l => if String.eqb l "" then fallback else l
  | None => fallback
  end.

(** One turn of the loop over [mergeResults]. *)
Definition pushResult (labels : option Labels)
    (st : Z * list string) (result : Diff3.block) : Z * list string :=
  let '(conflictCount, mergedLines) := st in
  match result with
  | Diff3.Ok ok => (conflictCount, mergedLines ++ ok)
  | Diff3.Conflict a _ _ _ b _ =>
      (conflictCount + 1,
       mergedLines ++
         ["<<<<<<< " +:+ labelOr labels ours "ours (your changes)"] ++
         a ++ ["======="] ++ b ++
         [">>>>>>> " +:+ labelOr labels theirs "theirs (upstream)"])
  end.

(** [threeWayMerge]. *)
Definition threeWayMerge (base ours theirs : string)
    (labels : option Labels) : MergeResult :=
  let baseLines := Js.splitLines base in
  let oursLines := Js.splitLines ours in
  let theirsLines := Js.splitLines theirs in
  let mergeResults := Diff3.diff3Merge oursLines baseLines theirsLines in
  let '(conflictCount, mergedLines) :=
    fold_left (pushResult labels) mergeResults (0, []) in
  mkMergeResult (conflictCount =? 0) (Js.joinLines mergedLines)
                conflictCount.

(** [hasConflictMarkers]. *)
Definition hasConflictMarkers (content : string) : bool :=
  Js.includes "<<<<<<<" content && Js.includes "=======" content
  && Js.includes ">>>>>>>" content.

(** [countConflicts]. *)
Definition countConflicts (content : string) : Z :=
  Z.of_nat (Js.countMatches "<<<<<<<" content).

End Merge.

(* ===================================================================== *)
(** ** utils/registry.ts: what the registry returned *)
(* ===================================================================== *)

Module Registry.

Record ComponentChangelog := mkChangelog {
  component : string;
  currentVersion : string;
  entries : list DiffFormatter.ChangelogEntry }.

Record RegistryItemVersioning := mkVersioning {
  versioningCurrentVersion : string;
  changelog : ComponentChangelog;
  availableVersions : list string }.

Record RegistryFile := mkFile {
  path : string;
  content : string;
  type : string;
  target : option string }.

Record Meta := mkMeta { versioning : option RegistryItemVersioning }.

Record RegistryItem := mkItem {
  name : string;
  itemType : string;
  files : list RegistryFile;
  meta : option Meta }.

(** [extractComponentCode]. *)
Definition extractComponentCode (registryItem : RegistryItem) : string :=
  let mainFile :=
    List.find
      (fun file =>
         String.eqb (type file) "registry:ui"
         || Js.includes "/components/ui/" (path file))
      (files registryItem) in
  match mainFile with
  | None =>
      match files registryItem with
      | first :: _ =>
          if String.eqb (content first) "" then "" else content first
      | [] => ""
      end
  | Some file => content file
  end.

(** [item.meta?.versioning?.currentVersion]. *)
Definition currentVersionOf (item : RegistryItem) : option string :=
  match meta item with
  | Some m =>
      match versioning m with
      | Some v => Some (versioningCurrentVersion v)
      | None => None
      end
  | None => None
  end.

(** [fetchComponentVersion], given what [fetchRegistryItem] returned and
    what [tryFetchLocalVersion] returns when it is asked. *)
Definition fetchComponentVersion (fetched : option RegistryItem)
    (localVersion : option string) (version registryUrl : string)
  : option string :=
  match fetched with
  | None => None
  | Some item =>
      if bool_decide (currentVersionOf item = Some version)
      then Some (extractComponentCode item)
      else if Js.includes "localhost" registryUrl
              || Js.includes "127.0.0.1" registryUrl
      then
        match localVersion with
        | Some code => if String.eqb code "" then None else Some code
        | None => None
        end
      else None
  end.

End Registry.

(* ===================================================================== *)
(** ** commands/diff.ts *)
(* ===================================================================== *)

Module DiffCommand.
Import DiffFormatter.

(** [getEntriesBetweenVersions]. *)
Definition getEntriesBetweenVersions (entries : list ChangelogEntry)
    (fromVersion toVersion : string) : list ChangelogEntry :=
  let fromIndex :=
    Js.findIndex (fun e => String.eqb (version e) fromVersion) entries in
  let toIndex :=
    Js.findIndex (fun e => String.eqb (version e) toVersion) entries in
  if (fromIndex =? -1) || (toIndex =? -1) then []
  else
    let start := Z.min fromIndex toIndex in
    let stop := Z.max fromIndex toIndex in
    rev (Js.slice entries start (stop + 1)).

End DiffCommand.

(* ===================================================================== *)
(** ** utils/component-locator.ts *)
(* ===================================================================== *)

Module ComponentLocator.

Record ComponentLocation := mkLocation {
  path : string;
  exists_ : bool }.

Record Aliases := mkAliases {
  components : option string;
  ui : option string;
  utils : option string }.

Record ComponentsConfig := mkConfig { aliases : option Aliases }.

(** A string that is there and not empty (truthy). *)
Definition nonEmpty (s : option string) : option string :=
  match s with
  | Some v => if String.eqb v "" then None else Some v
  | None => None
  end.

(** [config?.aliases?.field]. *)
Definition aliasOf (config : option ComponentsConfig)
    (field : Aliases -> option string) : option string :=
  match config with
  | Some c =>
      match aliases c with
      | Some a => field a
      | None => None
      end
  | None => None
  end.

Section Locate.
(** [path.join] and the state of the file system are taken as given. *)
Variable join : list string -> string.
Variable fileExists : string -> bool.

(** The loop over [pathsToTry]. *)
Fixpoint firstExisting (pathsToTry : list string) : option string :=
  match pathsToTry with
  | [] => None
  | tryPath :: rest =>
      if fileExists tryPath then Some tryPath else firstExisting rest
  end.

(** [locateComponent]; [readConfig] is what [readJsonFile] returns for
    [components.json]. *)
Definition locateComponent (componentName cwd : string)
    (readConfig : option ComponentsConfig) : ComponentLocation :=
  let fileName := componentName +:+ ".tsx" in
  let configPath := join [cwd; "components.json"] in
  let componentAlias : option string :=
    if fileExists configPath then
      let config := readConfig in
      match nonEmpty (aliasOf config ui) with
      | Some a => Some a
      | None => nonEmpty (aliasOf config components)
      end
    else None in
  let aliasPaths :=
    match componentAlias with
    | Some a =>
        let cleanAlias := Js.dropPrefix "@/" a in
        [join [cwd; cleanAlias; fileName]] ++
        match Js.stripPrefix "src/" cleanAlias with
        | Some _ => []
        | None => [join [cwd; "src"; cleanAlias; fileName]]
        end
    | None => []
    end in
  let pathsToTry :=
    aliasPaths ++
    [join [cwd; "components"; "ui"; fileName];
     join [cwd; "src"; "components"; "ui"; fileName];
     join [cwd; "app"; "components"; "ui"; fileName];
     join [cwd; "lib"; "components"; "ui"; fileName]] in
  match firstExisting pathsToTry with
  | Some tryPath => mkLocation tryPath true
  | None =>
      let defaultPath :=
        match componentAlias with
        | Some a => join [cwd; Js.dropPrefix "@/" a; fileName]
        | None => join [cwd; "components"; "ui"; fileName]
        end in
      mkLocation defaultPath false
  end.

End Locate.

End ComponentLocator.

(* ===================================================================== *)
(** ** The staged-files type check script *)
(* ===================================================================== *)

Module TypecheckStaged.

(** A value of the [scripts] object of a [package.json]. *)
Inductive scriptValue :=
| ScriptText (command : string)
| NotText.

Definition candidates : list string :=
  ["check"; "type-check"; "typecheck"; "check-types"].

(** [pickTypecheckScript]; a missing [scripts] object is [None]. *)
Definition pickTypecheckScript (scripts : option (gmap string scriptValue))
  : option string :=
  match scripts with
  | None => None
  | Some sc =>
      List.find
        (fun name =>
           match sc !! name with
           | Some (ScriptText _) => true
           | _ => false
           end)
        candidates
  end.

End TypecheckStaged.

(* ===================================================================== *)
(** ** commands/snapshot.ts *)
(* ===================================================================== *)

Module Snapshot.
Import DiffFormatter Registry.

(** Steps 8 and 9 of [snapshotCommand]: the changelog read from the file
    (or a new one) gets the new entry at the front and the new current
    version. *)
Definition recordSnapshot (existing : option ComponentChangelog)
    (component version date : string) (changeEntries : list ChangelogChange)
    (breaking : bool) : ComponentChangelog :=
  let changelog :=
    match existing with
    | Some c => c
    | None => mkChangelog component version []
    end in
  let newEntry :=
    mkChangelogEntry version date changeEntries
      (if breaking then Some true else None) in
  mkChangelog (Registry.component changelog) version
              (newEntry :: entries changelog).

End Snapshot.

(* ===================================================================== *)
(** ** commands/update.ts *)
(* ===================================================================== *)

Module UpdateCommand.
Import LockStore.

(** The answer to the strategy prompt. *)
Inductive strategyAnswer := AnswerMerge | AnswerOverwrite | AnswerDiff | AnswerAbort.

Inductive strategy := StrategyOverwrite | StrategyMerge.

(** What the command did to the project. *)
Inductive outcome :=
| Returned
| Updated (newContent : string) (newEntry : ComponentLockEntry)
          (mergeSuccess : bool).

(** Steps 4 to 8 of [updateCommand], once the lock entry, the registry
    item and the component file have been found.  The file content, the
    answers to the two prompts, the result of [fetchComponentVersion] and
    the clock are taken as given. *)
Definition applyUpdate (force merge : bool) (entry : ComponentLockEntry)
    (registryItem : Registry.RegistryItem) (latestVersion : string)
    (oursContent : string) (answer : option strategyAnswer)
    (baseContent : option string) (confirmOverwrite : bool) (now : string)
  : outcome :=
  let currentChecksum := Checksum.computeChecksum oursContent in
  let isModified :=
    negb (Checksum.compareChecksums (checksum entry) currentChecksum) in
  if String.eqb (installedVersion entry) latestVersion then Returned
  else
    let chosen : option strategy :=
      if isModified && negb force && negb merge then
        match answer with
        | None | Some AnswerAbort | Some AnswerDiff => None
        | Some AnswerMerge => Some StrategyMerge
        | Some AnswerOverwrite => Some StrategyOverwrite
        end
      else if force then Some StrategyOverwrite
      else if merge then Some StrategyMerge
      else Some StrategyOverwrite in
    match chosen with
    | None => Returned
    | Some updateStrategy =>
        let written : option (string * bool) :=
          match updateStrategy with
          | StrategyMerge =>
              if isModified then
                match baseContent with
                | Some base =>
                    if String.eqb base "" then
                      if confirmOverwrite
                      then Some (Registry.extractComponentCode registryItem, true)
                      else None
                    else
                      let mergeResult :=
                        Merge.threeWayMerge base oursContent
                          (Registry.extractComponentCode registryItem)
                          (Some (Merge.mkLabels (Some "your changes")
                                   (Some ("v" +:+ latestVersion)))) in
                      Some (Merge.content mergeResult, Merge.success mergeResult)
                | None =>
                    if confirmOverwrite
                    then Some (Registry.extractComponentCode registryItem, true)
                    else None
                end
              else Some (Registry.extractComponentCode registryItem, true)
          | StrategyOverwrite =>
              Some (Registry.extractComponentCode registryItem, true)
          end in
        match written with
        | None => Returned
        | Some (newContent, mergeSuccess) =>
            let newChecksum := Checksum.computeChecksum newContent in
            Updated newContent
              (mkEntry latestVersion now newChecksum (registryUrl entry))
              mergeSuccess
        end
    end.

End UpdateCommand.

(* ===================================================================== *)
(** ** commands/add.ts *)
(* ===================================================================== *)

Module AddCommand.
Import LockStore.

(** How the command ended; [installed] tells whether the component was
    installed through shadcn before. *)
Inductive addOutcome :=
| Exited (installed : bool)
| AlreadyTracked (installed : bool)
| Tracked (installed : bool) (h : heap) (lockFile : loc).

(** [addCommand] for a given component name.  What [locateComponent] found
    before and after the installation, what [fetchRegistryItem] returned,
    whether [execShadcnAdd] succeeded, the content of the installed file,
    what [readLockFile] returned and the clock are taken as given.  The
    result is [None] when the lock file reference does not lead to a lock
    file object. *)
Definition addCommand (scan force : bool) (existsBefore : bool)
    (fetched : option Registry.RegistryItem) (shadcnOk : bool)
    (existsAfter : bool) (fileContent : string)
    (h : heap) (existing : option loc)
    (component registryUrl now : string) : option addOutcome :=
  if existsBefore && negb scan && negb force then Some (Exited false)
  else
    match fetched with
    | None => Some (Exited false)
    | Some registryItem =>
        match Registry.currentVersionOf registryItem with
        | None => Some (Exited false)
        | Some currentVersion =>
            if negb scan && negb shadcnOk then Some (Exited false)
            else
              let installed := negb scan in
              if negb existsAfter then Some (Exited installed)
              else
                let checksum := Checksum.computeChecksum fileContent in
                let '(h0, lockFile) := readOrCreateLockFile h existing in
                match isComponentTracked h0 lockFile component with
                | None => None
                | Some tracked =>
                    if tracked && negb force
                    then Some (AlreadyTracked installed)
                    else
                      match updateComponentEntry h0 lockFile component
                              (mkEntry currentVersion now checksum
                                       (Some registryUrl)) with
                      | Some (h1, updatedLockFile) =>
                          Some (Tracked installed h1 updatedLockFile)
                      | None => None
                      end
                end
        end
    end.

End AddCommand.


(* ===================================================================== *)
(** ** Vocabulary of the statements *)
(* ===================================================================== *)

Module ChangelogSpec.

(** [i] is the index of the entry whose version equals [v] (the first one,
    as [findIndex] reports it). *)
Definition indexOfVersion (entries : list DiffFormatter.ChangelogEntry)
    (v : string) (i : nat) : Prop :=
  (exists e, entries !! i = Some e /\ DiffFormatter.version e = v) /\
  forall k e, (k < i)%nat -> entries !! k = Some e ->
              DiffFormatter.version e <> v.

(** No entry has version [v]. *)
Definition versionAbsent (entries : list DiffFormatter.ChangelogEntry)
    (v : string) : Prop :=
  forall e, In e entries -> DiffFormatter.version e <> v.

End ChangelogSpec.

Module LockStoreSpec.
Import LockStore.

(** A small store used to exercise the statements. *)
Definition sampleEntry (ver : string) : ComponentLockEntry :=
  mkEntry ver "2025-01-01T00:00:00.000Z"
    "sha256:e3b0c44298fc1c149afbf4c8996fb92427ae41e4649b934ca495991b7852b855"
    None.

Definition sampleHeap : heap :=
  <[1%positive := LockFileObject None "1.0" 2%positive]>
    (<[2%positive := ComponentsObject {[ "button" := sampleEntry "1.0.0" ]}]> ∅).

End LockStoreSpec.

Module MergeSpec.

(** The lines a merge block contributes to the output: the lines of a
    merged block as they are; for a conflict the opening marker with the
    ours-label, the ours lines, the separator, the theirs lines and the
    closing marker with the theirs-label. *)
Definition blockLines (oursLabel theirsLabel : string) (blk : Diff3.block)
  : list string :=
  match blk with
  | Diff3.Ok ok => ok
  | Diff3.Conflict a _ _ _ b _ =>
      ["<<<<<<< " +:+ oursLabel] ++ a ++ ["======="] ++ b ++
      [">>>>>>> " +:+ theirsLabel]
  end.

Definition isConflict (blk : Diff3.block) : bool :=
  match blk with
  | Diff3.Ok _ => false
  | Diff3.Conflict _ _ _ _ _ _ => true
  end.

Definition conflictBlocks (blocks : list Diff3.block) : Z :=
  Z.of_nat (length (List.filter isConflict blocks)).

(** The blocks [threeWayMerge] receives from the line merge. *)
Definition mergeBlocks (base ours theirs : string) : list Diff3.block :=
  Diff3.diff3Merge (Js.splitLines ours) (Js.splitLines base)
                   (Js.splitLines theirs).

(** The text contains neither [<<<<<<<] nor [>>>>>>>]. *)
Definition markerFree (s : string) : bool :=
  negb (Js.includes "<<<<<<<" s) && negb (Js.includes ">>>>>>>" s).

(** [s.startsWith(pat)]. *)
Definition startsWith (pat s : string) : bool :=
  match Js.stripPrefix pat s with
  | Some _ => true
  | None => false
  end.

Fixpoint noLF (s : string) : bool :=
  match s with
  | EmptyString => true
  | String c rest => negb (Ascii.eqb c Js.LF) && noLF rest
  end.

(** Matches of [pat] summed over the lines. *)
Definition totalMatches (pat : string) (lines : list string) : nat :=
  fold_right (fun l n => (Js.countMatches pat l + n)%nat) 0%nat lines.

(** A line without conflict marker text. *)
Definition noMarker (l : string) : Prop :=
  Js.countMatches "<<<<<<<" l = 0%nat /\ Js.countMatches ">>>>>>>" l = 0%nat.

End MergeSpec.

Module Diff3Spec.
Import Diff3.

(** Positions of [item] in [l], ascending, counted from [j]. *)
Fixpoint positions (item : string) (l : list string) (j : Z) : list Z :=
  match l with
  | [] => []
  | x :: rest =>
      if String.eqb x item then j :: positions item rest (j + 1)
      else positions item rest (j + 1)
  end.

(** A chain of matches lying strictly below [(t1, t2)]: every candidate
    pairs equal items of the two buffers and the indices decrease along
    the chain down to the sentinel. *)
Inductive validChain (b1 b2 : list string) : candidate -> Z -> Z -> Prop :=
| validNull t1 t2 :
    0 <= t1 -> 0 <= t2 -> validChain b1 b2 NULLRESULT t1 t2
| validCons i j c t1 t2 x :
    0 <= i < t1 -> 0 <= j < t2 ->
    b1 !! Z.to_nat i = Some x -> b2 !! Z.to_nat j = Some x ->
    validChain b1 b2 c i j ->
    validChain b1 b2 (Candidate i j c) t1 t2.

(** The chain that pairs the first [n] positions with themselves. *)
Fixpoint idChain (n : nat) : candidate :=
  match n with
  | O => NULLRESULT
  | S n' => Candidate (Z.of_nat n') (Z.of_nat n') (idChain n')
  end.

Definition idList (n : nat) : list candidate := map idChain (seq 0 (S n)).

(** The chunks of [diffIndices] in ascending order. *)
Fixpoint chunksFwd (b1 b2 : list string) (c : candidate) (tail1 tail2 : Z)
  : list chunk :=
  match c with
  | NoCandidate => []
  | Candidate i j chain =>
      chunksFwd b1 b2 chain i j ++
      (if negb (tail1 - i - 1 =? 0) || negb (tail2 - j - 1 =? 0)
       then [mkChunk (i + 1, tail1 - i - 1)
               (Js.slice b1 (i + 1) (i + 1 + (tail1 - i - 1)))
               (j + 1, tail2 - j - 1)
               (Js.slice b2 (j + 1) (j + 1 + (tail2 - j - 1)))]
       else [])
  end.

(** [hs] is an edit script from [o] to [x] between the offsets
    [(po, px)] and [(t1, t2)]: outside the hunks the two buffers agree,
    every hunk replaces [oLength] items of [o] by [abLength] items of
    [x], and at least [gap] agreeing items precede the first hunk and one
    separates consecutive hunks. *)
Fixpoint script (o x : list string) (gap po px : Z) (hs : list hunk)
    (t1 t2 : Z) : Prop :=
  match hs with
  | [] =>
      po <= t1 /\ t1 - po = t2 - px /\ Js.slice o po t1 = Js.slice x px t2
  | h :: hs' =>
      po + gap <= oStart h /\ oStart h - po = abStart h - px /\
      Js.slice o po (oStart h) = Js.slice x px (abStart h) /\
      0 <= oLength h /\ 0 <= abLength h /\
      script o x 1 (oStart h + oLength h) (abStart h + abLength h) hs' t1 t2
  end.

(** The lines a region contributes when it is merged without conflict, and
    the regions that are: stable ones, and unstable ones on which both
    sides made the same change. *)
Definition regionLines (r : region) : list string :=
  match r with
  | Stable _ _ _ bufferContent => bufferContent
  | Unstable _ _ aContent _ _ _ _ _ _ => aContent
  end.

Definition regionClean (r : region) : Prop :=
  match r with
  | Stable _ _ _ _ => True
  | Unstable _ _ aContent _ _ _ _ _ bContent =>
      isFalseConflict aContent bContent = true
  end.

(** The same chunks reported for both sides, side A first. *)
Definition pairUp (cs : list chunk) : list hunk :=
  flat_map (fun c => [addHunk SideA c; addHunk SideB c]) cs.

(** Every line of a region, or of a block, satisfies [P]. *)
Definition regionAll (P : string -> Prop) (r : region) : Prop :=
  match r with
  | Stable _ _ _ c => Forall P c
  | Unstable _ _ ca _ _ _ _ _ cb => Forall P ca /\ Forall P cb
  end.

Definition blockAll (P : string -> Prop) (blk : block) : Prop :=
  match blk with
  | Ok ok => Forall P ok
  | Conflict ca _ _ _ cb _ => Forall P ca /\ Forall P cb
  end.

(** Closing the region loop from state [st] adds to [results] only
    regions that merge without conflict, and their lines are [lines]. *)
Definition finishes (o : list string) (st : Z * list region)
    (results : list region) (lines : list string) : Prop :=
  exists R,
    snd (advanceTo o (len o) st) = results ++ R /\
    Forall regionClean R /\
    concat (map regionLines R) = lines.

End Diff3Spec.

Module ChecksumSpec.

(** The text with every LF turned into CR LF (Windows line endings). *)
Fixpoint toCRLF (s : string) : string :=
  match s with
  | EmptyString => EmptyString
  | String c rest =>
      if Ascii.eqb c Js.LF then String Js.CR (String Js.LF (toCRLF rest))
      else String c (toCRLF rest)
  end.

(** The text contains a CR LF pair. *)
Fixpoint hasCRLF (s : string) : bool :=
  match s with
  | String c1 ((String c2 _) as rest) =>
      (Ascii.eqb c1 Js.CR && Ascii.eqb c2 Js.LF) || hasCRLF rest
  | _ => false
  end.

End ChecksumSpec.

Module MergeOrigin.

(** [l] is a line of one of the three inputs of the merge. *)
Definition fromInputs (base ours theirs : string) (l : string) : Prop :=
  In l (Js.splitLines base) \/ In l (Js.splitLines ours) \/
  In l (Js.splitLines theirs).

(** [l] is one of the three lines written around a conflict. *)
Definition markerLine (oursLabel theirsLabel : string) (l : string) : Prop :=
  l = "<<<<<<< " +:+ oursLabel \/ l = "=======" \/
  l = ">>>>>>> " +:+ theirsLabel.

End MergeOrigin.

Module RegistrySpec.

(** The file is a UI component file: by its type or by its path. *)
Definition isUiFile (file : Registry.RegistryFile) : bool :=
  String.eqb (Registry.type file) "registry:ui"
  || Js.includes "/components/ui/" (Registry.path file).

(** The registry URL names the local machine. *)
Definition localRegistry (url : string) : bool :=
  Js.includes "localhost" url || Js.includes "127.0.0.1" url.

End RegistrySpec.

Module LocatorSpec.

(** The four places tried for every project. *)
Definition commonPaths (join : list string -> string) (cwd fileName : string)
  : list string :=
  [join [cwd; "components"; "ui"; fileName];
   join [cwd; "src"; "components"; "ui"; fileName];
   join [cwd; "app"; "components"; "ui"; fileName];
   join [cwd; "lib"; "components"; "ui"; fileName]].

End LocatorSpec.

Module TypecheckSpec.

(** The entry [name] of the scripts object is a string. *)
Definition isText (sc : gmap string TypecheckStaged.scriptValue)
    (name : string) : Prop :=
  exists command, sc !! name = Some (TypecheckStaged.ScriptText command).

(** The test of the loop of [pickTypecheckScript]. *)
Definition textScript (sc : gmap string TypecheckStaged.scriptValue)
    (name : string) : bool :=
  match sc !! name with
  | Some (TypecheckStaged.ScriptText _) => true
  | _ => false
  end.

End TypecheckSpec.

Module AddSpec.
Import LockStore.

(** The lock file value the add command starts from: the one read from
    the file, or the new one. *)
Definition storeBefore (h : heap) (existing : option loc) : option LockFile :=
  match existing with
  | Some lockFile => readValue h lockFile
  | None => Some (mkLockFile None LOCK_FILE_VERSION ∅)
  end.

End AddSpec.


(* ===================================================================== *)
(** ** Properties *)
(* ===================================================================== *)

Module JsFacts.

Lemma rev_reverse {A} (l : list A) : rev l = reverse l.
Proof. unfold reverse. apply rev_alt. Qed.

(** Inside the array bounds [slice] is [take] after [drop]. *)
Lemma slice_inside {A} (l : list A) (s e : Z) :
  0 <= s -> s <= e -> e <= Z.of_nat (length l) ->
  Js.slice l s e = take (Z.to_nat (e - s)) (drop (Z.to_nat s) l).
Proof.
  intros Hs He Hl. unfold Js.slice, Js.clampIndex.
  destruct (Z.ltb_spec s 0); [lia|].
  destruct (Z.ltb_spec e 0); [lia|].
  rewrite !Z.min_l by lia. reflexivity.
Qed.

Lemma findIndexFrom_absent {A} (p : A -> bool) l i :
  (forall x, In x l -> p x = false) -> Js.findIndexFrom p l i = -1.
Proof.
  revert i. induction l as [|x l IH]; intros i H; simpl; [reflexivity|].
  rewrite (H x) by (left; reflexivity).
  apply IH. intros y Hy. apply H. right. exact Hy.
Qed.

Lemma findIndexFrom_first {A} (p : A -> bool) l : forall i k x,
  l !! k = Some x -> p x = true ->
  (forall k' y, (k' < k)%nat -> l !! k' = Some y -> p y = false) ->
  Js.findIndexFrom p l i = i + Z.of_nat k.
Proof.
  induction l as [|a l IH]; intros i k x Hk Hp Hbefore; [discriminate|].
  destruct k as [|k]; simpl in *.
  - injection Hk as ->. rewrite Hp. lia.
  - rewrite (Hbefore 0%nat a) by first [lia|reflexivity].
    rewrite (IH (i + 1) k x Hk Hp).
    + lia.
    + intros k' y Hlt Hy. apply (Hbefore (S k') y); [lia|exact Hy].
Qed.

End JsFacts.

Module ChecksumFacts.
Import Checksum.

Lemma hexDigit_lower n : isLowerHex (hexDigit n) = true.
Proof.
  unfold hexDigit.
  assert (Hb : 0 <= n mod 16 < 16) by (apply Z.mod_pos_bound; lia).
  assert (Hk : (Z.to_nat (n mod 16) < 16)%nat) by lia.
  clear Hb. revert Hk. generalize (Z.to_nat (n mod 16)). intros k Hk.
  do 16 (destruct k as [|k]; [reflexivity|]). lia.
Qed.

Lemma hex_length bytes : String.length (hex bytes) = (2 * length bytes)%nat.
Proof. induction bytes as [|b rest IH]; simpl; [reflexivity|]. rewrite IH. lia. Qed.

Lemma hex_matches bytes :
  matchHexExactly (2 * length bytes) (hex bytes) = true.
Proof.
  induction bytes as [|b rest IH]; [reflexivity|].
  replace (2 * length (b :: rest))%nat with (S (S (2 * length rest))) by (simpl; lia).
  simpl. rewrite !hexDigit_lower. exact IH.
Qed.

Lemma hex_lower bytes c :
  In c (list_ascii_of_string (hex bytes)) -> isLowerHex c = true.
Proof.
  induction bytes as [|b rest IH]; simpl; [tauto|].
  intros [<-|[<-|H]]; auto using hexDigit_lower.
Qed.

Lemma digest_length msg : length (Sha256.digest msg) = 32%nat.
Proof. reflexivity. Qed.

(** The standard test vectors: the empty message and ["abc"]. *)
Example digest_empty :
  hex (Sha256.digest []) =
  "e3b0c44298fc1c149afbf4c8996fb92427ae41e4649b934ca495991b7852b855".
Proof. vm_compute. reflexivity. Qed.

Example digest_abc :
  hex (Sha256.digest (utf8Bytes "abc")) =
  "ba7816bf8f01cfea414140de5dae2223b00361a396177a9cb410ff61f20015ad".
Proof. vm_compute. reflexivity. Qed.

(** C9: the checksum of any content is ["sha256:"] followed by exactly 64
    characters, each a lowercase hexadecimal digit, and it is accepted by
    the validation pattern [^sha256:[a-f0-9]{64}$]. *)
Theorem computeChecksum_format (content : string) :
  exists digits,
    computeChecksum content = "sha256:" +:+ digits /\
    String.length digits = 64%nat /\
    (forall c, In c (list_ascii_of_string digits) -> isLowerHex c = true) /\
    checksumSchema (computeChecksum content) = true.
Proof.
  unfold computeChecksum.
  set (d := Sha256.digest _).
  exists (hex d). split; [reflexivity|].
  assert (Hlen : length d = 32%nat) by apply digest_length.
  split; [rewrite hex_length, Hlen; reflexivity|].
  split; [apply hex_lower|].
  change (checksumSchema ("sha256:" +:+ hex d)) with (matchHexExactly 64 (hex d)).
  change 64%nat with (2 * 32)%nat. rewrite <- Hlen. apply hex_matches.
Qed.

(** Dropping the first character cannot create a CR CR LF triple. *)
Lemma hasCRCRLF_tail c s : hasCRCRLF (String c s) = false -> hasCRCRLF s = false.
Proof.
  destruct s as [|c2 [|c3 s]]; try reflexivity.
  cbn [hasCRCRLF]. intros H. apply orb_false_iff in H. tauto.
Qed.

Lemma replaceCRLF_cons_other c s :
  Ascii.eqb c Js.CR = false ->
  Js.replaceCRLF (String c s) = String c (Js.replaceCRLF s).
Proof. intros H. destruct s; simpl; [reflexivity|]. rewrite H. reflexivity. Qed.

Lemma replaceCRLF_cons2 c c2 s :
  Js.replaceCRLF (String c (String c2 s)) =
  if (Ascii.eqb c Js.CR && Ascii.eqb c2 Js.LF)%bool
  then String Js.LF (Js.replaceCRLF s)
  else String c (Js.replaceCRLF (String c2 s)).
Proof. reflexivity. Qed.

(** After a CR that is not part of a CR LF pair, and with no CR CR LF in
    the text, the rewritten remainder does not start with LF. *)
Lemma replaceCRLF_head c2 rest2 :
  Ascii.eqb c2 Js.LF = false ->
  hasCRCRLF (String Js.CR (String c2 rest2)) = false ->
  exists c' t, Js.replaceCRLF (String c2 rest2) = String c' t /\
               Ascii.eqb c' Js.LF = false.
Proof.
  intros E2 Hs.
  destruct rest2 as [|c3 rest3]; [exists c2, EmptyString; auto|].
  rewrite replaceCRLF_cons2.
  destruct (Ascii.eqb c2 Js.CR) eqn:E2c; cbn [andb].
  - destruct (Ascii.eqb c3 Js.LF) eqn:E3.
    + cbn [hasCRCRLF] in Hs. rewrite E2c, E3 in Hs.
      change (Ascii.eqb Js.CR Js.CR) with true in Hs. discriminate.
    + eexists _, _. split; [reflexivity|assumption].
  - eexists _, _. split; [reflexivity|assumption].
Qed.

Lemma replaceCRLF_bounded n : forall s,
  (String.length s <= n)%nat -> hasCRCRLF s = false ->
  Js.replaceCRLF (Js.replaceCRLF s) = Js.replaceCRLF s.
Proof.
  induction n as [|n IH]; intros s Hn Hs.
  - destruct s; [reflexivity|simpl in Hn; lia].
  - destruct s as [|c rest]; [reflexivity|].
    destruct rest as [|c2 rest2]; [reflexivity|].
    assert (Hrest : hasCRCRLF (String c2 rest2) = false)
      by (eapply hasCRCRLF_tail; eauto).
    assert (Hrest2 : hasCRCRLF rest2 = false)
      by (eapply hasCRCRLF_tail; eauto).
    simpl in Hn.
    assert (IH' := IH (String c2 rest2) ltac:(simpl; lia) Hrest).
    rewrite replaceCRLF_cons2.
    destruct (Ascii.eqb c Js.CR) eqn:Ec; cbn [andb].
    + destruct (Ascii.eqb c2 Js.LF) eqn:E2.
      * rewrite replaceCRLF_cons_other by reflexivity.
        rewrite IH; [reflexivity|lia|assumption].
      * apply Ascii.eqb_eq in Ec. subst c.
        destruct (replaceCRLF_head c2 rest2 E2 Hs) as (c' & t & Heq & Hc').
        rewrite Heq in *.
        rewrite replaceCRLF_cons2, Hc', andb_false_r.
        f_equal. exact IH'.
    + rewrite replaceCRLF_cons_other by assumption.
      rewrite IH'. reflexivity.
Qed.

(** C1 (as amended): for content in which no CR is immediately followed by
    a CR LF pair, the checksum does not change when every CR LF pair is
    rewritten to LF. *)
Theorem computeChecksum_crlf_invariant (c : string) :
  hasCRCRLF c = false ->
  computeChecksum c = computeChecksum (Js.replaceCRLF c).
Proof.
  intros H. unfold computeChecksum.
  rewrite (replaceCRLF_bounded (String.length c) c); auto.
Qed.

Lemma computeChecksum_crlf_invariant_witness :
  let c := String "a" (String Js.CR (String Js.LF "b")) in
  hasCRCRLF c = false /\
  computeChecksum c = computeChecksum (Js.replaceCRLF c).
Proof.
  split; [reflexivity|].
  apply (computeChecksum_crlf_invariant
           (String "a" (String Js.CR (String Js.LF "b")))).
  reflexivity.
Defined.

(** C1 fails as stated: for the content CR CR LF one rewriting pass leaves
    CR LF, whose own checksum is that of LF alone. *)
Lemma computeChecksum_crlf_counterexample :
  let c := String Js.CR (String Js.CR (String Js.LF "")) in
  computeChecksum c <> computeChecksum (Js.replaceCRLF c).
Proof. vm_compute. discriminate. Qed.

End ChecksumFacts.

Module DiffFormatterFacts.
Import DiffFormatter ChangelogSpec.

Lemma findIndex_absent entries v :
  versionAbsent entries v ->
  Js.findIndex (fun e => String.eqb (version e) v) entries = -1.
Proof.
  intros H. apply JsFacts.findIndexFrom_absent.
  intros e He. apply String.eqb_neq. apply H. exact He.
Qed.

Lemma findIndex_present entries v i :
  indexOfVersion entries v i ->
  Js.findIndex (fun e => String.eqb (version e) v) entries = Z.of_nat i.
Proof.
  intros [(e & He & Hv) Hfirst].
  unfold Js.findIndex.
  rewrite (JsFacts.findIndexFrom_first _ _ 0 i e He).
  - lia.
  - apply String.eqb_eq. exact Hv.
  - intros k y Hk Hy. apply String.eqb_neq. eapply Hfirst; eauto.
Qed.

Lemma indexOfVersion_lt entries v i :
  indexOfVersion entries v i -> (i < length entries)%nat.
Proof. intros [(e & He & _) _]. eapply lookup_lt_Some; eauto. Qed.

(** C2: when either version is absent the result is empty; when both are
    present at indices [i] and [j] the result is exactly the entries of
    the inclusive index range [[min i j, max i j]] in reverse (oldest
    first) order; the result does not depend on the order of the two
    versions; and for entries with versions 2.0.0, 1.1.0, 1.0.0 the
    range from 1.0.0 to 2.0.0 lists them as 1.0.0, 1.1.0, 2.0.0. *)
Theorem filterEntriesBetweenVersions_range :
  (forall entries a b,
     versionAbsent entries a \/ versionAbsent entries b ->
     filterEntriesBetweenVersions entries a b = []) /\
  (forall entries a b i j,
     indexOfVersion entries a i -> indexOfVersion entries b j ->
     let lo := Nat.min i j in
     let hi := Nat.max i j in
     length (filterEntriesBetweenVersions entries a b) = (hi - lo + 1)%nat /\
     forall k, (k <= hi - lo)%nat ->
       filterEntriesBetweenVersions entries a b !! k = entries !! (hi - k)%nat) /\
  (forall entries a b,
     filterEntriesBetweenVersions entries a b =
     filterEntriesBetweenVersions entries b a) /\
  (forall e1 e2 e3,
     version e1 = "2.0.0" -> version e2 = "1.1.0" -> version e3 = "1.0.0" ->
     filterEntriesBetweenVersions [e1; e2; e3] "1.0.0" "2.0.0" = [e3; e2; e1]).
Proof.
  split; [|split; [|split]].
  - intros entries a b [H|H]; unfold filterEntriesBetweenVersions;
      rewrite (findIndex_absent _ _ H); [reflexivity|].
    rewrite orb_true_r. reflexivity.
  - intros entries a b i j Hi Hj lo hi.
    unfold filterEntriesBetweenVersions.
    rewrite (findIndex_present _ _ _ Hi), (findIndex_present _ _ _ Hj).
    apply indexOfVersion_lt in Hi, Hj.
    destruct (Z.eqb_spec (Z.of_nat i) (-1)); [lia|].
    destruct (Z.eqb_spec (Z.of_nat j) (-1)); [lia|].
    cbn [orb].
    rewrite JsFacts.slice_inside by lia.
    rewrite JsFacts.rev_reverse.
    replace (Z.to_nat (Z.max (Z.of_nat i) (Z.of_nat j) + 1 -
                       Z.min (Z.of_nat i) (Z.of_nat j)))
      with (hi - lo + 1)%nat by (subst lo hi; lia).
    replace (Z.to_nat (Z.min (Z.of_nat i) (Z.of_nat j))) with lo
      by (subst lo; lia).
    assert (Hlen : length (take (hi - lo + 1) (drop lo entries))
                   = (hi - lo + 1)%nat).
    { rewrite length_take, length_drop. subst lo hi. lia. }
    split; [rewrite length_reverse; exact Hlen|].
    intros k Hk.
    rewrite reverse_lookup by (rewrite Hlen; lia).
    rewrite Hlen, lookup_take_lt by lia.
    rewrite lookup_drop. f_equal. subst lo hi. lia.
  - intros entries a b. unfold filterEntriesBetweenVersions.
    rewrite orb_comm, Z.min_comm, Z.max_comm. reflexivity.
  - intros e1 e2 e3 H1 H2 H3.
    unfold filterEntriesBetweenVersions, Js.findIndex. simpl.
    rewrite H1, H2, H3. reflexivity.
Qed.

Lemma filterEntriesBetweenVersions_range_witness :
  let e v := mkChangelogEntry v "2025-01-01T00:00:00.000Z"
               [mkChange fixed "patch"] None in
  let entries := [e "2.0.0"; e "1.1.0"; e "1.0.0"] in
  filterEntriesBetweenVersions entries "9.9.9" "1.0.0" = [] /\
  length (filterEntriesBetweenVersions entries "1.0.0" "1.1.0") = 2%nat /\
  filterEntriesBetweenVersions entries "1.0.0" "2.0.0"
  = [e "1.0.0"; e "1.1.0"; e "2.0.0"].
Proof.
  intros e entries.
  destruct filterEntriesBetweenVersions_range as (Habsent & Hrange & _ & Hex).
  split; [|split].
  - apply Habsent. left. intros x Hx.
    simpl in Hx. destruct Hx as [<-|[<-|[<-|[]]]]; discriminate.
  - refine (proj1 (Hrange entries "1.0.0" "1.1.0" 2%nat 1%nat _ _)).
    + split; [exists (e "1.0.0"); split; reflexivity|].
      intros k x Hk Hx. destruct k as [|[|k]]; [| |lia];
        injection Hx as <-; discriminate.
    + split; [exists (e "1.1.0"); split; reflexivity|].
      intros k x Hk Hx. destruct k as [|k]; [|lia].
      injection Hx as <-; discriminate.
  - apply Hex; reflexivity.
Defined.

End DiffFormatterFacts.

Module LockStoreFacts.
Import LockStore LockStoreSpec.

Lemma alloc_fresh (h : heap) o : h !! (alloc h o).2 = None.
Proof. apply not_elem_of_dom. apply is_fresh. Qed.

Lemma alloc_lookup (h : heap) o : (alloc h o).1 !! (alloc h o).2 = Some o.
Proof. unfold alloc. simpl. apply lookup_insert_eq. Qed.

(** Allocation leaves every existing object as it is. *)
Lemma alloc_frame (h : heap) o l x :
  h !! l = Some x -> (alloc h o).1 !! l = Some x.
Proof.
  intros H. unfold alloc. simpl.
  rewrite lookup_insert_ne; [exact H|].
  intros <-. pose proof (alloc_fresh h o) as Hf. simpl in Hf. congruence.
Qed.

Lemma readValue_inv h lf v :
  readValue h lf = Some v ->
  exists c, h !! lf = Some (LockFileObject (schema v) (version v) c) /\
            h !! c = Some (ComponentsObject (components v)).
Proof.
  unfold readValue. intros H.
  destruct (h !! lf) as [[sch ver c|]|] eqn:E1; try discriminate.
  destruct (h !! c) as [[|props]|] eqn:E2; try discriminate.
  injection H as <-. exists c. auto.
Qed.

(** Both updates build their result from a new components object and a
    new lock file object; nothing that was in the heap is written. *)
Lemma rebuild_spec h lf v props' :
  readValue h lf = Some v ->
  let r1 := alloc h (ComponentsObject props') in
  let r2 := alloc r1.1 (LockFileObject (schema v) (version v) r1.2) in
  readValue r2.1 r2.2 = Some (mkLockFile (schema v) (version v) props') /\
  (forall l x, h !! l = Some x -> r2.1 !! l = Some x) /\
  readValue r2.1 lf = Some v.
Proof.
  intros Hv r1 r2.
  assert (Hframe : forall l x, h !! l = Some x -> r2.1 !! l = Some x).
  { intros l x Hl. subst r2. apply alloc_frame. subst r1.
    apply alloc_frame. exact Hl. }
  split; [|split; [exact Hframe|]].
  - unfold readValue. subst r2. rewrite alloc_lookup.
    rewrite (alloc_frame _ _ r1.2 (ComponentsObject props')).
    + reflexivity.
    + subst r1. apply alloc_lookup.
  - destruct (readValue_inv _ _ _ Hv) as (c & H1 & H2).
    unfold readValue. rewrite (Hframe _ _ H1), (Hframe _ _ H2).
    destruct v; reflexivity.
Qed.

Lemma updateComponentEntry_unfold h lf sch ver c props name entry :
  h !! lf = Some (LockFileObject sch ver c) ->
  h !! c = Some (ComponentsObject props) ->
  updateComponentEntry h lf name entry =
  let r1 := alloc h (ComponentsObject (<[name := entry]> props)) in
  Some (alloc r1.1 (LockFileObject sch ver r1.2)).
Proof.
  intros H1 H2. unfold updateComponentEntry. rewrite H1, H2.
  destruct (alloc h _). reflexivity.
Qed.

Lemma removeComponentEntry_unfold h lf sch ver c props name :
  h !! lf = Some (LockFileObject sch ver c) ->
  h !! c = Some (ComponentsObject props) ->
  removeComponentEntry h lf name =
  let r1 := alloc h (ComponentsObject (delete name props)) in
  Some (alloc r1.1 (LockFileObject sch ver r1.2)).
Proof.
  intros H1 H2. unfold removeComponentEntry. rewrite H1, H2.
  destruct (alloc h _). reflexivity.
Qed.

(** C8: on a lock file held in the heap, [updateComponentEntry] yields a
    store whose entry for the name is the given record, and
    [removeComponentEntry] a store without that key (equal components
    when the name was absent); in both the version (and [$schema]) and
    every entry under another name are unchanged, every object that
    existed before is unchanged, and the input reference still reads the
    input value. *)
Theorem lock_store_update_remove h lockFile v componentName :
  readValue h lockFile = Some v ->
  (forall entry, exists h' lockFile' v',
     updateComponentEntry h lockFile componentName entry = Some (h', lockFile') /\
     readValue h' lockFile' = Some v' /\
     components v' !! componentName = Some entry /\
     version v' = version v /\ schema v' = schema v /\
     (forall other, other <> componentName ->
        components v' !! other = components v !! other) /\
     (forall l x, h !! l = Some x -> h' !! l = Some x) /\
     readValue h' lockFile = Some v) /\
  (exists h' lockFile' v',
     removeComponentEntry h lockFile componentName = Some (h', lockFile') /\
     readValue h' lockFile' = Some v' /\
     components v' !! componentName = None /\
     version v' = version v /\ schema v' = schema v /\
     (forall other, other <> componentName ->
        components v' !! other = components v !! other) /\
     (components v !! componentName = None -> components v' = components v) /\
     (forall l x, h !! l = Some x -> h' !! l = Some x) /\
     readValue h' lockFile = Some v).
Proof.
  intros Hv.
  destruct (readValue_inv _ _ _ Hv) as (c & H1 & H2).
  split.
  - intros entry.
    destruct (rebuild_spec h lockFile v
                (<[componentName := entry]> (components v)) Hv)
      as (Hread & Hframe & Hsame).
    eexists _, _, _. split.
    + rewrite (updateComponentEntry_unfold _ _ _ _ _ _ _ _ H1 H2).
      cbv zeta. apply f_equal, surjective_pairing.
    + simpl in *.
      split; [exact Hread|]. simpl.
      split; [apply lookup_insert_eq|].
      do 2 (split; [reflexivity|]).
      split; [intros other Hne; apply lookup_insert_ne; congruence|].
      split; assumption.
  - destruct (rebuild_spec h lockFile v
                (delete componentName (components v)) Hv)
      as (Hread & Hframe & Hsame).
    eexists _, _, _. split.
    + rewrite (removeComponentEntry_unfold _ _ _ _ _ _ _ H1 H2).
      cbv zeta. apply f_equal, surjective_pairing.
    + simpl in *.
      split; [exact Hread|]. simpl.
      split; [apply lookup_delete_eq|].
      do 2 (split; [reflexivity|]).
      split; [intros other Hne; apply lookup_delete_ne; congruence|].
      split; [apply delete_id|].
      split; assumption.
Qed.

Lemma lock_store_update_remove_witness :
  exists h' lockFile',
    updateComponentEntry sampleHeap 1%positive "card" (sampleEntry "2.0.0")
    = Some (h', lockFile') /\
    readValue h' 1%positive
    = Some (mkLockFile None "1.0" {[ "button" := sampleEntry "1.0.0" ]}).
Proof.
  destruct (lock_store_update_remove sampleHeap 1%positive
              (mkLockFile None "1.0" {[ "button" := sampleEntry "1.0.0" ]})
              "card" eq_refl) as [Hup _].
  destruct (Hup (sampleEntry "2.0.0"))
    as (h' & lf' & v' & Heq & _ & _ & _ & _ & _ & _ & Hsame).
  exists h', lf'. split; [exact Heq|exact Hsame].
Defined.

(** The two queries agree on whether the name is a property of the
    components object, own or inherited: [isComponentTracked] answers
    [true] exactly when [getComponentEntry] answers something other than
    [null]. *)
Lemma tracked_iff_not_null h lockFile v componentName :
  readValue h lockFile = Some v ->
  exists tracked result,
    isComponentTracked h lockFile componentName = Some tracked /\
    getComponentEntry h lockFile componentName = Some result /\
    (tracked = true <-> result <> Null).
Proof.
  intros Hv.
  destruct (readValue_inv _ _ _ Hv) as (c & H1 & H2).
  unfold isComponentTracked, getComponentEntry, getComponents.
  rewrite H1, H2. simpl.
  eexists _, _. split; [reflexivity|split; [reflexivity|]].
  unfold hasProperty, getProperty.
  destruct (components v !! componentName) as [e|]; simpl.
  - split; [discriminate|reflexivity].
  - destruct (bool_decide (componentName ∈ objectPrototypeKeys)); simpl.
    + split; [discriminate|reflexivity].
    + split; [discriminate|congruence].
Qed.

(** C10: on a new lock file, which has no component, [isComponentTracked]
    answers [true] for the name [constructor], and [getComponentEntry]
    returns for it the member inherited from [Object.prototype], which is
    neither a lock entry nor [null]. *)
Theorem tracked_without_entry :
  let '(h, lockFile) := readOrCreateLockFile ∅ None in
  readValue h lockFile = Some (mkLockFile None "1.0" ∅) /\
  isComponentTracked h lockFile "constructor" = Some true /\
  getComponentEntry h lockFile "constructor"
  = Some (Inherited "constructor") /\
  forall e, getComponentEntry h lockFile "constructor" <> Some (Entry e).
Proof.
  vm_compute. split; [reflexivity|]. split; [reflexivity|].
  split; [reflexivity|]. intros e. discriminate.
Qed.

End LockStoreFacts.

Module LineFacts.
Import MergeSpec.

Lemma append_nil_r s : s +:+ "" = s.
Proof.
  induction s as [|c s IH]; [reflexivity|].
  change (String c s +:+ "") with (String c (s +:+ "")).
  rewrite IH. reflexivity.
Qed.

Lemma append_assoc s1 s2 s3 : (s1 +:+ s2) +:+ s3 = s1 +:+ (s2 +:+ s3).
Proof.
  induction s1 as [|c s1 IH]; [reflexivity|].
  change (String c ((s1 +:+ s2) +:+ s3) = String c (s1 +:+ (s2 +:+ s3))).
  rewrite IH. reflexivity.
Qed.

Lemma splitAcc_nonempty s : forall cur, Js.splitAcc cur s <> [].
Proof.
  induction s as [|c s IH]; intros cur; simpl; [discriminate|].
  destruct (Ascii.eqb c Js.LF); [discriminate|apply IH].
Qed.

Lemma joinLines_cons l rest :
  rest <> [] -> Js.joinLines (l :: rest) = l +:+ String Js.LF (Js.joinLines rest).
Proof. destruct rest; [congruence|reflexivity]. Qed.

Lemma joinLines_splitAcc s : forall cur,
  Js.joinLines (Js.splitAcc cur s) = cur +:+ s.
Proof.
  induction s as [|c s IH]; intros cur; simpl.
  - symmetry. apply append_nil_r.
  - destruct (Ascii.eqb_spec c Js.LF) as [->|Hne].
    + rewrite joinLines_cons by apply splitAcc_nonempty.
      rewrite IH. reflexivity.
    + rewrite IH, append_assoc. reflexivity.
Qed.

(** Joining the lines of a text gives the text back. *)
Lemma joinLines_splitLines s : Js.joinLines (Js.splitLines s) = s.
Proof. unfold Js.splitLines. apply joinLines_splitAcc. Qed.

Lemma splitLines_nonempty s : Js.splitLines s <> [].
Proof. apply splitAcc_nonempty. Qed.

Section Count.
Variable pat : string.
Hypothesis pat_noLF : noLF pat = true.
Hypothesis pat_nonempty : pat <> "".

Lemma startsWith_line rest : forall p l,
  noLF p = true ->
  startsWith p (l +:+ String Js.LF rest) = startsWith p l.
Proof.
  unfold startsWith.
  induction p as [|a p IH]; intros l Hp; [reflexivity|].
  simpl in Hp. apply andb_true_iff in Hp as [Ha Hp].
  apply negb_true_iff in Ha.
  destruct l as [|c l]; simpl.
  - rewrite Ha. reflexivity.
  - destruct (Ascii.eqb a c); [apply IH; exact Hp|reflexivity].
Qed.

Lemma startsWith_length : forall p l,
  startsWith p l = true -> (String.length p <= String.length l)%nat.
Proof.
  unfold startsWith.
  induction p as [|a p IH]; intros l H; simpl; [lia|].
  destruct l as [|c l]; simpl in *; [discriminate|].
  destruct (Ascii.eqb a c); [|discriminate].
  apply IH in H. lia.
Qed.

Lemma countFrom_unfold c r :
  Js.countFrom pat 0 (String c r) =
  if startsWith pat (String c r)
  then S (Js.countFrom pat (String.length pat - 1) r)
  else Js.countFrom pat 0 r.
Proof.
  unfold startsWith. cbn [Js.countFrom].
  destruct (Js.stripPrefix pat (String c r)); reflexivity.
Qed.

Lemma startsWith_empty : startsWith pat "" = false.
Proof. destruct pat; [congruence|reflexivity]. Qed.

(** A match never extends over a line break. *)
Lemma countFrom_line rest : forall l skip,
  (skip <= String.length l)%nat ->
  Js.countFrom pat skip (l +:+ String Js.LF rest) =
  (Js.countFrom pat skip l + Js.countFrom pat 0 rest)%nat.
Proof.
  induction l as [|c l IH]; intros skip Hskip.
  - simpl in Hskip. replace skip with 0%nat by lia.
    change ("" +:+ String Js.LF rest) with (String Js.LF rest).
    rewrite countFrom_unfold.
    change (String Js.LF rest) with ("" +:+ String Js.LF rest) at 1.
    rewrite startsWith_line, startsWith_empty by exact pat_noLF.
    reflexivity.
  - destruct skip as [|k].
    + change (String c l +:+ String Js.LF rest)
        with (String c (l +:+ String Js.LF rest)).
      rewrite !countFrom_unfold.
      change (String c (l +:+ String Js.LF rest))
        with (String c l +:+ String Js.LF rest).
      rewrite startsWith_line by exact pat_noLF.
      destruct (startsWith pat (String c l)) eqn:E.
      * apply startsWith_length in E. simpl in E.
        rewrite IH by lia. reflexivity.
      * apply IH. lia.
    + simpl in *. apply IH. lia.
Qed.

Lemma countMatches_join lines :
  Js.countMatches pat (Js.joinLines lines) = totalMatches pat lines.
Proof.
  induction lines as [|l rest IH]; [reflexivity|].
  destruct rest as [|l2 rest].
  - simpl. unfold Js.countMatches. lia.
  - rewrite joinLines_cons by discriminate.
    unfold Js.countMatches in *. rewrite countFrom_line by lia.
    rewrite IH. reflexivity.
Qed.

Lemma includes_count s :
  Js.includes pat s = false -> forall skip, Js.countFrom pat skip s = 0%nat.
Proof.
  induction s as [|c s IH]; intros H skip; [reflexivity|].
  cbn [Js.includes] in H.
  destruct (Js.stripPrefix pat (String c s)) eqn:E; [discriminate|].
  cbn [Js.countFrom]. rewrite E.
  destruct skip; apply IH; exact H.
Qed.

Lemma totalMatches_app l1 l2 :
  totalMatches pat (l1 ++ l2) = (totalMatches pat l1 + totalMatches pat l2)%nat.
Proof.
  induction l1 as [|l l1 IH]; simpl; [reflexivity|].
  rewrite IH. lia.
Qed.

Lemma totalMatches_zero lines :
  totalMatches pat lines = 0%nat <->
  Forall (fun l => Js.countMatches pat l = 0%nat) lines.
Proof.
  induction lines as [|l lines IH]; simpl.
  - split; [constructor|reflexivity].
  - rewrite Forall_cons, <- IH. lia.
Qed.

(** The lines of a text without a match have no match. *)
Lemma lines_free s :
  Js.includes pat s = false ->
  Forall (fun l => Js.countMatches pat l = 0%nat) (Js.splitLines s).
Proof.
  intros H. apply totalMatches_zero.
  rewrite <- countMatches_join, joinLines_splitLines.
  apply includes_count. exact H.
Qed.

End Count.

End LineFacts.

(* ===================================================================== *)
(** ** Properties of the line merge *)
(* ===================================================================== *)

Module Diff3Facts.
Import Diff3 Diff3Spec.

#[local] Hint Unfold len : core.

Lemma len_app {A} (l k : list A) : len (l ++ k) = len l + len k.
Proof. unfold len. rewrite length_app. lia. Qed.

Lemma len_nonneg {A} (l : list A) : 0 <= len l.
Proof. unfold len. lia. Qed.

(** *** The examples documented with the library *)

Example LCS_documented :
  LCS ["AA"; "a"; "b"; "c"; "ZZ"; "new"; "00"; "a"; "a"; "M"; "99"]
      ["AA"; "a"; "d"; "c"; "ZZ"; "11"; "M"; "z"; "z"; "99"]
  = Candidate 10 9 (Candidate 9 6 (Candidate 4 4 (Candidate 3 3
      (Candidate 1 1 (Candidate 0 0 NULLRESULT))))).
Proof. vm_compute. reflexivity. Qed.

Example diffIndices_documented :
  diffIndices ["AA"; "a"; "b"; "c"; "ZZ"; "new"; "00"; "a"; "a"; "M"; "99"]
              ["AA"; "a"; "d"; "c"; "ZZ"; "11"; "M"; "z"; "z"; "99"]
  = [mkChunk (2, 1) ["b"] (2, 1) ["d"];
     mkChunk (5, 4) ["new"; "00"; "a"; "a"] (5, 1) ["11"];
     mkChunk (10, 0) [] (7, 2) ["z"; "z"]].
Proof. vm_compute. reflexivity. Qed.

Example diff3Merge_documented :
  diff3Merge ["AA"; "a"; "b"; "c"; "ZZ"; "new"; "00"; "a"; "a"; "M"; "99"]
             ["AA"; "ZZ"; "00"; "M"; "99"]
             ["AA"; "a"; "d"; "c"; "ZZ"; "11"; "M"; "z"; "z"; "99"]
  = [Ok ["AA"];
     Conflict ["a"; "b"; "c"] 1 [] 1 ["a"; "d"; "c"] 1;
     Ok ["ZZ"];
     Conflict ["new"; "00"; "a"; "a"] 5 ["00"] 2 ["11"] 5;
     Ok ["M"; "z"; "z"; "99"]].
Proof. vm_compute. reflexivity. Qed.

Example diff3Merge_false_conflict :
  diff3Merge ["AA"; "a"; "b"; "c"; "ZZ"] ["AA"; "ZZ"]
             ["AA"; "a"; "b"; "c"; "ZZ"]
  = [Ok ["AA"; "a"; "b"; "c"; "ZZ"]].
Proof. vm_compute. reflexivity. Qed.

(** *** The bound on the turns of the region loop is never reached *)

Lemma pullOverlapping_length hs : forall pe rh,
  (length (pullOverlapping hs pe rh).2 <= length hs)%nat.
Proof.
  induction hs as [|h hs IH]; intros pe rh; simpl; [lia|].
  destruct (oStart h >? pe); simpl; [lia|].
  specialize (IH (Z.max pe (oStart h + oLength h)) (rh ++ [h])). lia.
Qed.

Lemma regionLoop_turns a o b n : forall m hunks st,
  (length hunks <= n)%nat -> (length hunks <= m)%nat ->
  regionLoop a o b n hunks st = regionLoop a o b m hunks st.
Proof.
  induction n as [|n IH]; intros m hunks st Hn Hm.
  - destruct hunks; [|simpl in Hn; lia]. destruct m; reflexivity.
  - destruct hunks as [|hunk rest]; [destruct m; reflexivity|].
    destruct m as [|m]; [simpl in Hm; lia|].
    cbn [regionLoop]. cbv zeta.
    pose proof (pullOverlapping_length rest (oStart hunk + oLength hunk) [hunk])
      as Hlen.
    destruct (pullOverlapping rest _ _) as [[regionEnd regionHunks] rest'].
    simpl in Hn, Hm, Hlen. apply IH; lia.
Qed.

(** *** Slices *)

Lemma slice_split {A} (l : list A) s m e :
  0 <= s -> s <= m -> m <= e -> e <= len l ->
  Js.slice l s e = Js.slice l s m ++ Js.slice l m e.
Proof.
  unfold len. intros.
  rewrite !JsFacts.slice_inside by lia.
  replace (Z.to_nat (e - s)) with (Z.to_nat (m - s) + Z.to_nat (e - m))%nat by lia.
  rewrite <- take_take_drop. f_equal.
  rewrite drop_drop. do 2 f_equal. lia.
Qed.

Lemma slice_all {A} (l : list A) : Js.slice l 0 (len l) = l.
Proof.
  unfold len. rewrite JsFacts.slice_inside by lia.
  simpl. apply take_ge. lia.
Qed.

Lemma slice_nil {A} (l : list A) s : Js.slice l s s = [].
Proof.
  unfold Js.slice. rewrite Z.sub_diag. reflexivity.
Qed.

Lemma slice_single {A} (l : list A) i x :
  0 <= i -> l !! Z.to_nat i = Some x -> Js.slice l i (i + 1) = [x].
Proof.
  intros Hi Hx. pose proof (lookup_lt_Some _ _ _ Hx).
  rewrite JsFacts.slice_inside by lia.
  replace (Z.to_nat (i + 1 - i)) with 1%nat by lia.
  rewrite (drop_S _ _ _ Hx). reflexivity.
Qed.

Lemma slice_In {A} (l : list A) s e x : In x (Js.slice l s e) -> In x l.
Proof.
  unfold Js.slice. intros H.
  apply list_elem_of_In in H. apply list_elem_of_In.
  apply elem_of_take in H as (i & H & _).
  rewrite lookup_drop in H. eapply list_elem_of_lookup_2; eauto.
Qed.

(** *** The table of equivalence classes *)

Lemma buildClasses_lookup b2 : forall j m item,
  default [] (buildClasses b2 j m !! item) =
  default [] (m !! item) ++ positions item b2 j.
Proof.
  induction b2 as [|x rest IH]; intros j m item; simpl.
  - rewrite app_nil_r. reflexivity.
  - rewrite IH. destruct (String.eqb_spec x item) as [->|Hne].
    + destruct (m !! item) eqn:E; rewrite lookup_insert_eq; simpl;
        [rewrite <- app_assoc|]; reflexivity.
    + destruct (m !! x) eqn:E; rewrite lookup_insert_ne by assumption;
        reflexivity.
Qed.

Lemma positions_spec item l : forall j0 j,
  In j (positions item l j0) ->
  j0 <= j < j0 + len l /\ l !! Z.to_nat (j - j0) = Some item.
Proof.
  unfold len.
  induction l as [|x rest IH]; intros j0 j H; simpl in *; [tauto|].
  destruct (String.eqb_spec x item) as [->|Hne].
  - destruct H as [<-|H].
    + rewrite Z.sub_diag. simpl. split; [lia|reflexivity].
    + destruct (IH _ _ H) as [Hr Hl]. split; [lia|].
      replace (Z.to_nat (j - j0)) with (S (Z.to_nat (j - (j0 + 1)))) by lia.
      exact Hl.
  - destruct (IH _ _ H) as [Hr Hl]. split; [lia|].
    replace (Z.to_nat (j - j0)) with (S (Z.to_nat (j - (j0 + 1)))) by lia.
    exact Hl.
Qed.

Lemma positions_split item l : forall j0 k,
  l !! k = Some item ->
  exists js1 js2,
    positions item l j0 = js1 ++ (j0 + Z.of_nat k) :: js2 /\
    Forall (fun j => j < j0 + Z.of_nat k) js1.
Proof.
  induction l as [|x rest IH]; intros j0 k Hk; [discriminate|].
  destruct k as [|k]; simpl in *.
  - injection Hk as ->. rewrite String.eqb_refl.
    exists [], (positions item rest (j0 + 1)). split; [|constructor].
    simpl. do 2 f_equal. lia.
  - destruct (IH (j0 + 1) k Hk) as (js1 & js2 & Heq & Hlt).
    replace (j0 + 1 + Z.of_nat k) with (j0 + Z.pos (Pos.of_succ_nat k)) in * by lia.
    destruct (String.eqb x item).
    + exists (j0 :: js1), js2. rewrite Heq. split; [reflexivity|].
      constructor; [lia|assumption].
    + exists js1, js2. auto.
Qed.

(** *** The candidate array *)

Lemma at_lookup cands s d :
  cands !! Z.to_nat s = Some d -> at_ cands s = d.
Proof. apply nth_lookup_Some. Qed.

Lemma setAt_len cands r c :
  0 <= r <= len cands ->
  len (setAt cands r c) = if r <? len cands then len cands else len cands + 1.
Proof.
  intros Hr. unfold setAt.
  destruct (Z.ltb_spec r (len cands)).
  - unfold len. rewrite length_insert. reflexivity.
  - rewrite len_app. reflexivity.
Qed.

Lemma setAt_lookup cands r c k d :
  setAt cands r c !! k = Some d -> d = c \/ (cands !! k = Some d /\ k <> Z.to_nat r).
Proof.
  unfold setAt. destruct (Z.ltb_spec r (len cands)) as [Hlt|Hge]; intros H.
  - destruct (decide (k = Z.to_nat r)) as [->|Hne].
    + apply list_lookup_insert_Some in H as [(_ & -> & _)|[? _]]; [auto|congruence].
    + rewrite list_lookup_insert_ne in H by congruence. auto.
  - apply lookup_app_Some in H as [H|[Hk H]].
    + right. split; [exact H|]. apply lookup_lt_Some in H. unfold len in *. lia.
    + left. apply list_lookup_singleton_Some in H as [_ ->]. reflexivity.
Qed.

Lemma setAt_lookup_ne cands r c k :
  r < len cands -> k <> Z.to_nat r -> setAt cands r c !! k = cands !! k.
Proof.
  intros Hr Hk. unfold setAt.
  destruct (Z.ltb_spec r (len cands)); [|lia].
  apply list_lookup_insert_ne. congruence.
Qed.

Lemma push_or_set cands r c :
  (if r =? len cands then cands ++ [c] else setAt cands r c) = setAt cands r c.
Proof.
  destruct (Z.eqb_spec r (len cands)) as [->|]; [|reflexivity].
  unfold setAt. rewrite Z.ltb_irrefl. reflexivity.
Qed.

Lemma search_spec cs j : forall s0,
  s0 <= search cs j s0 <= s0 + len cs /\
  (search cs j s0 < s0 + len cs ->
   exists d, cs !! Z.to_nat (search cs j s0 - s0) = Some d /\
             buffer2index d < j).
Proof.
  unfold len.
  induction cs as [|c rest IH]; intros s0; simpl.
  - split; lia.
  - destruct (buffer2index c <? j) eqn:E1; simpl.
    + destruct (match rest with [] => true | next :: _ => buffer2index next >? j end).
      * split; [lia|]. intros _. exists c. rewrite Z.sub_diag.
        split; [reflexivity|]. apply Z.ltb_lt. exact E1.
      * destruct (IH (s0 + 1)) as [Hr Hf]. split; [lia|].
        intros Hlt. destruct Hf as (d & Hd & Hj); [lia|].
        exists d. split; [|exact Hj].
        replace (Z.to_nat (search rest j (s0 + 1) - s0))
          with (S (Z.to_nat (search rest j (s0 + 1) - (s0 + 1)))) by lia.
        exact Hd.
    + destruct (IH (s0 + 1)) as [Hr Hf]. split; [lia|].
      intros Hlt. destruct Hf as (d & Hd & Hj); [lia|].
      exists d. split; [|exact Hj].
      replace (Z.to_nat (search rest j (s0 + 1) - s0))
        with (S (Z.to_nat (search rest j (s0 + 1) - (s0 + 1)))) by lia.
      exact Hd.
Qed.

Lemma findS_spec cands j r :
  0 <= r <= len cands ->
  r <= findS cands j r <= len cands /\
  (findS cands j r < len cands ->
   exists d, cands !! Z.to_nat (findS cands j r) = Some d /\
             buffer2index d < j).
Proof.
  intros Hr. unfold findS.
  destruct (search_spec (drop (Z.to_nat r) cands) j r) as [Hb Hf].
  assert (Hlen : len (drop (Z.to_nat r) cands) = len cands - r)
    by (unfold len in *; rewrite length_drop; lia).
  rewrite Hlen in *.
  split; [lia|]. intros Hlt.
  destruct Hf as (d & Hd & Hj); [lia|].
  exists d. split; [|exact Hj].
  rewrite lookup_drop in Hd. rewrite <- Hd. f_equal. lia.
Qed.

(** *** Every chain built by [LCS] is a chain of matches *)

Section Valid.
Variables b1 b2 : list string.

Lemma valid_weaken c t1 t2 t1' t2' :
  validChain b1 b2 c t1 t2 -> t1 <= t1' -> t2 <= t2' ->
  validChain b1 b2 c t1' t2'.
Proof.
  intros H. revert t1' t2'. induction H; intros t1' t2' Hle1 Hle2.
  - apply validNull; lia.
  - eapply validCons; eauto; lia.
Qed.

Lemma valid_below c t1 t2 j :
  validChain b1 b2 c t1 t2 -> buffer2index c < j ->
  validChain b1 b2 c t1 j.
Proof.
  intros H Hj. destruct H; simpl in Hj.
  - apply validNull; lia.
  - eapply validCons; eauto; lia.
Qed.

Lemma valid_nonneg c t1 t2 : validChain b1 b2 c t1 t2 -> 0 <= t1 /\ 0 <= t2.
Proof. intros H. destruct H; lia. Qed.

Lemma matchItem_valid i x :
  0 <= i -> b1 !! Z.to_nat i = Some x ->
  forall js r c cands,
    Forall (fun j => 0 <= j < len b2 /\ b2 !! Z.to_nat j = Some x) js ->
    0 <= r < len cands ->
    validChain b1 b2 c (i + 1) (len b2) ->
    (forall k d, cands !! k = Some d -> validChain b1 b2 d (i + 1) (len b2)) ->
    (forall k d, cands !! k = Some d -> r <= Z.of_nat k ->
                 validChain b1 b2 d i (len b2)) ->
    let res := matchItem i js r c cands in
    0 <= res.1.1 <= len res.2 /\
    validChain b1 b2 res.1.2 (i + 1) (len b2) /\
    (forall k d, res.2 !! k = Some d -> validChain b1 b2 d (i + 1) (len b2)).
Proof.
  intros Hi Hx js.
  induction js as [|j rest IH]; intros r c cands Hjs Hr Hc Hall Hold.
  - simpl. split; [lia|auto].
  - cbn [matchItem]. cbv zeta.
    apply Forall_cons in Hjs as [[Hj Hjx] Hrest].
    destruct (findS_spec cands j r ltac:(lia)) as [Hs Hfound].
    destruct (Z.ltb_spec (findS cands j r) (len cands)) as [Hlt|Hge].
    + destruct (Hfound Hlt) as (d & Hd & Hdj).
      rewrite (at_lookup _ _ _ Hd). rewrite push_or_set.
      assert (Hlen' : len (setAt cands r c) = len cands).
      { rewrite setAt_len by lia. destruct (Z.ltb_spec r (len cands)); lia. }
      assert (Hnew : validChain b1 b2 (Candidate i j d) (i + 1) (len b2)).
      { eapply validCons; eauto; [lia|].
        eapply valid_below; [|exact Hdj].
        eapply (Hold _ _ Hd). lia. }
      assert (Hall' : forall k e, setAt cands r c !! k = Some e ->
                                  validChain b1 b2 e (i + 1) (len b2)).
      { intros k e He. apply setAt_lookup in He as [->|[He _]]; eauto. }
      destruct (Z.eqb_spec (findS cands j r + 1) (len (setAt cands r c))) as [Heq|Hne].
      * simpl. split; [lia|auto].
      * apply IH; auto; [lia|].
        intros k e He Hk. rewrite setAt_lookup_ne in He by lia.
        eapply Hold; [exact He|lia].
    + apply IH; auto.
Qed.

Lemma scan_valid classes :
  (forall item j, In j (default [] (classes !! item)) ->
                  0 <= j < len b2 /\ b2 !! Z.to_nat j = Some item) ->
  forall rest pre cands,
    b1 = pre ++ rest ->
    0 < len cands ->
    (forall k d, cands !! k = Some d -> validChain b1 b2 d (len pre) (len b2)) ->
    let cands' := scan rest (len pre) classes cands in
    0 < len cands' /\
    (forall k d, cands' !! k = Some d -> validChain b1 b2 d (len b1) (len b2)).
Proof.
  intros Hclasses rest.
  induction rest as [|item rest IH]; intros pre cands Hb1 Hne Hall.
  - simpl. rewrite app_nil_r in Hb1. subst pre. auto.
  - cbn [scan]. cbv zeta.
    assert (Hitem : b1 !! Z.to_nat (len pre) = Some item).
    { subst b1. unfold len. rewrite Nat2Z.id. apply list_lookup_middle. reflexivity. }
    destruct (cands !! 0%nat) as [c0|] eqn:E0;
      [|apply lookup_ge_None in E0; unfold len in Hne; lia].
    pose proof (matchItem_valid (len pre) item (len_nonneg _) Hitem
                  (default [] (classes !! item)) 0 (at_ cands 0) cands) as Hm.
    destruct (matchItem (len pre) (default [] (classes !! item)) 0
                (at_ cands 0) cands) as [[r c] cands1].
    simpl in Hm.
    destruct Hm as (Hr & Hc & Hall1).
    + apply Forall_forall. intros j Hj. apply Hclasses.
      apply list_elem_of_In. exact Hj.
    + lia.
    + rewrite (at_lookup cands 0 c0 E0).
      eapply valid_weaken; [eapply Hall; eauto|lia|lia].
    + intros k d Hd. eapply valid_weaken; [eapply Hall; eauto|lia|lia].
    + intros k d Hd _. eapply Hall; eauto.
    + replace (len pre + 1) with (len (pre ++ [item])) in *
        by (rewrite len_app; reflexivity).
      apply IH.
      * rewrite <- app_assoc. exact Hb1.
      * rewrite setAt_len by lia. pose proof (len_nonneg cands1).
        destruct (Z.ltb_spec r (len cands1)); lia.
      * intros k d Hd. apply setAt_lookup in Hd as [->|[Hd _]]; eauto.
Qed.

Lemma classes_sound item j :
  In j (default [] (buildClasses b2 0 ∅ !! item)) ->
  0 <= j < len b2 /\ b2 !! Z.to_nat j = Some item.
Proof.
  rewrite buildClasses_lookup, lookup_empty. simpl.
  intros H. apply positions_spec in H as [Hr Hl].
  rewrite Z.sub_0_r in Hl. split; [lia|exact Hl].
Qed.

Lemma LCS_valid : validChain b1 b2 (LCS b1 b2) (len b1) (len b2).
Proof.
  unfold LCS.
  destruct (scan_valid (buildClasses b2 0 ∅) classes_sound b1 [] [NULLRESULT])
    as [Hne Hall].
  - reflexivity.
  - reflexivity.
  - intros k d Hd. apply list_lookup_singleton_Some in Hd as [_ <-].
    apply validNull; [reflexivity|apply len_nonneg].
  - change (len []) with 0 in *. cbv zeta in *.
    set (cands := scan b1 0 _ _) in *.
    destruct (cands !! Z.to_nat (len cands - 1)) as [d|] eqn:E.
    + rewrite (at_lookup _ _ _ E). eauto.
    + apply lookup_ge_None in E. unfold len in *. lia.
Qed.

End Valid.


(** *** The LCS of a buffer with itself pairs every position with itself *)

Lemma buffer2index_idChain n : buffer2index (idChain n) = Z.of_nat n - 1.
Proof. destruct n; simpl; lia. Qed.

Lemma idList_length n : length (idList n) = S n.
Proof. unfold idList. rewrite length_map, length_seq. reflexivity. Qed.

Lemma idList_len n : len (idList n) = Z.of_nat n + 1.
Proof. unfold len. rewrite idList_length. lia. Qed.

Lemma idList_lookup n k : (k <= n)%nat -> idList n !! k = Some (idChain k).
Proof.
  intros Hk. unfold idList. rewrite list_lookup_fmap.
  rewrite lookup_seq_lt by lia. reflexivity.
Qed.

Lemma idList_S n : idList (S n) = idList n ++ [idChain (S n)].
Proof.
  unfold idList. rewrite (seq_S (S n)), map_app. reflexivity.
Qed.

Lemma search_id_miss m : forall k j,
  j < Z.of_nat k + Z.of_nat m - 1 ->
  search (map idChain (seq k m)) j (Z.of_nat k) = Z.of_nat k + Z.of_nat m.
Proof.
  induction m as [|m IH]; intros k j Hj; [simpl; lia|].
  cbn [seq map search]. rewrite buffer2index_idChain.
  destruct m as [|m].
  - simpl. destruct (Z.ltb_spec (Z.of_nat k - 1) j); simpl; lia.
  - cbn [seq map]. rewrite buffer2index_idChain.
    replace ((Z.of_nat k - 1 <? j) && (Z.of_nat (S k) - 1 >? j)) with false.
    2:{ rewrite Z.gtb_ltb.
        destruct (Z.ltb_spec (Z.of_nat k - 1) j);
        destruct (Z.ltb_spec j (Z.of_nat (S k) - 1)); simpl; try reflexivity.
        lia. }
    replace (Z.of_nat k + 1) with (Z.of_nat (S k)) by lia.
    change (idChain (S k) :: map idChain (seq (S (S k)) m))
      with (map idChain (seq (S k) (S m))).
    rewrite IH by lia. lia.
Qed.


Lemma search_cons2 c next rest j s :
  search (c :: next :: rest) j s =
  if (buffer2index c <? j) && (buffer2index next >? j) then s
  else search (next :: rest) j (s + 1).
Proof. reflexivity. Qed.

Lemma search_id_hit m : forall k,
  search (map idChain (seq k (S m))) (Z.of_nat k + Z.of_nat m) (Z.of_nat k)
  = Z.of_nat k + Z.of_nat m.
Proof.
  induction m as [|m IH]; intros k.
  - cbn [seq map search]. rewrite buffer2index_idChain.
    destruct (Z.ltb_spec (Z.of_nat k - 1) (Z.of_nat k + Z.of_nat 0)); simpl; lia.
  - change (seq k (S (S m))) with (k :: S k :: seq (S (S k)) m).
    cbn [map]. rewrite search_cons2, !buffer2index_idChain.
    replace (Z.of_nat (S k) - 1 >? Z.of_nat k + Z.of_nat (S m)) with false
      by (rewrite Z.gtb_ltb; symmetry; apply Z.ltb_ge; lia).
    rewrite andb_false_r.
    replace (Z.of_nat k + 1) with (Z.of_nat (S k)) by lia.
    change (idChain (S k) :: map idChain (seq (S (S k)) m))
      with (map idChain (seq (S k) (S m))).
    replace (Z.of_nat k + Z.of_nat (S m)) with (Z.of_nat (S k) + Z.of_nat m) by lia.
    apply IH.
Qed.

Lemma findS_id_miss n j :
  j < Z.of_nat n -> findS (idList n) j 0 = len (idList n).
Proof.
  intros Hj. unfold findS.
  change (drop (Z.to_nat 0) (idList n)) with (map idChain (seq 0 (S n))).
  pose proof (search_id_miss (S n) 0 j) as H.
  change (Z.of_nat 0) with 0 in H.
  rewrite H, idList_len by lia. lia.
Qed.

Lemma findS_id_hit n : findS (idList n) (Z.of_nat n) 0 = Z.of_nat n.
Proof.
  unfold findS.
  change (drop (Z.to_nat 0) (idList n)) with (map idChain (seq 0 (S n))).
  pose proof (search_id_hit n 0) as H.
  change (Z.of_nat 0) with 0 in H. rewrite Z.add_0_l in H. exact H.
Qed.

Lemma matchItem_id n js1 js2 :
  Forall (fun j => j < Z.of_nat n) js1 ->
  matchItem (Z.of_nat n) (js1 ++ Z.of_nat n :: js2) 0 (idChain 0) (idList n)
  = (Z.of_nat n + 1, idChain (S n), idList n).
Proof.
  induction js1 as [|j js1 IH]; intros Hlt.
  - cbn [app matchItem]. cbv zeta.
    rewrite findS_id_hit, push_or_set.
    assert (Hset : setAt (idList n) 0 (idChain 0) = idList n).
    { unfold setAt. rewrite idList_len.
      destruct (Z.ltb_spec 0 (Z.of_nat n + 1)); [|lia].
      apply list_insert_id. apply idList_lookup. lia. }
    rewrite Hset, idList_len.
    destruct (Z.ltb_spec (Z.of_nat n) (Z.of_nat n + 1)); [|lia].
    rewrite Z.eqb_refl.
    rewrite (at_lookup (idList n) (Z.of_nat n) (idChain n))
      by (rewrite Nat2Z.id; apply idList_lookup; lia).
    reflexivity.
  - apply Forall_cons in Hlt as [Hj Hlt].
    cbn [app matchItem]. cbv zeta.
    rewrite findS_id_miss by exact Hj.
    rewrite Z.ltb_irrefl. apply IH. exact Hlt.
Qed.

Lemma scan_same o : forall rest pre,
  o = pre ++ rest ->
  scan rest (len pre) (buildClasses o 0 ∅) (idList (length pre))
  = idList (length o).
Proof.
  induction rest as [|item rest IH]; intros pre Ho.
  - rewrite app_nil_r in Ho. subst pre. reflexivity.
  - cbn [scan]. cbv zeta.
    assert (Hitem : o !! length pre = Some item).
    { subst o. apply list_lookup_middle. reflexivity. }
    rewrite buildClasses_lookup, lookup_empty. cbn [default app].
    destruct (positions_split item o 0 _ Hitem) as (js1 & js2 & -> & Hlt).
    rewrite Z.add_0_l in *.
    rewrite (at_lookup (idList (length pre)) 0 (idChain 0))
      by (apply idList_lookup; lia).
    unfold len at 1. rewrite matchItem_id by exact Hlt.
    assert (Hset : setAt (idList (length pre)) (Z.of_nat (length pre) + 1)
                     (idChain (S (length pre))) = idList (S (length pre))).
    { unfold setAt. rewrite idList_len, Z.ltb_irrefl.
      symmetry. apply idList_S. }
    rewrite Hset.
    replace (len pre + 1) with (len (pre ++ [item]))
      by (rewrite len_app; reflexivity).
    replace (S (length pre)) with (length (pre ++ [item]))
      by (rewrite length_app; simpl; lia).
    apply IH. rewrite <- app_assoc. exact Ho.
Qed.

Lemma LCS_same o : LCS o o = idChain (length o).
Proof.
  unfold LCS.
  rewrite (scan_same o o [] eq_refl : scan o 0 _ [NULLRESULT] = _).
  rewrite idList_len.
  apply at_lookup.
  replace (Z.to_nat (Z.of_nat (length o) + 1 - 1)) with (length o) by lia.
  apply idList_lookup. lia.
Qed.

Lemma walkChain_id b1 b2 n result :
  walkChain b1 b2 (idChain n) (Z.of_nat n) (Z.of_nat n) result = result.
Proof.
  induction n as [|n IH].
  - reflexivity.
  - cbn [idChain walkChain]. cbv zeta.
    replace (Z.of_nat (S n) - Z.of_nat n - 1 =? 0) with true
      by (symmetry; apply Z.eqb_eq; lia).
    exact IH.
Qed.

Lemma diffIndices_same o : diffIndices o o = [].
Proof.
  unfold diffIndices. rewrite LCS_same. unfold len.
  rewrite walkChain_id. reflexivity.
Qed.


(** *** [diffIndices] yields an edit script *)

Lemma walkChain_fwd b1 b2 c : forall t1 t2 result,
  walkChain b1 b2 c t1 t2 result = result ++ rev (chunksFwd b1 b2 c t1 t2).
Proof.
  induction c as [|i j chain IH]; intros t1 t2 result.
  - simpl. rewrite app_nil_r. reflexivity.
  - cbn [walkChain chunksFwd]. cbv zeta. rewrite IH, rev_app_distr.
    destruct (negb (t1 - i - 1 =? 0) || negb (t2 - j - 1 =? 0)).
    + simpl. rewrite <- app_assoc. reflexivity.
    + reflexivity.
Qed.

Lemma diffIndices_fwd b1 b2 :
  diffIndices b1 b2 = chunksFwd b1 b2 (LCS b1 b2) (len b1) (len b2).
Proof.
  unfold diffIndices. rewrite walkChain_fwd. simpl. apply rev_involutive.
Qed.

Section Script.
Variables o x : list string.

Lemma script_le hs : forall g po px t1 t2,
  0 <= g -> script o x g po px hs t1 t2 -> po <= t1 /\ px <= t2.
Proof.
  induction hs as [|h hs IH]; intros g po px t1 t2 Hg H; simpl in H.
  - lia.
  - destruct H as (H1 & H2 & _ & H4 & H5 & H6).
    apply IH in H6; lia.
Qed.

(** One more agreeing pair of items past the end of the script. *)
Lemma script_grow i j v :
  o !! Z.to_nat i = Some v -> x !! Z.to_nat j = Some v -> 0 <= i -> 0 <= j ->
  forall po px,
    0 <= po -> 0 <= px ->
    po <= i -> i - po = j - px -> Js.slice o po i = Js.slice x px j ->
    Js.slice o po (i + 1) = Js.slice x px (j + 1).
Proof.
  intros Ho Hx Hi Hj po px Hpo Hpx Hle Hd Hs.
  pose proof (lookup_lt_Some _ _ _ Ho). pose proof (lookup_lt_Some _ _ _ Hx).
  rewrite (slice_split o po i (i + 1)) by (unfold len; lia).
  rewrite (slice_split x px j (j + 1)) by (unfold len; lia).
  rewrite Hs, (slice_single o i v), (slice_single x j v) by assumption.
  reflexivity.
Qed.

Lemma script_extend i j v :
  o !! Z.to_nat i = Some v -> x !! Z.to_nat j = Some v -> 0 <= i -> 0 <= j ->
  forall hs g po px,
    0 <= g -> 0 <= po -> 0 <= px ->
    script o x g po px hs i j -> script o x g po px hs (i + 1) (j + 1).
Proof.
  intros Ho Hx Hi Hj hs.
  induction hs as [|h hs IH]; intros g po px Hg Hpo Hpx H; simpl in *.
  - destruct H as (H1 & H2 & H3).
    split; [lia|]. split; [lia|]. eapply script_grow; eauto.
  - destruct H as (H1 & H2 & H3 & H4 & H5 & H6).
    repeat (split; [assumption|]).
    apply IH; [lia|lia|lia|assumption].
Qed.

Lemma script_snoc s i j v t1 t2 :
  o !! Z.to_nat i = Some v -> x !! Z.to_nat j = Some v -> 0 <= i -> 0 <= j ->
  i < t1 -> j < t2 ->
  forall hs g po px,
    0 <= g <= 1 -> 0 <= po -> 0 <= px ->
    script o x g po px hs i j ->
    script o x g po px
      (hs ++ [mkHunk s (i + 1) (t1 - i - 1) (j + 1) (t2 - j - 1)]) t1 t2.
Proof.
  intros Ho Hx Hi Hj Ht1 Ht2 hs.
  induction hs as [|h hs IH]; intros g po px Hg Hpo Hpx H; simpl in *.
  - destruct H as (H1 & H2 & H3).
    split; [lia|]. split; [lia|].
    split; [eapply script_grow; eauto|].
    split; [lia|]. split; [lia|].
    replace (i + 1 + (t1 - i - 1)) with t1 by lia.
    replace (j + 1 + (t2 - j - 1)) with t2 by lia.
    rewrite !slice_nil. split; [lia|]. split; [lia|reflexivity].
  - destruct H as (H1 & H2 & H3 & H4 & H5 & H6).
    repeat (split; [assumption|]).
    apply IH; [lia|lia|lia|assumption].
Qed.

Lemma chunks_script s c t1 t2 :
  validChain o x c t1 t2 ->
  script o x 0 0 0 (map (addHunk s) (chunksFwd o x c t1 t2)) t1 t2.
Proof.
  induction 1 as [t1 t2 H1 H2|i j c t1 t2 v Hi Hj Ho Hx Hc IH].
  - unfold NULLRESULT. cbn [chunksFwd app].
    replace (t1 - -1 - 1) with t1 by lia.
    replace (t2 - -1 - 1) with t2 by lia.
    destruct (negb (t1 =? 0) || negb (t2 =? 0)) eqn:E.
    + simpl. rewrite !slice_nil. repeat split; lia.
    + apply orb_false_iff in E as [E1 E2].
      apply negb_false_iff, Z.eqb_eq in E1, E2. subst.
      simpl. rewrite !slice_nil. repeat split; lia.
  - cbn [chunksFwd]. rewrite map_app.
    destruct (negb (t1 - i - 1 =? 0) || negb (t2 - j - 1 =? 0)) eqn:E.
    + apply (script_snoc s i j v t1 t2); auto; lia.
    + apply orb_false_iff in E as [E1 E2].
      apply negb_false_iff, Z.eqb_eq in E1, E2.
      replace t1 with (i + 1) by lia. replace t2 with (j + 1) by lia.
      simpl map. rewrite app_nil_r.
      apply (script_extend i j v); auto; lia.
Qed.

Lemma diffIndices_script s :
  script o x 0 0 0 (map (addHunk s) (diffIndices o x)) (len o) (len x).
Proof.
  rewrite diffIndices_fwd. apply chunks_script. apply LCS_valid.
Qed.

End Script.


(** *** Sorting the hunks *)

Lemma script_side o x s s' cs : forall g po px t1 t2,
  script o x g po px (map (addHunk s) cs) t1 t2 ->
  script o x g po px (map (addHunk s') cs) t1 t2.
Proof.
  induction cs as [|c cs IH]; intros g po px t1 t2 H; simpl in *; [exact H|].
  destruct H as (H1 & H2 & H3 & H4 & H5 & H6).
  repeat (split; [assumption|]). apply IH. exact H6.
Qed.

Lemma script_head o x g po px h hs t1 t2 :
  script o x g po px (h :: hs) t1 t2 -> po + g <= oStart h.
Proof. simpl. tauto. Qed.

Lemma insertHunk_head o x h hs px t1 t2 :
  0 <= oLength h ->
  script o x 1 (oStart h + oLength h) px hs t1 t2 ->
  insertHunk h hs = h :: hs.
Proof.
  intros Hl H. destruct hs as [|h' hs]; [reflexivity|].
  apply script_head in H. simpl.
  destruct (Z.leb_spec (oStart h) (oStart h')); [reflexivity|lia].
Qed.

Lemma sortHunks_sorted o x hs : forall g po px t1 t2,
  script o x g po px hs t1 t2 -> sortHunks hs = hs.
Proof.
  induction hs as [|h hs IH]; intros g po px t1 t2 H; [reflexivity|].
  simpl in H. destruct H as (H1 & H2 & H3 & H4 & H5 & H6).
  unfold sortHunks in *. cbn [foldr]. rewrite (IH _ _ _ _ _ H6).
  eapply insertHunk_head; eauto.
Qed.

Lemma insertHunk_pass h l1 l2 :
  Forall (fun y => oStart y < oStart h) l1 ->
  insertHunk h (l1 ++ l2) = l1 ++ insertHunk h l2.
Proof.
  induction 1 as [|y l1 Hy _ IH]; [reflexivity|].
  simpl. destruct (Z.leb_spec (oStart h) (oStart y)); [lia|].
  rewrite IH. reflexivity.
Qed.

Lemma script_before o x s c cs2 : forall cs1 g po px t1 t2,
  0 <= g ->
  script o x g po px (map (addHunk s) (cs1 ++ c :: cs2)) t1 t2 ->
  Forall (fun y => oStart y < oStart (addHunk s c)) (map (addHunk s) cs1).
Proof.
  induction cs1 as [|c1 cs1 IH]; intros g po px t1 t2 Hg H; [constructor|].
  simpl in H. destruct H as (H1 & H2 & H3 & H4 & H5 & H6).
  pose proof (IH 1 _ _ _ _ ltac:(lia) H6) as Hrest.
  constructor; [|exact Hrest].
  destruct cs1 as [|c2 cs1].
  - apply script_head in H6. simpl in *. lia.
  - apply Forall_cons in Hrest as [Hc2 _].
    apply script_head in H6. simpl in *. lia.
Qed.

Lemma sort_pairs o x cs2 : forall cs1 g po px t1 t2,
  0 <= g ->
  script o x g po px (map (addHunk SideA) (cs1 ++ cs2)) t1 t2 ->
  foldr insertHunk (map (addHunk SideB) (cs1 ++ cs2)) (map (addHunk SideA) cs2)
  = map (addHunk SideB) cs1 ++ pairUp cs2.
Proof.
  induction cs2 as [|c cs2 IH]; intros cs1 g po px t1 t2 Hg H.
  - simpl. rewrite !app_nil_r. reflexivity.
  - cbn [map foldr].
    replace (cs1 ++ c :: cs2) with ((cs1 ++ [c]) ++ cs2) in *
      by (rewrite <- app_assoc; reflexivity).
    rewrite (IH _ _ _ _ _ _ Hg H).
    rewrite map_app, <- app_assoc.
    rewrite <- app_assoc in H.
    rewrite insertHunk_pass.
    + cbn [map app pairUp flat_map insertHunk].
      rewrite Z.leb_refl. reflexivity.
    + apply (script_before o x SideB c cs2 cs1 g po px t1 t2 Hg).
      eapply script_side. exact H.
Qed.

Lemma sortHunks_pairs o x cs g po px t1 t2 :
  0 <= g ->
  script o x g po px (map (addHunk SideA) cs) t1 t2 ->
  sortHunks (map (addHunk SideA) cs ++ map (addHunk SideB) cs) = pairUp cs.
Proof.
  intros Hg H. unfold sortHunks. rewrite foldr_app.
  change (foldr insertHunk [] (map (addHunk SideB) cs))
    with (sortHunks (map (addHunk SideB) cs)).
  rewrite (sortHunks_sorted o x _ g po px t1 t2)
    by (eapply script_side; exact H).
  apply (sort_pairs o x cs [] g po px t1 t2 Hg H).
Qed.


(** *** The region loop on an edit script *)

Section Loop.
Variables a o b : list string.

Lemma finishes_end x g po px results :
  script o x g po px [] (len o) (len x) ->
  finishes o (po, results) results (Js.slice x px (len x)).
Proof.
  intros (H1 & H2 & H3). unfold finishes, advanceTo.
  destruct (Z.gtb_spec (len o) po) as [Hgt|Hle].
  - eexists [_]. split; [reflexivity|]. split; [repeat constructor|].
    simpl. rewrite app_nil_r. exact H3.
  - exists []. split; [simpl; rewrite app_nil_r; reflexivity|].
    split; [constructor|].
    replace px with (len x) by lia. rewrite slice_nil. reflexivity.
Qed.

Lemma finishes_more st results R1 lines1 lines2 :
  Forall regionClean R1 -> concat (map regionLines R1) = lines1 ->
  finishes o st (results ++ R1) lines2 ->
  finishes o st results (lines1 ++ lines2).
Proof.
  intros Hc Hl (R & HR & HcR & HlR).
  exists (R1 ++ R). split; [rewrite HR, app_assoc; reflexivity|].
  split; [apply Forall_app; auto|].
  rewrite map_app, concat_app, Hl, HlR. reflexivity.
Qed.

Lemma advanceTo_spec po target results :
  po <= target ->
  exists R,
    advanceTo o target (po, results) = (target, results ++ R) /\
    Forall regionClean R /\
    concat (map regionLines R) = Js.slice o po target.
Proof.
  intros Hle. unfold advanceTo.
  destruct (Z.gtb_spec target po) as [Hgt|Hle'].
  - eexists [_]. split; [reflexivity|]. split; [repeat constructor|].
    simpl. apply app_nil_r.
  - exists []. replace target with po by lia.
    rewrite app_nil_r, slice_nil. repeat split. constructor.
Qed.

Lemma pull_stop hs pe rh :
  match hs with [] => True | h' :: _ => pe < oStart h' end ->
  pullOverlapping hs pe rh = (pe, rh, hs).
Proof.
  destruct hs as [|h' hs]; [reflexivity|]. intros H. simpl.
  destruct (Z.gtb_spec (oStart h') pe); [reflexivity|lia].
Qed.

Lemma script_next x po px hs t1 t2 :
  script o x 1 po px hs t1 t2 ->
  match hs with [] => True | h' :: _ => po < oStart h' end.
Proof. destruct hs; [trivial|]. intros H. apply script_head in H. lia. Qed.

Lemma regionLoop_nil turns st : regionLoop a o b turns [] st = st.
Proof. destruct turns; reflexivity. Qed.

(** Hunks of side B only, none of them touching the next: the regions
    rebuild [b]. *)
Lemma regionLoop_single hs : forall turns g po px results,
  0 <= g -> 0 <= po -> 0 <= px ->
  script o b g po px hs (len o) (len b) ->
  Forall (fun h => ab h = SideB) hs ->
  (length hs <= turns)%nat ->
  finishes o (regionLoop a o b turns hs (po, results)) results
           (Js.slice b px (len b)).
Proof.
  induction hs as [|h hs IH]; intros turns g po px results Hg Hpo Hpx H Hside Hturns.
  - rewrite regionLoop_nil. eapply finishes_end; eauto.
  - destruct turns as [|turns]; [simpl in Hturns; lia|].
    apply Forall_cons in Hside as [Hb Hside].
    pose proof H as (H1 & H2 & H3 & H4 & H5 & H6).
    destruct (script_le o b hs 1 _ _ _ _ ltac:(lia) H6) as [Ho Hx].
    cbn [regionLoop]. cbv zeta.
    destruct (advanceTo_spec po (oStart h) results ltac:(lia))
      as (R0 & -> & Hclean0 & Hlines0).
    rewrite (pull_stop hs) by (eapply script_next; eauto).
    cbn [snd]. rewrite Hb.
    set (R1 := if abLength h >? 0
               then [Stable BufB (abStart h) (abLength h)
                       (Js.slice b (abStart h) (abStart h + abLength h))]
               else []).
    replace (if abLength h >? 0 then _ else _) with ((results ++ R0) ++ R1)
      by (subst R1; destruct (abLength h >? 0);
          [reflexivity|rewrite app_nil_r; reflexivity]).
    rewrite <- app_assoc.
    rewrite (slice_split b px (abStart h + abLength h) (len b)) by lia.
    eapply finishes_more; [| |apply (IH turns 1); eauto; simpl in Hturns; lia].
    + apply Forall_app. split; [exact Hclean0|].
      subst R1. destruct (abLength h >? 0); repeat constructor.
    + rewrite map_app, concat_app, Hlines0, H3.
      rewrite (slice_split b px (abStart h) (abStart h + abLength h)) by lia.
      f_equal. subst R1.
      destruct (Z.gtb_spec (abLength h) 0); simpl; [apply app_nil_r|].
      replace (abLength h) with 0 by lia. rewrite Z.add_0_r, slice_nil.
      reflexivity.
Qed.

End Loop.


Section Pairs.
Variables o x : list string.

Lemma isFalseConflict_refl l : isFalseConflict l l = true.
Proof.
  unfold isFalseConflict. rewrite Z.eqb_refl. simpl.
  induction l as [|y l IH]; [reflexivity|].
  simpl. rewrite String.eqb_refl. exact IH.
Qed.

(** The same change on both sides is an unstable region on which the two
    sides agree. *)
Lemma conflictRegion_pair o1 l1 x1 l2 :
  0 <= o1 -> 0 <= l1 -> o1 + l1 <= len o ->
  0 <= x1 -> 0 <= l2 -> x1 + l2 <= len x ->
  let r := conflictRegion x o x o1 (o1 + l1)
             [mkHunk SideA o1 l1 x1 l2; mkHunk SideB o1 l1 x1 l2] in
  regionClean r /\ regionLines r = Js.slice x x1 (x1 + l2).
Proof.
  intros. subst r. unfold conflictRegion. cbn [mergeBounds ab widen fst snd
    oStart oLength abStart abLength].
  rewrite !(Z.min_l x1), !(Z.max_l (x1 + l2)), !(Z.min_l o1),
          !(Z.max_l (o1 + l1)) by lia.
  replace (x1 + (o1 - o1)) with x1 by lia.
  replace (x1 + l2 + (o1 + l1 - (o1 + l1))) with (x1 + l2) by lia.
  simpl. split; [apply isFalseConflict_refl|reflexivity].
Qed.

Lemma pairUp_next cs po px t1 t2 :
  script o x 1 po px (map (addHunk SideA) cs) t1 t2 ->
  match pairUp cs with [] => True | h' :: _ => po < oStart h' end.
Proof.
  destruct cs as [|c cs]; [intros _; exact I|]. intros H.
  apply script_head in H. simpl in *. lia.
Qed.

(** Every hunk reported by both sides: the regions rebuild [x]. *)
Lemma regionLoop_pairs cs : forall turns g po px results,
  0 <= g -> 0 <= po -> 0 <= px ->
  script o x g po px (map (addHunk SideA) cs) (len o) (len x) ->
  (length cs <= turns)%nat ->
  finishes o (regionLoop x o x turns (pairUp cs) (po, results)) results
           (Js.slice x px (len x)).
Proof.
  induction cs as [|c cs IH]; intros turns g po px results Hg Hpo Hpx H Hturns.
  - cbn [pairUp flat_map]. rewrite regionLoop_nil. eapply finishes_end; eauto.
  - destruct turns as [|turns]; [simpl in Hturns; lia|].
    destruct c as [[o1 l1] c1 [x1 l2] c2].
    cbn [map] in H.
    change (addHunk SideA (mkChunk (o1, l1) c1 (x1, l2) c2))
      with (mkHunk SideA o1 l1 x1 l2) in H.
    pose proof H as (H1 & H2 & H3 & H4 & H5 & H6).
    cbn [oStart oLength abStart abLength] in H1, H2, H3, H4, H5, H6.
    destruct (script_le o x _ 1 _ _ _ _ ltac:(lia) H6) as [Ho Hx].
    change (pairUp (mkChunk (o1, l1) c1 (x1, l2) c2 :: cs))
      with (mkHunk SideA o1 l1 x1 l2 :: mkHunk SideB o1 l1 x1 l2 :: pairUp cs).
    cbn [regionLoop]. cbv zeta. cbn [oStart oLength].
    destruct (advanceTo_spec o po o1 results ltac:(lia))
      as (R0 & -> & Hclean0 & Hlines0).
    cbn [pullOverlapping oStart oLength].
    destruct (Z.gtb_spec o1 (o1 + l1)) as [Hbad|_]; [lia|].
    rewrite Z.max_id.
    rewrite (pull_stop (pairUp cs)) by (eapply pairUp_next; eauto).
    cbn [app snd].
    destruct (conflictRegion_pair o1 l1 x1 l2) as [Hclean Hlines]; try lia.
    rewrite <- app_assoc.
    rewrite (slice_split x px (x1 + l2) (len x)) by lia.
    eapply finishes_more;
      [| |apply (IH turns 1); eauto; simpl in Hturns; lia].
    + apply Forall_app. split; [exact Hclean0|].
      constructor; [exact Hclean|constructor].
    + rewrite map_app, concat_app, Hlines0, H3.
      rewrite (slice_split x px x1 (x1 + l2)) by lia.
      f_equal. cbn [map concat]. rewrite Hlines. apply app_nil_r.
Qed.

End Pairs.

(** *** Assembling the blocks *)

Lemma mergeRegion_clean R : forall buf results,
  Forall regionClean R ->
  fold_left mergeRegion R (buf, results)
  = (buf ++ concat (map regionLines R), results).
Proof.
  induction R as [|r R IH]; intros buf results Hc.
  - simpl. rewrite app_nil_r. reflexivity.
  - apply Forall_cons in Hc as [Hr Hc].
    cbn [fold_left map concat].
    assert (Hstep : mergeRegion (buf, results) r
                    = (buf ++ regionLines r, results)).
    { destruct r; simpl in *; [reflexivity|]. rewrite Hr. reflexivity. }
    rewrite Hstep, IH by exact Hc. rewrite <- app_assoc. reflexivity.
Qed.

Lemma finishes_lines o st results lines lines' :
  finishes o st results lines -> lines = lines' ->
  finishes o st results lines'.
Proof. intros H <-. exact H. Qed.

(** When every region merges without conflict the result is one [ok]
    block with all the lines (or no block when there is no line). *)
Lemma diff3Merge_clean a o b lines :
  finishes o (regionLoop a o b
                (length (sortHunks (map (addHunk SideA) (diffIndices o a) ++
                                    map (addHunk SideB) (diffIndices o b))))
                (sortHunks (map (addHunk SideA) (diffIndices o a) ++
                            map (addHunk SideB) (diffIndices o b)))
                (0, [])) [] lines ->
  diff3Merge a o b = match lines with [] => [] | _ => [Ok lines] end.
Proof.
  intros (R & HR & Hclean & Hlines).
  unfold diff3Merge, diff3MergeRegions. cbv zeta.
  rewrite HR. cbn [app]. rewrite mergeRegion_clean by exact Hclean.
  rewrite Hlines. cbn [app]. destruct lines; reflexivity.
Qed.

(** With [a] equal to [o] the merge is [b]. *)
Lemma diff3Merge_base_ours o b :
  diff3Merge o o b = match b with [] => [] | _ => [Ok b] end.
Proof.
  apply diff3Merge_clean.
  rewrite diffIndices_same. cbn [map app].
  pose proof (diffIndices_script o b SideB) as H.
  rewrite (sortHunks_sorted o b _ _ _ _ _ _ H).
  eapply finishes_lines; [|apply slice_all].
  apply (regionLoop_single o o b _ _ 0 0 0); try lia; [exact H|].
  apply Forall_forall. intros h Hh.
  apply list_elem_of_In, in_map_iff in Hh as (c & <- & _). reflexivity.
Qed.

(** With [a] equal to [b] the merge is [b]. *)
Lemma diff3Merge_ours_theirs o b :
  diff3Merge b o b = match b with [] => [] | _ => [Ok b] end.
Proof.
  apply diff3Merge_clean.
  pose proof (diffIndices_script o b SideA) as H.
  rewrite (sortHunks_pairs o b _ 0 0 0 _ _ ltac:(lia) H).
  eapply finishes_lines; [|apply slice_all].
  apply (regionLoop_pairs o b _ _ 0 0 0); try lia; [exact H|].
  unfold pairUp. clear H.
  induction (diffIndices o b) as [|c cs IH]; simpl; lia.
Qed.


(** *** Every line of the merge comes from one of the inputs *)

Section Lines.
Variable P : string -> Prop.
Variables a o b : list string.
Hypothesis Ha : Forall P a.
Hypothesis Ho : Forall P o.
Hypothesis Hb : Forall P b.

#[local] Abbreviation regionAll := (Diff3Spec.regionAll P).
#[local] Abbreviation blockAll := (Diff3Spec.blockAll P).

Lemma slice_Forall (l : list string) s e : Forall P l -> Forall P (Js.slice l s e).
Proof.
  intros H. apply Forall_forall. intros y Hy.
  apply list_elem_of_In, slice_In, list_elem_of_In in Hy.
  eapply Forall_forall in H; eauto.
Qed.

Lemma advanceTo_all target st :
  Forall regionAll st.2 -> Forall regionAll (advanceTo o target st).2.
Proof.
  destruct st as [cur results]. unfold advanceTo. intros H.
  destruct (target >? cur); [|exact H].
  apply Forall_app. split; [exact H|].
  repeat constructor. apply slice_Forall, Ho.
Qed.

Lemma conflictRegion_all rs re hs : regionAll (conflictRegion a o b rs re hs).
Proof.
  unfold conflictRegion.
  destruct (mergeBounds _ _) as [[[[a0 a1] a2] a3] [[[b0 b1] b2] b3]].
  simpl. split; apply slice_Forall; assumption.
Qed.

Lemma regionLoop_all turns : forall hunks st,
  Forall regionAll st.2 ->
  Forall regionAll (regionLoop a o b turns hunks st).2.
Proof.
  induction turns as [|turns IH]; intros hunks st H; [exact H|].
  destruct hunks as [|hunk rest]; [exact H|].
  cbn [regionLoop]. cbv zeta.
  pose proof (advanceTo_all (oStart hunk) st H) as H1.
  destruct (pullOverlapping rest _ _) as [[regionEnd regionHunks] rest'].
  apply IH. cbn [snd].
  assert (Hconf : Forall regionAll
            ((advanceTo o (oStart hunk) st).2 ++
             [conflictRegion a o b (oStart hunk) regionEnd regionHunks])).
  { apply Forall_app. split; [exact H1|].
    repeat constructor. apply conflictRegion_all. }
  destruct regionHunks as [|h1 [|h2 hs]]; try exact Hconf.
  destruct (abLength hunk >? 0); [|exact H1].
  apply Forall_app. split; [exact H1|].
  repeat constructor. apply slice_Forall. destruct (ab hunk); assumption.
Qed.

Lemma diff3MergeRegions_all : Forall regionAll (diff3MergeRegions a o b).
Proof.
  unfold diff3MergeRegions. cbv zeta.
  apply advanceTo_all, regionLoop_all. constructor.
Qed.

Lemma mergeRegion_all R : forall st,
  Forall regionAll R -> Forall P st.1 -> Forall blockAll st.2 ->
  Forall P (fold_left mergeRegion R st).1 /\
  Forall blockAll (fold_left mergeRegion R st).2.
Proof.
  induction R as [|r R IH]; intros [buf results] HR Hbuf Hres; [auto|].
  apply Forall_cons in HR as [Hr HR]. cbn [fold_left].
  apply IH; [exact HR| |]; destruct r; simpl in *.
  - apply Forall_app. auto.
  - destruct Hr as [Hca Hcb].
    destruct (isFalseConflict aContent bContent); simpl;
      [apply Forall_app; auto|constructor].
  - exact Hres.
  - destruct Hr as [Hca Hcb].
    destruct (isFalseConflict aContent bContent); simpl; [exact Hres|].
    apply Forall_app. split; [|constructor; [split; assumption|constructor]].
    destruct buf; [exact Hres|].
    apply Forall_app. split; [exact Hres|].
    constructor; [exact Hbuf|constructor].
Qed.

Lemma diff3Merge_all : Forall blockAll (diff3Merge a o b).
Proof.
  unfold diff3Merge.
  destruct (mergeRegion_all (diff3MergeRegions a o b) ([], []))
    as [Hbuf Hres]; [apply diff3MergeRegions_all|constructor|constructor|].
  destruct (fold_left _ _ _) as [buf results]. simpl in *.
  destruct buf; [exact Hres|].
  apply Forall_app. split; [exact Hres|].
  constructor; [exact Hbuf|constructor].
Qed.

End Lines.

(** *** Lines of the base outside every hunk are lines of the other side *)

Lemma slice_elem {A} (l : list A) s e y :
  0 <= s -> 0 <= e -> In y (Js.slice l s e) ->
  exists i, s <= i < e /\ l !! Z.to_nat i = Some y.
Proof.
  unfold Js.slice, Js.clampIndex. intros Hs He H.
  destruct (Z.ltb_spec s 0); [lia|]. destruct (Z.ltb_spec e 0); [lia|].
  apply list_elem_of_In, elem_of_take in H as (k & H & Hk).
  rewrite lookup_drop in H.
  pose proof (lookup_lt_Some _ _ _ H) as Hlt.
  exists (Z.of_nat (Z.to_nat (Z.min s (Z.of_nat (length l))) + k)).
  rewrite Nat2Z.id. split; [lia|exact H].
Qed.

Lemma slice_has {A} (l : list A) s e i y :
  0 <= s -> s <= i < e -> l !! Z.to_nat i = Some y -> In y (Js.slice l s e).
Proof.
  unfold Js.slice, Js.clampIndex. intros Hs Hi H.
  destruct (Z.ltb_spec s 0); [lia|]. destruct (Z.ltb_spec e 0); [lia|].
  pose proof (lookup_lt_Some _ _ _ H) as Hlt.
  apply list_elem_of_In, elem_of_take.
  exists (Z.to_nat i - Z.to_nat s)%nat. split; [|lia].
  rewrite lookup_drop. rewrite <- H. f_equal. lia.
Qed.

Lemma insertHunk_In h l y : In y (insertHunk h l) <-> y = h \/ In y l.
Proof.
  induction l as [|x l IH]; simpl; [intuition|].
  destruct (oStart h <=? oStart x); simpl; [intuition|].
  rewrite IH. intuition.
Qed.

Lemma sortHunks_In l y : In y (sortHunks l) <-> In y l.
Proof.
  unfold sortHunks. induction l as [|h l IH]; simpl; [tauto|].
  rewrite insertHunk_In, IH. intuition.
Qed.

Lemma insertHunk_ordered h l :
  StronglySorted (fun x y => oStart x <= oStart y) l ->
  StronglySorted (fun x y => oStart x <= oStart y) (insertHunk h l).
Proof.
  induction 1 as [|x l Hl IH Hx]; simpl.
  - repeat constructor.
  - destruct (Z.leb_spec (oStart h) (oStart x)).
    + constructor; [constructor; assumption|].
      constructor; [assumption|].
      eapply Forall_impl; [exact Hx|]. intros y Hy. simpl in Hy. lia.
    + constructor; [exact IH|].
      apply Forall_forall. intros y Hy.
      apply list_elem_of_In, insertHunk_In in Hy as [->|Hy]; [lia|].
      eapply Forall_forall in Hx; [exact Hx|]. apply list_elem_of_In, Hy.
Qed.

Lemma sortHunks_ordered l :
  StronglySorted (fun x y => oStart x <= oStart y) (sortHunks l).
Proof.
  unfold sortHunks. induction l as [|h l IH]; simpl; [constructor|].
  apply insertHunk_ordered, IH.
Qed.

Lemma ordered_suffix (l1 l2 : list hunk) :
  StronglySorted (fun x y => oStart x <= oStart y) (l1 ++ l2) ->
  StronglySorted (fun x y => oStart x <= oStart y) l2.
Proof.
  induction l1 as [|x l1 IH]; [auto|].
  simpl. intros H. apply StronglySorted_inv in H as [H _]. auto.
Qed.

Lemma script_hunks_nonneg o x hs : forall g po px t1 t2,
  script o x g po px hs t1 t2 -> 0 <= g -> 0 <= po ->
  Forall (fun h => 0 <= oStart h /\ 0 <= oLength h) hs.
Proof.
  induction hs as [|h hs IH]; intros g po px t1 t2 H Hg Hpo; [constructor|].
  simpl in H. destruct H as (H1 & H2 & H3 & H4 & H5 & H6).
  constructor; [lia|]. apply (IH _ _ _ _ _ H6); lia.
Qed.

Lemma script_outside o x hs : forall g po px t1 t2,
  script o x g po px hs t1 t2 -> 0 <= g -> 0 <= po -> 0 <= px ->
  forall i v,
    po <= i < t1 -> o !! Z.to_nat i = Some v ->
    (forall h, In h hs -> ~ (oStart h <= i < oStart h + oLength h)) ->
    In v x.
Proof.
  induction hs as [|h hs IH]; intros g po px t1 t2 H Hg Hpo Hpx i v Hi Hv Hout;
    simpl in H.
  - destruct H as (H1 & H2 & H3).
    apply (slice_In x px t2). rewrite <- H3.
    apply (slice_has o po t1 i); [lia|lia|exact Hv].
  - destruct H as (H1 & H2 & H3 & H4 & H5 & H6).
    destruct (Z.lt_ge_cases i (oStart h)) as [Hlt|Hge].
    + apply (slice_In x px (abStart h)). rewrite <- H3.
      apply (slice_has o po (oStart h) i); [lia|lia|exact Hv].
    + pose proof (Hout h (or_introl eq_refl)) as Hh.
      apply (IH _ _ _ _ _ H6) with (i := i); try lia; [exact Hv|].
      intros h' Hh'. apply Hout. right. exact Hh'.
Qed.

Lemma pull_spec hs : forall pe rh re rhs rest',
  pullOverlapping hs pe rh = (re, rhs, rest') ->
  exists pulled,
    hs = pulled ++ rest' /\ rhs = rh ++ pulled /\ pe <= re /\
    Forall (fun h => oStart h + oLength h <= re) pulled /\
    match rest' with [] => True | h' :: _ => re < oStart h' end.
Proof.
  induction hs as [|h hs IH]; intros pe rh re rhs rest' H; simpl in H.
  - injection H as <- <- <-. exists [].
    split; [reflexivity|]. split; [symmetry; apply app_nil_r|]. split; [lia|].
    split; [constructor|exact I].
  - destruct (Z.gtb_spec (oStart h) pe) as [Hgt|Hle].
    + injection H as <- <- <-. exists [].
      split; [reflexivity|]. split; [symmetry; apply app_nil_r|]. split; [lia|].
      split; [constructor|lia].
    + apply IH in H as (pulled & -> & -> & Hpe & Hall & Hnext).
      exists (h :: pulled). rewrite <- app_assoc.
      split; [reflexivity|]. split; [reflexivity|]. split; [lia|].
      split; [|exact Hnext].
      constructor; [lia|exact Hall].
Qed.

Section Sides.
Variable P : string -> Prop.
Variables a o b : list string.
Hypothesis Ha : Forall P a.
Hypothesis Hb : Forall P b.

#[local] Abbreviation regionAll := (Diff3Spec.regionAll P).
#[local] Abbreviation blockAll := (Diff3Spec.blockAll P).
#[local] Abbreviation hunksA := (map (addHunk SideA) (diffIndices o a)).

(** The state of the region loop: the hunks still to come are sorted and
    start at or after the current offset, and every hunk of side A is
    still to come or ends at or before the current offset. *)
#[local] Abbreviation inv := (fun (hunks : list hunk) (c : Z) =>
  0 <= c /\
  StronglySorted (fun x y => oStart x <= oStart y) hunks /\
  Forall (fun h => 0 <= oStart h /\ 0 <= oLength h) hunks /\
  (forall h, In h hunks -> c <= oStart h) /\
  (forall h, In h hunksA -> In h hunks \/ oStart h + oLength h <= c)).

Lemma stable_sides hunks c target :
  inv hunks c -> 0 <= target ->
  (forall h, In h hunks -> target <= oStart h) ->
  Forall P (Js.slice o c target).
Proof.
  intros (Hc & _ & _ & _ & Hcover) Ht Hnext.
  apply Forall_forall. intros y Hy.
  apply list_elem_of_In, slice_elem in Hy as (i & Hi & Hy); [|lia|lia].
  pose proof (lookup_lt_Some _ _ _ Hy) as Hlt.
  assert (Hin : In y a).
  { apply (script_outside o a hunksA 0 0 0 (len o) (len a)
             (diffIndices_script o a SideA) ltac:(lia) ltac:(lia) ltac:(lia)
             i y); [unfold len; lia|exact Hy|].
    intros h Hh Hi'. destruct (Hcover h Hh) as [Hin|Hend]; [|lia].
    specialize (Hnext h Hin). lia. }
  eapply Forall_forall in Ha; [exact Ha|]. apply list_elem_of_In, Hin.
Qed.

Lemma advanceTo_sides hunks target st :
  Forall regionAll st.2 -> inv hunks st.1 -> 0 <= target ->
  (forall h, In h hunks -> target <= oStart h) ->
  Forall regionAll (advanceTo o target st).2.
Proof.
  destruct st as [cur results]. unfold advanceTo. intros H Hinv Ht Hnext.
  destruct (target >? cur); [|exact H].
  apply Forall_app. split; [exact H|].
  repeat constructor. eapply stable_sides; eauto.
Qed.

Lemma regionLoop_sides turns : forall hunks st,
  (length hunks <= turns)%nat ->
  Forall regionAll st.2 -> inv hunks st.1 ->
  Forall regionAll (regionLoop a o b turns hunks st).2 /\
  inv [] (regionLoop a o b turns hunks st).1.
Proof.
  induction turns as [|turns IH]; intros hunks st Hlen H Hinv.
  - destruct hunks; [|simpl in Hlen; lia]. split; assumption.
  - destruct hunks as [|hunk rest]; [split; assumption|].
    cbn [regionLoop]. cbv zeta.
    destruct Hinv as (Hc & Hsorted & Hnonneg & Hstart & Hcover).
    pose proof Hsorted as Hsorted'.
    apply StronglySorted_inv in Hsorted' as [Hsrest Hhead].
    apply Forall_cons in Hnonneg as [Hhunk Hnrest].
    assert (H1 : Forall regionAll (advanceTo o (oStart hunk) st).2).
    { apply (advanceTo_sides (hunk :: rest)); [exact H| |lia|].
      - repeat split; try assumption. constructor; assumption.
      - intros h [<-|Hh]; [lia|].
        eapply Forall_forall in Hhead; [exact Hhead|].
        apply list_elem_of_In, Hh. }
    pose proof (pullOverlapping_length rest (oStart hunk + oLength hunk) [hunk])
      as Hpl.
    destruct (pullOverlapping rest _ _) as [[regionEnd regionHunks] rest'] eqn:E.
    apply pull_spec in E as (pulled & Hrest & Hrh & Hpe & Hends & Hnext).
    simpl in Hlen, Hpl.
    apply IH; [lia| |].
    + cbn [snd].
      assert (Hconf : Forall regionAll
                ((advanceTo o (oStart hunk) st).2 ++
                 [conflictRegion a o b (oStart hunk) regionEnd regionHunks])).
      { apply Forall_app. split; [exact H1|].
        repeat constructor. apply conflictRegion_all; assumption. }
      destruct regionHunks as [|h1 [|h2 hs]]; try exact Hconf.
      destruct (abLength hunk >? 0); [|exact H1].
      apply Forall_app. split; [exact H1|].
      repeat constructor. apply slice_Forall. destruct (ab hunk); assumption.
    + cbn [fst]. subst rest.
      apply Forall_app in Hnrest as [_ Hnrest'].
      split; [lia|]. split; [eapply ordered_suffix; exact Hsrest|].
      split; [exact Hnrest'|]. split.
      * intros h Hh. destruct rest' as [|h' rest']; [destruct Hh|].
        apply ordered_suffix in Hsrest.
        apply StronglySorted_inv in Hsrest as [_ Hh'].
        destruct Hh as [<-|Hh]; [lia|].
        eapply Forall_forall in Hh'; [|apply list_elem_of_In, Hh]. lia.
      * intros h Hh. destruct (Hcover h Hh) as [[<-|Hin]|Hend].
        -- right. lia.
        -- apply in_app_or in Hin as [Hin|Hin]; [right|left; exact Hin].
           eapply Forall_forall in Hends; [exact Hends|].
           apply list_elem_of_In, Hin.
        -- right. specialize (Hstart hunk (or_introl eq_refl)). lia.
Qed.

Lemma diff3MergeRegions_sides : Forall regionAll (diff3MergeRegions a o b).
Proof.
  unfold diff3MergeRegions. cbv zeta.
  set (hunks := sortHunks (hunksA ++ map (addHunk SideB) (diffIndices o b))).
  assert (Hnonneg : Forall (fun h => 0 <= oStart h /\ 0 <= oLength h) hunks).
  { apply Forall_forall. intros h Hh.
    apply list_elem_of_In, sortHunks_In, in_app_or in Hh.
    pose proof (script_hunks_nonneg _ _ _ _ _ _ _ _
                  (diffIndices_script o a SideA) ltac:(lia) ltac:(lia)) as HA.
    pose proof (script_hunks_nonneg _ _ _ _ _ _ _ _
                  (diffIndices_script o b SideB) ltac:(lia) ltac:(lia)) as HB.
    destruct Hh as [Hh|Hh];
      [eapply Forall_forall in HA|eapply Forall_forall in HB]; eauto;
      apply list_elem_of_In, Hh. }
  destruct (regionLoop_sides (length hunks) hunks (0, [])) as [Hres Hinv].
  - lia.
  - constructor.
  - cbn [fst]. split; [lia|]. split; [apply sortHunks_ordered|].
    split; [exact Hnonneg|]. split.
    + intros h Hh. eapply Forall_forall in Hnonneg; [|apply list_elem_of_In, Hh].
      lia.
    + intros h Hh. left. apply sortHunks_In, in_or_app. left. exact Hh.
  - apply (advanceTo_sides []); [exact Hres|exact Hinv|apply len_nonneg|].
    intros h [].
Qed.

(** Every line of a merged block, and every ours or theirs line of a
    conflict, satisfies a property that all lines of ours and of theirs
    satisfy, whatever the base is. *)
Lemma diff3Merge_sides : Forall blockAll (diff3Merge a o b).
Proof.
  unfold diff3Merge.
  destruct (mergeRegion_all P (diff3MergeRegions a o b) ([], []))
    as [Hbuf Hres]; [apply diff3MergeRegions_sides|constructor|constructor|].
  destruct (fold_left _ _ _) as [buf results]. simpl in *.
  destruct buf; [exact Hres|].
  apply Forall_app. split; [exact Hres|].
  constructor; [exact Hbuf|constructor].
Qed.

End Sides.

End Diff3Facts.

(* ===================================================================== *)
(** ** Properties of the three-way merge *)
(* ===================================================================== *)

Module MergeFacts.
Import Merge.

Lemma pushResult_step labels n acc blk :
  pushResult labels (n, acc) blk =
  (n + (if MergeSpec.isConflict blk then 1 else 0),
   acc ++ MergeSpec.blockLines (labelOr labels ours "ours (your changes)")
                           (labelOr labels theirs "theirs (upstream)") blk).
Proof. destruct blk; simpl; [rewrite Z.add_0_r|]; reflexivity. Qed.

Lemma pushResult_fold labels blocks : forall n acc,
  fold_left (pushResult labels) blocks (n, acc) =
  (n + MergeSpec.conflictBlocks blocks,
   acc ++ flat_map (MergeSpec.blockLines
                      (labelOr labels ours "ours (your changes)")
                      (labelOr labels theirs "theirs (upstream)")) blocks).
Proof.
  unfold MergeSpec.conflictBlocks.
  induction blocks as [|blk blocks IH]; intros n acc.
  - simpl. rewrite Z.add_0_r, app_nil_r. reflexivity.
  - cbn [fold_left flat_map List.filter]. rewrite pushResult_step, IH.
    rewrite <- app_assoc. f_equal.
    destruct (MergeSpec.isConflict blk); simpl length; lia.
Qed.

Lemma threeWayMerge_unfold base ours theirs labels :
  threeWayMerge base ours theirs labels =
  let blocks := MergeSpec.mergeBlocks base ours theirs in
  let n := MergeSpec.conflictBlocks blocks in
  mkMergeResult (n =? 0)
    (Js.joinLines
       (flat_map (MergeSpec.blockLines
                    (labelOr labels Merge.ours "ours (your changes)")
                    (labelOr labels Merge.theirs "theirs (upstream)")) blocks))
    n.
Proof.
  unfold threeWayMerge, MergeSpec.mergeBlocks.
  rewrite pushResult_fold. reflexivity.
Qed.

(** C7 (as amended): without labels every conflict region is emitted as
    the line [<<<<<<< ours (your changes)], the ours lines, [=======], the
    theirs lines and the line [>>>>>>> theirs (upstream)]; merged regions
    are emitted as they are, and the conflict count is the number of
    conflict regions. *)
Theorem threeWayMerge_default_labels (base ours theirs : string) :
  let blocks := MergeSpec.mergeBlocks base ours theirs in
  let r := threeWayMerge base ours theirs None in
  content r =
    Js.joinLines
      (flat_map (MergeSpec.blockLines "ours (your changes)" "theirs (upstream)")
                blocks) /\
  conflictCount r = MergeSpec.conflictBlocks blocks.
Proof. rewrite threeWayMerge_unfold. split; reflexivity. Qed.

(** C7 fails as stated: with base a/b/c, ours a/X/c and theirs a/Y/c and
    no labels, the conflict is not opened by [<<<<<<< your changes]. *)
Lemma threeWayMerge_default_labels_counterexample :
  let base := Js.joinLines ["a"; "b"; "c"] in
  let ours := Js.joinLines ["a"; "X"; "c"] in
  let theirs := Js.joinLines ["a"; "Y"; "c"] in
  MergeSpec.mergeBlocks base ours theirs
    = [Diff3.Ok ["a"]; Diff3.Conflict ["X"] 1 ["b"] 1 ["Y"] 1; Diff3.Ok ["c"]] /\
  content (threeWayMerge base ours theirs None) <>
    Js.joinLines
      (flat_map (MergeSpec.blockLines "your changes" "theirs (upstream)")
                (MergeSpec.mergeBlocks base ours theirs)).
Proof. split; [vm_compute; reflexivity|vm_compute; discriminate]. Qed.

(** Scenario C: both sides changed line 2 differently; one conflict region
    with X under the ours label and Y under the theirs label. *)
Example threeWayMerge_both_changed_line :
  threeWayMerge (Js.joinLines ["a"; "b"; "c"]) (Js.joinLines ["a"; "X"; "c"])
                (Js.joinLines ["a"; "Y"; "c"])
                (Some (mkLabels (Some "your changes") (Some "v1.1.0")))
  = mkMergeResult false
      (Js.joinLines ["a"; "<<<<<<< your changes"; "X"; "=======";
                     "Y"; ">>>>>>> v1.1.0"; "c"])
      1.
Proof. vm_compute. reflexivity. Qed.

(** C4 (as amended): for base a/b/c, ours a/B/c and theirs a/b/C the edits
    touch adjacent lines and are reported as one conflict spanning lines
    2 and 3: the merge does not succeed, the conflict count is 1 and the
    content carries both versions between conflict markers.  With one
    unchanged line between the two edits (base a/b/c/d, ours a/B/c/d,
    theirs a/b/c/D) the merge succeeds with content a/B/c/D. *)
Theorem threeWayMerge_adjacent_edits :
  threeWayMerge (Js.joinLines ["a"; "b"; "c"]) (Js.joinLines ["a"; "B"; "c"])
                (Js.joinLines ["a"; "b"; "C"]) None
  = mkMergeResult false
      (Js.joinLines ["a"; "<<<<<<< ours (your changes)"; "B"; "c"; "=======";
                     "b"; "C"; ">>>>>>> theirs (upstream)"])
      1 /\
  threeWayMerge (Js.joinLines ["a"; "b"; "c"; "d"])
                (Js.joinLines ["a"; "B"; "c"; "d"])
                (Js.joinLines ["a"; "b"; "c"; "D"]) None
  = mkMergeResult true (Js.joinLines ["a"; "B"; "c"; "D"]) 0.
Proof. split; vm_compute; reflexivity. Qed.

(** C4 fails as stated: the merge of these inputs is not a clean merge
    with content a/B/C. *)
Lemma threeWayMerge_adjacent_edits_counterexample :
  let r := threeWayMerge (Js.joinLines ["a"; "b"; "c"])
             (Js.joinLines ["a"; "B"; "c"]) (Js.joinLines ["a"; "b"; "C"])
             None in
  ~ (success r = true /\ conflictCount r = 0 /\
     content r = Js.joinLines ["a"; "B"; "C"]).
Proof. vm_compute. intros (H & _). discriminate H. Qed.

(** C5 fails as stated: when a conflicting line of the input itself
    contains [<<<<<<<], the content has more occurrences than conflicts. *)
Lemma conflict_marker_count_counterexample :
  let r := threeWayMerge "x" "<<<<<<< y" "z" None in
  conflictCount r = 1 /\
  Js.countMatches "<<<<<<<" (content r) = 2%nat /\
  countConflicts (content r) <> conflictCount r.
Proof. vm_compute. repeat split; discriminate. Qed.


Lemma mergeBlocks_base_ours base theirs :
  MergeSpec.mergeBlocks base base theirs = [Diff3.Ok (Js.splitLines theirs)].
Proof.
  unfold MergeSpec.mergeBlocks. rewrite Diff3Facts.diff3Merge_base_ours.
  pose proof (LineFacts.splitLines_nonempty theirs).
  destruct (Js.splitLines theirs); [congruence|reflexivity].
Qed.

Lemma mergeBlocks_ours_theirs base theirs :
  MergeSpec.mergeBlocks base theirs theirs = [Diff3.Ok (Js.splitLines theirs)].
Proof.
  unfold MergeSpec.mergeBlocks. rewrite Diff3Facts.diff3Merge_ours_theirs.
  pose proof (LineFacts.splitLines_nonempty theirs).
  destruct (Js.splitLines theirs); [congruence|reflexivity].
Qed.

Lemma threeWayMerge_single_ok base ours theirs labels lines :
  MergeSpec.mergeBlocks base ours theirs = [Diff3.Ok lines] ->
  threeWayMerge base ours theirs labels
  = mkMergeResult true (Js.joinLines lines) 0.
Proof.
  intros H. rewrite threeWayMerge_unfold, H. cbv zeta.
  cbn [flat_map MergeSpec.blockLines]. rewrite app_nil_r. reflexivity.
Qed.

(** C3: when ours equals base, the merge returns theirs verbatim, with no
    conflict and success. *)
Theorem threeWayMerge_only_theirs_changed
    (base ours theirs : string) (labels : option Labels) :
  ours = base ->
  let r := threeWayMerge base ours theirs labels in
  content r = theirs /\ conflictCount r = 0 /\ success r = true.
Proof.
  intros ->.
  rewrite (threeWayMerge_single_ok _ _ _ _ _ (mergeBlocks_base_ours base theirs)).
  simpl. rewrite LineFacts.joinLines_splitLines. auto.
Qed.

Lemma threeWayMerge_only_theirs_changed_witness :
  let base := Js.joinLines ["a"; "b"; "c"] in
  let theirs := Js.joinLines ["a"; "x"; "c"; "d"] in
  let r := threeWayMerge base base theirs None in
  content r = theirs /\ conflictCount r = 0 /\ success r = true.
Proof.
  apply (threeWayMerge_only_theirs_changed
           (Js.joinLines ["a"; "b"; "c"]) (Js.joinLines ["a"; "b"; "c"])
           (Js.joinLines ["a"; "x"; "c"; "d"]) None).
  reflexivity.
Defined.

(** C6: when ours equals theirs, the merge succeeds and returns theirs. *)
Theorem threeWayMerge_same_on_both_sides
    (base theirs : string) (labels : option Labels) :
  let r := threeWayMerge base theirs theirs labels in
  success r = true /\ content r = theirs.
Proof.
  rewrite (threeWayMerge_single_ok _ _ _ _ _
             (mergeBlocks_ours_theirs base theirs)).
  simpl. rewrite LineFacts.joinLines_splitLines. auto.
Qed.

(** *** Counting the conflict markers *)

Lemma markerFree_includes s :
  MergeSpec.markerFree s = true ->
  Js.includes "<<<<<<<" s = false /\ Js.includes ">>>>>>>" s = false.
Proof.
  unfold MergeSpec.markerFree. intros H.
  apply andb_true_iff in H as [H1 H2].
  apply negb_true_iff in H1, H2. auto.
Qed.

Lemma markerFree_lines s :
  MergeSpec.markerFree s = true -> Forall MergeSpec.noMarker (Js.splitLines s).
Proof.
  intros H. apply markerFree_includes in H as [H1 H2].
  pose proof (LineFacts.lines_free "<<<<<<<" eq_refl ltac:(discriminate) s H1) as L1.
  pose proof (LineFacts.lines_free ">>>>>>>" eq_refl ltac:(discriminate) s H2) as L2.
  rewrite Forall_forall in *. intros l Hl. split; auto.
Qed.

Lemma noMarker_total lines :
  Forall MergeSpec.noMarker lines ->
  MergeSpec.totalMatches "<<<<<<<" lines = 0%nat /\
  MergeSpec.totalMatches ">>>>>>>" lines = 0%nat.
Proof.
  intros H. split; apply LineFacts.totalMatches_zero;
    eapply Forall_impl; eauto; intros l [H1 H2]; assumption.
Qed.

Lemma open_marker_count label :
  MergeSpec.markerFree label = true ->
  Js.countMatches "<<<<<<<" ("<<<<<<< " +:+ label) = 1%nat /\
  Js.countMatches ">>>>>>>" ("<<<<<<< " +:+ label) = 0%nat.
Proof.
  intros H. apply markerFree_includes in H as [H1 H2].
  unfold Js.countMatches. split.
  - change (Js.countFrom "<<<<<<<" 0 ("<<<<<<< " +:+ label))
      with (S (Js.countFrom "<<<<<<<" 0 label)).
    rewrite LineFacts.includes_count by assumption. reflexivity.
  - change (Js.countFrom ">>>>>>>" 0 ("<<<<<<< " +:+ label))
      with (Js.countFrom ">>>>>>>" 0 label).
    apply LineFacts.includes_count. assumption.
Qed.

Lemma close_marker_count label :
  MergeSpec.markerFree label = true ->
  Js.countMatches "<<<<<<<" (">>>>>>> " +:+ label) = 0%nat /\
  Js.countMatches ">>>>>>>" (">>>>>>> " +:+ label) = 1%nat.
Proof.
  intros H. apply markerFree_includes in H as [H1 H2].
  unfold Js.countMatches. split.
  - change (Js.countFrom "<<<<<<<" 0 (">>>>>>> " +:+ label))
      with (Js.countFrom "<<<<<<<" 0 label).
    apply LineFacts.includes_count. assumption.
  - change (Js.countFrom ">>>>>>>" 0 (">>>>>>> " +:+ label))
      with (S (Js.countFrom ">>>>>>>" 0 label)).
    rewrite LineFacts.includes_count by assumption. reflexivity.
Qed.

Lemma blockLines_count oursLabel theirsLabel blk :
  MergeSpec.markerFree oursLabel = true -> MergeSpec.markerFree theirsLabel = true ->
  Diff3Spec.blockAll MergeSpec.noMarker blk ->
  let lines := MergeSpec.blockLines oursLabel theirsLabel blk in
  let n := if MergeSpec.isConflict blk then 1%nat else 0%nat in
  MergeSpec.totalMatches "<<<<<<<" lines = n /\
  MergeSpec.totalMatches ">>>>>>>" lines = n.
Proof.
  intros Ho Ht Hblk. destruct blk as [ok|a ai o oi b bi]; cbn [MergeSpec.blockLines MergeSpec.isConflict].
  - apply noMarker_total. exact Hblk.
  - destruct Hblk as [Ha Hb].
    apply noMarker_total in Ha as [Ha1 Ha2], Hb as [Hb1 Hb2].
    destruct (open_marker_count _ Ho) as [O1 O2].
    destruct (close_marker_count _ Ht) as [C1 C2].
    cbv zeta.
    rewrite !LineFacts.totalMatches_app.
    cbn [MergeSpec.totalMatches fold_right].
    rewrite Ha1, Ha2, Hb1, Hb2, O1, O2, C1, C2.
    split; reflexivity.
Qed.

Lemma blocks_count oursLabel theirsLabel blocks :
  MergeSpec.markerFree oursLabel = true -> MergeSpec.markerFree theirsLabel = true ->
  Forall (Diff3Spec.blockAll MergeSpec.noMarker) blocks ->
  let lines := flat_map (MergeSpec.blockLines oursLabel theirsLabel) blocks in
  Z.of_nat (MergeSpec.totalMatches "<<<<<<<" lines) = MergeSpec.conflictBlocks blocks /\
  Z.of_nat (MergeSpec.totalMatches ">>>>>>>" lines) = MergeSpec.conflictBlocks blocks.
Proof.
  intros Ho Ht. unfold MergeSpec.conflictBlocks.
  induction 1 as [|blk blocks Hblk _ IH]; [split; reflexivity|].
  cbn [flat_map List.filter]. cbv zeta in *.
  rewrite !LineFacts.totalMatches_app.
  destruct (blockLines_count oursLabel theirsLabel blk Ho Ht Hblk) as [-> ->].
  destruct IH as [IH1 IH2].
  destruct (MergeSpec.isConflict blk); simpl length; lia.
Qed.

(** C5 (as amended): when neither label in effect contains [<<<<<<<] or
    [>>>>>>>] and no line the merge copies from the inputs (the lines of
    the merged blocks and the ours and theirs lines of the conflicts)
    contains them, which is so whenever ours and theirs contain neither,
    whatever the base is, the content has exactly [conflictCount]
    occurrences of [<<<<<<<] and exactly [conflictCount] occurrences of
    [>>>>>>>]. *)
Theorem conflict_marker_count
    (base ours theirs : string) (labels : option Labels) :
  MergeSpec.markerFree (labelOr labels Merge.ours "ours (your changes)") = true ->
  MergeSpec.markerFree (labelOr labels Merge.theirs "theirs (upstream)") = true ->
  (MergeSpec.markerFree ours = true /\ MergeSpec.markerFree theirs = true) \/
  Forall (Diff3Spec.blockAll MergeSpec.noMarker)
         (MergeSpec.mergeBlocks base ours theirs) ->
  let r := threeWayMerge base ours theirs labels in
  countConflicts (content r) = conflictCount r /\
  Z.of_nat (Js.countMatches ">>>>>>>" (content r)) = conflictCount r.
Proof.
  intros Hlo Hlt Hlines.
  rewrite threeWayMerge_unfold. cbv zeta. cbn [content conflictCount].
  unfold countConflicts.
  rewrite !LineFacts.countMatches_join by (reflexivity || discriminate).
  apply blocks_count; [assumption|assumption|].
  destruct Hlines as [[Ho Ht]|Hlines]; [|exact Hlines].
  apply Diff3Facts.diff3Merge_sides; apply markerFree_lines; assumption.
Qed.

Lemma conflict_marker_count_witness :
  let r1 := threeWayMerge (Js.joinLines ["a"; "<<<<<<< b >>>>>>>"; "c"])
              (Js.joinLines ["a"; "X"; "c"]) (Js.joinLines ["a"; "Y"; "c"])
              (Some (mkLabels (Some "your changes") (Some "v1.1.0"))) in
  let r2 := threeWayMerge (Js.joinLines ["<<<<<<< x"; "k"; "m"])
              (Js.joinLines ["<<<<<<< x"; "k"; "M"])
              (Js.joinLines ["y"; "k"; "N"]) None in
  conflictCount r1 = 1 /\
  countConflicts (content r1) = conflictCount r1 /\
  conflictCount r2 = 1 /\
  countConflicts (content r2) = conflictCount r2.
Proof.
  split; [reflexivity|]. split; [|split; [reflexivity|]].
  - apply (conflict_marker_count (Js.joinLines ["a"; "<<<<<<< b >>>>>>>"; "c"])
             (Js.joinLines ["a"; "X"; "c"]) (Js.joinLines ["a"; "Y"; "c"])
             (Some (mkLabels (Some "your changes") (Some "v1.1.0"))));
      [reflexivity|reflexivity|].
    left. split; reflexivity.
  - apply (conflict_marker_count (Js.joinLines ["<<<<<<< x"; "k"; "m"])
             (Js.joinLines ["<<<<<<< x"; "k"; "M"])
             (Js.joinLines ["y"; "k"; "N"]) None);
      [reflexivity|reflexivity|].
    right. vm_compute. repeat constructor.
Defined.

End MergeFacts.

(* ===================================================================== *)
(** ** Further properties of the checksum *)
(* ===================================================================== *)

Module ChecksumMore.
Import Checksum ChecksumSpec.

Lemma toCRLF_head t :
  match toCRLF t with
  | EmptyString => True
  | String h _ => Ascii.eqb h Js.LF = false
  end.
Proof.
  destruct t as [|c t]; simpl; [exact I|].
  destruct (Ascii.eqb c Js.LF) eqn:E; [reflexivity|exact E].
Qed.

(** Rewriting CR LF to LF undoes the conversion to CR LF. *)
Lemma replaceCRLF_toCRLF t : Js.replaceCRLF (toCRLF t) = t.
Proof.
  induction t as [|c t IH]; [reflexivity|].
  cbn [toCRLF].
  destruct (Ascii.eqb_spec c Js.LF) as [->|Hne].
  - rewrite ChecksumFacts.replaceCRLF_cons2. cbn [andb Ascii.eqb].
    change (Ascii.eqb Js.CR Js.CR) with true.
    change (Ascii.eqb Js.LF Js.LF) with true. cbn [andb].
    rewrite IH. reflexivity.
  - pose proof (toCRLF_head t) as Hh.
    destruct (toCRLF t) as [|h tl] eqn:E.
    + simpl. rewrite <- IH. reflexivity.
    + rewrite ChecksumFacts.replaceCRLF_cons2, Hh, andb_false_r, IH.
      reflexivity.
Qed.

Lemma hasCRLF_tail c s : hasCRLF (String c s) = false -> hasCRLF s = false.
Proof.
  destruct s as [|c2 s]; [reflexivity|].
  cbn [hasCRLF]. intros H. apply orb_false_iff in H. tauto.
Qed.

Lemma replaceCRLF_id t : hasCRLF t = false -> Js.replaceCRLF t = t.
Proof.
  induction t as [|c t IH]; intros H; [reflexivity|].
  pose proof (hasCRLF_tail _ _ H) as Ht.
  destruct t as [|c2 t]; [reflexivity|].
  rewrite ChecksumFacts.replaceCRLF_cons2.
  cbn [hasCRLF] in H. apply orb_false_iff in H as [H _].
  rewrite H, IH by exact Ht. reflexivity.
Qed.

(** X1: a text without CR LF pairs and the same text with every LF
    turned into CR LF have the same checksum, so the comparison of their
    checksums reports no difference. *)
Theorem checksum_line_ending_conversion (t : string) :
  hasCRLF t = false ->
  computeChecksum (toCRLF t) = computeChecksum t /\
  compareChecksums (computeChecksum t) (computeChecksum (toCRLF t)) = true.
Proof.
  intros H.
  assert (E : computeChecksum (toCRLF t) = computeChecksum t).
  { unfold computeChecksum. rewrite replaceCRLF_toCRLF, replaceCRLF_id by exact H.
    reflexivity. }
  split; [exact E|]. unfold compareChecksums. rewrite E.
  apply bool_decide_eq_true. reflexivity.
Qed.

Lemma checksum_line_ending_conversion_witness :
  let t := Js.joinLines ["export"; "const x = 1"; ""] in
  computeChecksum (toCRLF t) = computeChecksum t /\
  compareChecksums (computeChecksum t) (computeChecksum (toCRLF t)) = true.
Proof.
  apply (checksum_line_ending_conversion
           (Js.joinLines ["export"; "const x = 1"; ""])).
  reflexivity.
Defined.

(** *** [formatChecksum] *)

Lemma chars_app s1 s2 :
  list_ascii_of_string (s1 +:+ s2)
  = list_ascii_of_string s1 ++ list_ascii_of_string s2.
Proof.
  induction s1 as [|c s1 IH]; [reflexivity|].
  change (String c s1 +:+ s2) with (String c (s1 +:+ s2)).
  simpl. rewrite IH. reflexivity.
Qed.

Lemma units_app s1 s2 :
  Js.unitsOfAscii (s1 +:+ s2) = Js.unitsOfAscii s1 ++ Js.unitsOfAscii s2.
Proof. unfold Js.unitsOfAscii. rewrite chars_app. apply map_app. Qed.

Lemma units_length s : length (Js.unitsOfAscii s) = String.length s.
Proof.
  unfold Js.unitsOfAscii. rewrite length_map.
  induction s as [|c s IH]; simpl; [reflexivity|]. rewrite IH. reflexivity.
Qed.

Lemma units_substring s : forall n m,
  Js.unitsOfAscii (String.substring n m s)
  = take m (drop n (Js.unitsOfAscii s)).
Proof.
  induction s as [|c s IH]; intros n m.
  - destruct n, m; reflexivity.
  - destruct n as [|n].
    + destruct m as [|m]; [reflexivity|].
      cbn [String.substring]. change (drop 0 ?l) with l.
      change (Js.unitsOfAscii (String c ?r))
        with (Z.of_nat (nat_of_ascii c) :: Js.unitsOfAscii r).
      cbn [take]. f_equal. rewrite IH. reflexivity.
    + cbn [String.substring]. rewrite IH. reflexivity.
Qed.

Lemma unitsStartWith_app p rest : Js.unitsStartWith p (p ++ rest) = true.
Proof.
  induction p as [|x p IH]; [reflexivity|].
  cbn [app Js.unitsStartWith]. rewrite Z.eqb_refl. exact IH.
Qed.

Lemma unitsStartWith_inv p : forall s,
  Js.unitsStartWith p s = true -> exists rest, s = p ++ rest.
Proof.
  induction p as [|x p IH]; intros s H; [exists s; reflexivity|].
  destruct s as [|y s]; [discriminate|].
  cbn [Js.unitsStartWith] in H. apply andb_prop in H as [Hx H].
  apply Z.eqb_eq in Hx. subst y.
  destruct (IH s H) as [rest ->]. exists rest. reflexivity.
Qed.

Lemma substring_inside s a b :
  0 <= a -> a <= b -> b <= Z.of_nat (length s) ->
  Js.substring s a b = take (Z.to_nat (b - a)) (drop (Z.to_nat a) s).
Proof.
  intros. unfold Js.substring, Js.clampPos.
  rewrite !(Z.min_l a), !(Z.min_l b), !(Z.max_r 0) by lia.
  rewrite Z.min_l, Z.max_r by lia. reflexivity.
Qed.

(** The hash part of a prefixed checksum. *)
Lemma hash_part rest :
  Js.substringFrom (Js.unitsOfAscii "sha256:" ++ rest) 7 = rest.
Proof.
  unfold Js.substringFrom.
  rewrite substring_inside by (rewrite ?length_app; simpl; lia).
  rewrite length_app.
  change (Z.to_nat 7) with (length (Js.unitsOfAscii "sha256:")).
  rewrite drop_app_length. apply take_ge.
  change (length (Js.unitsOfAscii "sha256:")) with 7%nat. lia.
Qed.

Lemma formatChecksum_short rest :
  (length rest <= 16)%nat ->
  formatChecksum (Js.unitsOfAscii "sha256:" ++ rest)
  = Js.unitsOfAscii "sha256:" ++ rest.
Proof.
  intros Hlen. unfold formatChecksum.
  rewrite unitsStartWith_app, hash_part. cbn [negb].
  destruct (Z.leb_spec (Z.of_nat (length rest)) 16); [reflexivity|lia].
Qed.

Lemma formatChecksum_long rest :
  (16 < length rest)%nat ->
  formatChecksum (Js.unitsOfAscii "sha256:" ++ rest)
  = Js.unitsOfAscii "sha256:" ++ take 6 rest ++ Js.unitsOfAscii "..." ++
    drop (length rest - 6) rest.
Proof.
  intros Hlen. unfold formatChecksum.
  rewrite unitsStartWith_app, hash_part. cbn [negb].
  destruct (Z.leb_spec (Z.of_nat (length rest)) 16); [lia|].
  unfold Js.substringFrom.
  rewrite !substring_inside by lia.
  change (Z.to_nat (6 - 0)) with 6%nat. change (Z.to_nat 0) with 0%nat.
  replace (Z.to_nat (Z.of_nat (length rest) - 6))
    with (length rest - 6)%nat by lia.
  replace (Z.to_nat (Z.of_nat (length rest) - (Z.of_nat (length rest) - 6)))
    with 6%nat by lia.
  rewrite drop_0.
  rewrite (take_ge (drop _ _)) by (rewrite length_drop; lia).
  reflexivity.
Qed.

Lemma length_append s1 s2 :
  String.length (s1 +:+ s2) = (String.length s1 + String.length s2)%nat.
Proof.
  induction s1 as [|c s1 IH]; [reflexivity|].
  change (String c s1 +:+ s2) with (String c (s1 +:+ s2)).
  simpl. rewrite IH. reflexivity.
Qed.

Lemma length_substring s : forall n m,
  (n + m <= String.length s)%nat ->
  String.length (String.substring n m s) = m.
Proof.
  induction s as [|c s IH]; intros n m H; simpl in H.
  - replace n with 0%nat by lia. replace m with 0%nat by lia. reflexivity.
  - destruct n as [|n]; simpl.
    + destruct m as [|m]; [reflexivity|]. simpl. rewrite IH by lia. reflexivity.
    + apply IH. lia.
Qed.

Lemma lowerHex_ascii c : isLowerHex c = true -> (nat_of_ascii c < 128)%nat.
Proof.
  unfold isLowerHex. cbv zeta. intros H.
  apply orb_prop in H as [H|H]; apply andb_prop in H as [_ H];
    apply Nat.leb_le in H; lia.
Qed.

(** X2: a computed checksum is an ASCII text, and its display form is
    ["sha256:"], its first six hexadecimal digits, three dots and its last
    six digits: 22 characters. *)
Theorem formatChecksum_of_computed (content : string) :
  exists digits,
    computeChecksum content = "sha256:" +:+ digits /\
    Forall (fun c => (nat_of_ascii c < 128)%nat)
           (list_ascii_of_string (computeChecksum content)) /\
    formatChecksum (Js.unitsOfAscii (computeChecksum content)) =
      Js.unitsOfAscii ("sha256:" +:+ String.substring 0 6 digits +:+ "..." +:+
                       String.substring 58 6 digits) /\
    length (formatChecksum (Js.unitsOfAscii (computeChecksum content)))
    = 22%nat.
Proof.
  unfold computeChecksum. set (d := Sha256.digest _).
  assert (Hlen : String.length (hex d) = 64%nat)
    by (rewrite ChecksumFacts.hex_length; reflexivity).
  exists (hex d). split; [reflexivity|]. split.
  { rewrite chars_app. apply Forall_app. split.
    - repeat constructor.
    - apply Forall_forall. intros c Hc. apply lowerHex_ascii.
      apply (ChecksumFacts.hex_lower d). apply list_elem_of_In, Hc. }
  assert (Hfmt : formatChecksum (Js.unitsOfAscii ("sha256:" +:+ hex d)) =
                 Js.unitsOfAscii ("sha256:" +:+ String.substring 0 6 (hex d)
                                  +:+ "..." +:+ String.substring 58 6 (hex d))).
  { rewrite !units_app, !units_substring.
    rewrite formatChecksum_long by (rewrite units_length; lia).
    rewrite units_length, Hlen. rewrite drop_0.
    rewrite (take_ge (drop _ _)) by (rewrite length_drop, units_length; lia).
    reflexivity. }
  split; [exact Hfmt|].
  rewrite Hfmt, units_length, !length_append.
  rewrite !length_substring by lia. reflexivity.
Qed.

(** X3: on the code units of any string, [formatChecksum] returns its
    argument unchanged when it does not start with ["sha256:"] or when at
    most 16 code units follow the prefix; its result is never longer than
    its argument, and formatting a formatted checksum changes nothing. *)
Theorem formatChecksum_shortens (checksum : list Z) :
  (Js.unitsStartWith (Js.unitsOfAscii "sha256:") checksum = false ->
   formatChecksum checksum = checksum) /\
  (length checksum <= 23 -> formatChecksum checksum = checksum)%nat /\
  (length (formatChecksum checksum) <= length checksum)%nat /\
  formatChecksum (formatChecksum checksum) = formatChecksum checksum.
Proof.
  destruct (Js.unitsStartWith (Js.unitsOfAscii "sha256:") checksum) eqn:E.
  - apply unitsStartWith_inv in E as [rest ->].
    destruct (Nat.le_gt_cases (length rest) 16) as [Hshort|Hlong].
    + rewrite !(formatChecksum_short rest Hshort). repeat split; auto.
    + rewrite (formatChecksum_long rest Hlong).
      set (a := take 6 rest).
      set (b := drop (length rest - 6) rest).
      assert (Ha : length a = 6%nat) by (subst a; rewrite length_take; lia).
      assert (Hb : length b = 6%nat) by (subst b; rewrite length_drop; lia).
      split; [discriminate|].
      split; [rewrite length_app; simpl; lia|].
      split; [rewrite !length_app, Ha, Hb; simpl; lia|].
      apply formatChecksum_short.
      rewrite !length_app, Ha, Hb. simpl. lia.
  - assert (Hid : formatChecksum checksum = checksum)
      by (unfold formatChecksum; rewrite E; reflexivity).
    rewrite !Hid. repeat split; auto.
Qed.

Lemma formatChecksum_shortens_witness :
  formatChecksum (Js.unitsOfAscii "md5:0123456789abcdef0123456789abcdef")
  = Js.unitsOfAscii "md5:0123456789abcdef0123456789abcdef" /\
  formatChecksum (Js.unitsOfAscii "sha256:" ++ repeat 233 9)
  = Js.unitsOfAscii "sha256:" ++ repeat 233 9.
Proof.
  destruct (formatChecksum_shortens
              (Js.unitsOfAscii "md5:0123456789abcdef0123456789abcdef"))
    as (H1 & _).
  destruct (formatChecksum_shortens
              (Js.unitsOfAscii "sha256:" ++ repeat 233 9)) as (_ & H2 & _).
  split; [apply H1; reflexivity|apply H2; simpl; lia].
Defined.

End ChecksumMore.
(* ===================================================================== *)
(** ** Further properties of the three-way merge *)
(* ===================================================================== *)

Module Diff3More.
Import Diff3 Diff3Spec Diff3Facts.

Section LoopA.
Variables a o b : list string.

(** Hunks of side A only, none of them touching the next: the regions
    rebuild [a]. *)
Lemma regionLoop_single_a hs : forall turns g po px results,
  0 <= g -> 0 <= po -> 0 <= px ->
  script o a g po px hs (len o) (len a) ->
  Forall (fun h => ab h = SideA) hs ->
  (length hs <= turns)%nat ->
  finishes o (regionLoop a o b turns hs (po, results)) results
           (Js.slice a px (len a)).
Proof.
  induction hs as [|h hs IH]; intros turns g po px results Hg Hpo Hpx H Hside Hturns.
  - rewrite regionLoop_nil. eapply finishes_end; eauto.
  - destruct turns as [|turns]; [simpl in Hturns; lia|].
    apply Forall_cons in Hside as [Ha Hside].
    pose proof H as (H1 & H2 & H3 & H4 & H5 & H6).
    destruct (script_le o a hs 1 _ _ _ _ ltac:(lia) H6) as [Ho Hx].
    cbn [regionLoop]. cbv zeta.
    destruct (advanceTo_spec o po (oStart h) results ltac:(lia))
      as (R0 & -> & Hclean0 & Hlines0).
    rewrite (pull_stop hs) by (eapply script_next; eauto).
    cbn [snd]. rewrite Ha.
    set (R1 := if abLength h >? 0
               then [Stable BufA (abStart h) (abLength h)
                       (Js.slice a (abStart h) (abStart h + abLength h))]
               else []).
    replace (if abLength h >? 0 then _ else _) with ((results ++ R0) ++ R1)
      by (subst R1; destruct (abLength h >? 0);
          [reflexivity|rewrite app_nil_r; reflexivity]).
    rewrite <- app_assoc.
    rewrite (slice_split a px (abStart h + abLength h) (len a)) by lia.
    eapply finishes_more; [| |apply (IH turns 1); eauto; simpl in Hturns; lia].
    + apply Forall_app. split; [exact Hclean0|].
      subst R1. destruct (abLength h >? 0); repeat constructor.
    + rewrite map_app, concat_app, Hlines0, H3.
      rewrite (slice_split a px (abStart h) (abStart h + abLength h)) by lia.
      f_equal. subst R1.
      destruct (Z.gtb_spec (abLength h) 0); simpl; [apply app_nil_r|].
      replace (abLength h) with 0 by lia. rewrite Z.add_0_r, slice_nil.
      reflexivity.
Qed.

End LoopA.

(** With [b] equal to [o] the merge is [a]. *)
Lemma diff3Merge_base_theirs a o :
  diff3Merge a o o = match a with [] => [] | _ => [Ok a] end.
Proof.
  apply diff3Merge_clean.
  rewrite diffIndices_same. cbn [map]. rewrite app_nil_r.
  pose proof (diffIndices_script o a SideA) as H.
  rewrite (sortHunks_sorted o a _ _ _ _ _ _ H).
  eapply finishes_lines; [|apply slice_all].
  apply (regionLoop_single_a a o o _ _ 0 0 0); try lia; [exact H|].
  apply Forall_forall. intros h Hh.
  apply list_elem_of_In, in_map_iff in Hh as (c & <- & _). reflexivity.
Qed.

End Diff3More.

Module MergeMore.
Import Merge.

Lemma merge_theirs_is_base (base ours : string) (labels : option Labels) :
  threeWayMerge base ours base labels = mkMergeResult true ours 0.
Proof.
  assert (Hb : MergeSpec.mergeBlocks base ours base = [Diff3.Ok (Js.splitLines ours)]).
  { unfold MergeSpec.mergeBlocks. rewrite Diff3More.diff3Merge_base_theirs.
    pose proof (LineFacts.splitLines_nonempty ours).
    destruct (Js.splitLines ours); [congruence|reflexivity]. }
  rewrite (MergeFacts.threeWayMerge_single_ok _ _ _ _ _ Hb).
  rewrite LineFacts.joinLines_splitLines. reflexivity.
Qed.

(** X4: when theirs equals base (only ours changed), the merge returns
    ours verbatim, with no conflict and success. *)
Theorem threeWayMerge_only_ours_changed
    (base ours theirs : string) (labels : option Labels) :
  theirs = base ->
  let r := threeWayMerge base ours theirs labels in
  content r = ours /\ conflictCount r = 0 /\ success r = true.
Proof.
  intros ->. rewrite merge_theirs_is_base. auto.
Qed.

Lemma threeWayMerge_only_ours_changed_witness :
  let base := Js.joinLines ["a"; "b"; "c"] in
  let ours := Js.joinLines ["a"; "mine"; "b"] in
  let r := threeWayMerge base ours base None in
  content r = ours /\ conflictCount r = 0 /\ success r = true.
Proof.
  apply (threeWayMerge_only_ours_changed
           (Js.joinLines ["a"; "b"; "c"]) (Js.joinLines ["a"; "mine"; "b"])
           (Js.joinLines ["a"; "b"; "c"]) None).
  reflexivity.
Defined.


(** *** Conflict markers and the outcome *)

Lemma includes_of_count pat s :
  (0 < Js.countMatches pat s)%nat -> Js.includes pat s = true.
Proof.
  intros H. destruct (Js.includes pat s) eqn:E; [reflexivity|].
  unfold Js.countMatches in H.
  rewrite (LineFacts.includes_count pat s E) in H. lia.
Qed.

Lemma count_of_includes pat s :
  pat <> "" ->
  Js.includes pat s = true -> (0 < Js.countMatches pat s)%nat.
Proof.
  intros Hpat. unfold Js.countMatches.
  induction s as [|c s IH]; cbn [Js.includes Js.countFrom]; intros H.
  - destruct pat; [congruence|discriminate H].
  - destruct (Js.stripPrefix pat (String c s)); [lia|auto].
Qed.

Lemma conflict_lines_count oursLabel theirsLabel blk :
  let lines := MergeSpec.blockLines oursLabel theirsLabel blk in
  let n := if MergeSpec.isConflict blk then 1%nat else 0%nat in
  (n <= MergeSpec.totalMatches "<<<<<<<" lines)%nat /\
  (n <= MergeSpec.totalMatches "=======" lines)%nat /\
  (n <= MergeSpec.totalMatches ">>>>>>>" lines)%nat.
Proof.
  destruct blk as [ok|a ai o oi b bi];
    cbn [MergeSpec.blockLines MergeSpec.isConflict]; cbv zeta;
    [repeat split; lia|].
  rewrite !LineFacts.totalMatches_app.
  cbn [MergeSpec.totalMatches fold_right].
  assert (H1 : Js.countMatches "<<<<<<<" ("<<<<<<< " +:+ oursLabel)
               = S (Js.countFrom "<<<<<<<" 0 oursLabel)) by reflexivity.
  assert (H2 : Js.countMatches "=======" "=======" = 1%nat) by reflexivity.
  assert (H3 : Js.countMatches ">>>>>>>" (">>>>>>> " +:+ theirsLabel)
               = S (Js.countFrom ">>>>>>>" 0 theirsLabel)) by reflexivity.
  rewrite H1, H2, H3. repeat split; lia.
Qed.

Lemma conflicts_counted oursLabel theirsLabel blocks :
  let lines := flat_map (MergeSpec.blockLines oursLabel theirsLabel) blocks in
  MergeSpec.conflictBlocks blocks <= Z.of_nat (MergeSpec.totalMatches "<<<<<<<" lines) /\
  MergeSpec.conflictBlocks blocks <= Z.of_nat (MergeSpec.totalMatches "=======" lines) /\
  MergeSpec.conflictBlocks blocks <= Z.of_nat (MergeSpec.totalMatches ">>>>>>>" lines).
Proof.
  unfold MergeSpec.conflictBlocks. cbv zeta.
  induction blocks as [|blk blocks IH]; [simpl; lia|].
  cbn [flat_map List.filter]. rewrite !LineFacts.totalMatches_app.
  destruct (conflict_lines_count oursLabel theirsLabel blk) as (H1 & H2 & H3).
  cbv zeta in H1, H2, H3.
  destruct (MergeSpec.isConflict blk); simpl length; lia.
Qed.

Lemma content_count pat base ours theirs labels :
  MergeSpec.noLF pat = true -> pat <> "" ->
  Js.countMatches pat (content (threeWayMerge base ours theirs labels)) =
  MergeSpec.totalMatches pat
    (flat_map (MergeSpec.blockLines
                 (labelOr labels Merge.ours "ours (your changes)")
                 (labelOr labels Merge.theirs "theirs (upstream)"))
              (MergeSpec.mergeBlocks base ours theirs)).
Proof.
  intros H1 H2. rewrite MergeFacts.threeWayMerge_unfold. cbv zeta.
  cbn [content]. apply LineFacts.countMatches_join; assumption.
Qed.

Lemma conflicts_have_markers base ours theirs labels :
  let r := threeWayMerge base ours theirs labels in
  success r = false ->
  hasConflictMarkers (content r) = true /\
  conflictCount r <= countConflicts (content r).
Proof.
  intros r Hs. subst r.
  destruct (conflicts_counted
              (labelOr labels Merge.ours "ours (your changes)")
              (labelOr labels Merge.theirs "theirs (upstream)")
              (MergeSpec.mergeBlocks base ours theirs)) as (H1 & H2 & H3).
  cbv zeta in H1, H2, H3.
  rewrite <- !content_count in H1, H2, H3 by (reflexivity || discriminate).
  assert (Hn : conflictCount (threeWayMerge base ours theirs labels)
               = MergeSpec.conflictBlocks (MergeSpec.mergeBlocks base ours theirs))
    by (rewrite MergeFacts.threeWayMerge_unfold; reflexivity).
  assert (Hpos : 0 < MergeSpec.conflictBlocks (MergeSpec.mergeBlocks base ours theirs)).
  { rewrite MergeFacts.threeWayMerge_unfold in Hs. cbv zeta in Hs.
    cbn [success] in Hs. apply Z.eqb_neq in Hs.
    unfold MergeSpec.conflictBlocks in *. lia. }
  split; [|unfold countConflicts; lia].
  unfold hasConflictMarkers.
  rewrite !includes_of_count by lia. reflexivity.
Qed.

(** X5: whenever the merge does not succeed, the content passes
    [hasConflictMarkers] and [countConflicts] finds at least
    [conflictCount] conflicts in it. *)
Theorem failed_merge_has_markers
    (base ours theirs : string) (labels : option Labels) :
  let r := threeWayMerge base ours theirs labels in
  success r = false ->
  hasConflictMarkers (content r) = true /\
  conflictCount r <= countConflicts (content r).
Proof. apply conflicts_have_markers. Qed.

Lemma failed_merge_has_markers_witness :
  let r := threeWayMerge "x" "<<<<<<< y" "z" None in
  hasConflictMarkers (content r) = true /\
  conflictCount r <= countConflicts (content r).
Proof.
  apply (failed_merge_has_markers "x" "<<<<<<< y" "z" None). reflexivity.
Defined.

(** X6: when none of base, ours, theirs and the labels in effect contains
    [<<<<<<<] or [>>>>>>>], [hasConflictMarkers] holds of the content
    exactly when the merge did not succeed. *)
Theorem markers_iff_failed
    (base ours theirs : string) (labels : option Labels) :
  MergeSpec.markerFree base = true ->
  MergeSpec.markerFree ours = true ->
  MergeSpec.markerFree theirs = true ->
  MergeSpec.markerFree (labelOr labels Merge.ours "ours (your changes)") = true ->
  MergeSpec.markerFree (labelOr labels Merge.theirs "theirs (upstream)") = true ->
  let r := threeWayMerge base ours theirs labels in
  hasConflictMarkers (content r) = negb (success r).
Proof.
  intros Hb Ho Ht Hlo Hlt r.
  destruct (success r) eqn:Hs; cbn [negb].
  - subst r.
    assert (Hz : Js.countMatches "<<<<<<<"
                   (content (threeWayMerge base ours theirs labels)) = 0%nat).
    { rewrite content_count by (reflexivity || discriminate).
      destruct (MergeFacts.blocks_count
                  (labelOr labels Merge.ours "ours (your changes)")
                  (labelOr labels Merge.theirs "theirs (upstream)")
                  (MergeSpec.mergeBlocks base ours theirs) Hlo Hlt) as [H1 _].
      { apply Diff3Facts.diff3Merge_all; apply MergeFacts.markerFree_lines;
          assumption. }
      cbv zeta in H1.
      rewrite MergeFacts.threeWayMerge_unfold in Hs. cbv zeta in Hs.
      cbn [success] in Hs. apply Z.eqb_eq in Hs. lia. }
    unfold hasConflictMarkers.
    destruct (Js.includes "<<<<<<<" _) eqn:E; [|reflexivity].
    apply count_of_includes in E; [lia|discriminate].
  - apply conflicts_have_markers. exact Hs.
Qed.

Lemma markers_iff_failed_witness :
  let r := threeWayMerge (Js.joinLines ["a"; "b"; "c"])
             (Js.joinLines ["a"; "B"; "c"; "d"])
             (Js.joinLines ["a"; "b"; "c"; "d"; "e"]) None in
  hasConflictMarkers (content r) = negb (success r).
Proof.
  apply (markers_iff_failed (Js.joinLines ["a"; "b"; "c"])
           (Js.joinLines ["a"; "B"; "c"; "d"])
           (Js.joinLines ["a"; "b"; "c"; "d"; "e"]) None); reflexivity.
Defined.


(** *** Where the lines of the content come from *)

Lemma blocks_fromInputs base ours theirs :
  Forall (Diff3Spec.blockAll (MergeOrigin.fromInputs base ours theirs))
         (MergeSpec.mergeBlocks base ours theirs).
Proof.
  unfold MergeSpec.mergeBlocks.
  apply Diff3Facts.diff3Merge_all; apply Forall_forall; intros l Hl;
    apply list_elem_of_In in Hl; unfold MergeOrigin.fromInputs; auto.
Qed.

Lemma no_conflict_blocks blocks :
  MergeSpec.conflictBlocks blocks = 0 ->
  Forall (fun blk => MergeSpec.isConflict blk = false) blocks.
Proof.
  unfold MergeSpec.conflictBlocks.
  induction blocks as [|blk blocks IH]; intros H; [constructor|].
  cbn [List.filter] in H.
  destruct (MergeSpec.isConflict blk) eqn:E; [simpl in H; lia|].
  constructor; auto.
Qed.

(** X7: the content is the join of lines each of which is a line of base,
    ours or theirs or one of the three lines written around a conflict;
    when the merge succeeds every line is a line of base, ours or
    theirs. *)
Theorem content_lines_origin
    (base ours theirs : string) (labels : option Labels) :
  let r := threeWayMerge base ours theirs labels in
  let oursLabel := labelOr labels Merge.ours "ours (your changes)" in
  let theirsLabel := labelOr labels Merge.theirs "theirs (upstream)" in
  exists lines,
    content r = Js.joinLines lines /\
    Forall (fun l => MergeOrigin.fromInputs base ours theirs l \/
                     MergeOrigin.markerLine oursLabel theirsLabel l) lines /\
    (success r = true ->
     Forall (MergeOrigin.fromInputs base ours theirs) lines).
Proof.
  intros r oursLabel theirsLabel. subst r.
  rewrite MergeFacts.threeWayMerge_unfold. cbv zeta. cbn [content success].
  fold oursLabel theirsLabel.
  pose proof (blocks_fromInputs base ours theirs) as Hall.
  exists (flat_map (MergeSpec.blockLines oursLabel theirsLabel)
                   (MergeSpec.mergeBlocks base ours theirs)).
  split; [reflexivity|]. split.
  - induction Hall as [|blk blocks Hblk _ IH]; [constructor|].
    cbn [flat_map]. apply Forall_app. split; [|exact IH].
    destruct blk as [ok|a ai o oi b bi]; cbn [MergeSpec.blockLines].
    + eapply Forall_impl; [exact Hblk|]. intros l Hl. left. exact Hl.
    + destruct Hblk as [Ha Hb]. unfold MergeOrigin.markerLine.
      repeat first [apply Forall_app; split | apply Forall_cons; split
                   | apply Forall_nil]; auto.
      * eapply Forall_impl; [exact Ha|]. intros l Hl. left. exact Hl.
      * eapply Forall_impl; [exact Hb|]. intros l Hl. left. exact Hl.
  - intros Hs. apply Z.eqb_eq, no_conflict_blocks in Hs.
    induction Hall as [|blk blocks Hblk _ IH]; [constructor|].
    apply Forall_cons in Hs as [Hc Hs].
    cbn [flat_map]. apply Forall_app. split; [|apply IH; exact Hs].
    destruct blk; [exact Hblk|discriminate].
Qed.

(** *** The labels *)

Lemma content_lines_origin_witness :
  exists lines,
    content (threeWayMerge "a" "b" "a" None) = Js.joinLines lines /\
    Forall (MergeOrigin.fromInputs "a" "b" "a") lines.
Proof.
  destruct (content_lines_origin "a" "b" "a" None) as (lines & Hc & _ & Hs).
  exists lines. split; [exact Hc|]. apply Hs. vm_compute. reflexivity.
Defined.

(** X8: a missing label and an empty label both give the default label:
    the result is the one of the call without labels. *)
Theorem empty_labels_are_defaults
    (base ours theirs : string) (oursLabel theirsLabel : option string) :
  (oursLabel = None \/ oursLabel = Some "") ->
  (theirsLabel = None \/ theirsLabel = Some "") ->
  threeWayMerge base ours theirs (Some (mkLabels oursLabel theirsLabel))
  = threeWayMerge base ours theirs None.
Proof.
  intros Ho Ht. rewrite !MergeFacts.threeWayMerge_unfold.
  destruct Ho as [-> | ->], Ht as [-> | ->]; reflexivity.
Qed.

Lemma empty_labels_are_defaults_witness :
  threeWayMerge "a" "b" "c" (Some (mkLabels (Some "") None))
  = threeWayMerge "a" "b" "c" None.
Proof.
  apply (empty_labels_are_defaults "a" "b" "c" (Some "") None); auto.
Defined.

Lemma clean_lines_any_label blocks a b c d :
  Forall (fun blk => MergeSpec.isConflict blk = false) blocks ->
  flat_map (MergeSpec.blockLines a b) blocks
  = flat_map (MergeSpec.blockLines c d) blocks.
Proof.
  induction 1 as [|blk blocks Hblk _ IH]; [reflexivity|].
  cbn [flat_map]. rewrite IH.
  destruct blk; [reflexivity|discriminate].
Qed.

(** X9: the labels change neither [success] nor [conflictCount], and the
    content of a successful merge does not depend on them. *)
Theorem labels_only_mark_conflicts
    (base ours theirs : string) (labels1 labels2 : option Labels) :
  let r1 := threeWayMerge base ours theirs labels1 in
  let r2 := threeWayMerge base ours theirs labels2 in
  success r1 = success r2 /\
  conflictCount r1 = conflictCount r2 /\
  (success r1 = true -> content r1 = content r2).
Proof.
  cbv zeta. rewrite !MergeFacts.threeWayMerge_unfold. cbv zeta.
  cbn [success conflictCount content].
  split; [reflexivity|]. split; [reflexivity|].
  intros Hs. apply Z.eqb_eq, no_conflict_blocks in Hs.
  f_equal. apply clean_lines_any_label. exact Hs.
Qed.

Lemma labels_only_mark_conflicts_witness :
  content (threeWayMerge "a" "b" "a" (Some (mkLabels (Some "mine") None)))
  = content (threeWayMerge "a" "b" "a" None).
Proof.
  apply (labels_only_mark_conflicts "a" "b" "a"
           (Some (mkLabels (Some "mine") None)) None).
  vm_compute. reflexivity.
Defined.

(** X10: the two detectors on any text.  [countConflicts] is never
    negative; it is zero exactly when the text has no run of seven
    less-than signs; and whenever [hasConflictMarkers] holds it counts at
    least one conflict. *)
Theorem detectors_agree (text : string) :
  0 <= countConflicts text /\
  (countConflicts text = 0 <-> Js.includes "<<<<<<<" text = false) /\
  (hasConflictMarkers text = true -> 1 <= countConflicts text).
Proof.
  unfold countConflicts, hasConflictMarkers.
  split; [lia|]. split; [split|].
  - intros H. destruct (Js.includes "<<<<<<<" text) eqn:E; [|reflexivity].
    apply count_of_includes in E; [lia|discriminate].
  - intros H. unfold Js.countMatches.
    rewrite (LineFacts.includes_count _ _ H). reflexivity.
  - intros H. apply andb_prop in H. destruct H as [H _].
    apply andb_prop in H. destruct H as [H _].
    apply count_of_includes in H; [lia|discriminate].
Qed.

Lemma detectors_agree_witness :
  1 <= countConflicts (Js.joinLines ["<<<<<<< ours"; "a"; "======="; "b";
                                     ">>>>>>> theirs"]).
Proof.
  apply (detectors_agree (Js.joinLines ["<<<<<<< ours"; "a"; "======="; "b";
                                        ">>>>>>> theirs"])).
  vm_compute. reflexivity.
Defined.

End MergeMore.
(* ===================================================================== *)
(** ** Further properties of the lock store *)
(* ===================================================================== *)

Module LockStoreMore.
Import LockStore LockStoreSpec.

Lemma update_reads h lockFile v name entry :
  readValue h lockFile = Some v ->
  exists h' lockFile',
    updateComponentEntry h lockFile name entry = Some (h', lockFile') /\
    readValue h' lockFile'
    = Some (mkLockFile (schema v) (version v) (<[name := entry]> (components v))) /\
    readValue h' lockFile = Some v.
Proof.
  intros Hv.
  destruct (LockStoreFacts.readValue_inv _ _ _ Hv) as (c & H1 & H2).
  destruct (LockStoreFacts.rebuild_spec h lockFile v
              (<[name := entry]> (components v)) Hv) as (Hread & _ & Hsame).
  eexists _, _. split; [|split; [exact Hread|exact Hsame]].
  rewrite (LockStoreFacts.updateComponentEntry_unfold _ _ _ _ _ _ _ _ H1 H2).
  cbv zeta. apply f_equal, surjective_pairing.
Qed.

Lemma remove_reads h lockFile v name :
  readValue h lockFile = Some v ->
  exists h' lockFile',
    removeComponentEntry h lockFile name = Some (h', lockFile') /\
    readValue h' lockFile'
    = Some (mkLockFile (schema v) (version v) (delete name (components v))) /\
    readValue h' lockFile = Some v.
Proof.
  intros Hv.
  destruct (LockStoreFacts.readValue_inv _ _ _ Hv) as (c & H1 & H2).
  destruct (LockStoreFacts.rebuild_spec h lockFile v
              (delete name (components v)) Hv) as (Hread & _ & Hsame).
  eexists _, _. split; [|split; [exact Hread|exact Hsame]].
  rewrite (LockStoreFacts.removeComponentEntry_unfold _ _ _ _ _ _ _ H1 H2).
  cbv zeta. apply f_equal, surjective_pairing.
Qed.

Lemma queries_of_value h lockFile v name :
  readValue h lockFile = Some v ->
  isComponentTracked h lockFile name = Some (hasProperty (components v) name) /\
  getComponentEntry h lockFile name
  = Some (if truthy (getProperty (components v) name)
          then getProperty (components v) name else Null).
Proof.
  intros Hv.
  destruct (LockStoreFacts.readValue_inv _ _ _ Hv) as (c & H1 & H2).
  unfold isComponentTracked, getComponentEntry, getComponents.
  rewrite H1, H2. split; reflexivity.
Qed.

(** X11: after [updateComponentEntry] the new store tracks the name and
    [getComponentEntry] returns the record just written; queries on the
    old store still see the old state. *)
Theorem update_then_query h lockFile v name entry :
  readValue h lockFile = Some v ->
  exists h' lockFile',
    updateComponentEntry h lockFile name entry = Some (h', lockFile') /\
    isComponentTracked h' lockFile' name = Some true /\
    getComponentEntry h' lockFile' name = Some (Entry entry) /\
    isComponentTracked h' lockFile name = isComponentTracked h lockFile name /\
    getComponentEntry h' lockFile name = getComponentEntry h lockFile name.
Proof.
  intros Hv.
  destruct (update_reads h lockFile v name entry Hv)
    as (h' & lf' & Hup & Hnew & Hold).
  exists h', lf'. split; [exact Hup|].
  destruct (queries_of_value _ _ _ name Hnew) as [Ht Hg].
  destruct (queries_of_value _ _ _ name Hold) as [Ht' Hg'].
  destruct (queries_of_value _ _ _ name Hv) as [Ht0 Hg0].
  rewrite Ht, Hg, Ht', Hg', Ht0, Hg0.
  unfold hasProperty, getProperty. cbn [components].
  rewrite lookup_insert_eq. auto.
Qed.

Lemma update_then_query_witness :
  exists h' lockFile',
    updateComponentEntry sampleHeap 1%positive "card" (sampleEntry "2.0.0")
    = Some (h', lockFile') /\
    getComponentEntry h' lockFile' "card" = Some (Entry (sampleEntry "2.0.0")).
Proof.
  destruct (update_then_query sampleHeap 1%positive
              (mkLockFile None "1.0" {[ "button" := sampleEntry "1.0.0" ]})
              "card" (sampleEntry "2.0.0") eq_refl)
    as (h' & lf' & Hup & _ & Hg & _).
  exists h', lf'. auto.
Defined.

(** X12: after [removeComponentEntry] of a name that is not a member of
    [Object.prototype], the new store does not track the name and
    [getComponentEntry] returns [null]. *)
Theorem remove_then_query h lockFile v name :
  readValue h lockFile = Some v ->
  name ∉ objectPrototypeKeys ->
  exists h' lockFile',
    removeComponentEntry h lockFile name = Some (h', lockFile') /\
    isComponentTracked h' lockFile' name = Some false /\
    getComponentEntry h' lockFile' name = Some Null.
Proof.
  intros Hv Hname.
  destruct (remove_reads h lockFile v name Hv) as (h' & lf' & Hrm & Hnew & _).
  exists h', lf'. split; [exact Hrm|].
  destruct (queries_of_value _ _ _ name Hnew) as [Ht Hg].
  rewrite Ht, Hg. unfold hasProperty, getProperty. cbn [components].
  rewrite lookup_delete_eq, bool_decide_eq_false_2 by exact Hname. auto.
Qed.

Lemma remove_then_query_witness :
  exists h' lockFile',
    removeComponentEntry sampleHeap 1%positive "button" = Some (h', lockFile') /\
    isComponentTracked h' lockFile' "button" = Some false /\
    getComponentEntry h' lockFile' "button" = Some Null.
Proof.
  apply (remove_then_query sampleHeap 1%positive
           (mkLockFile None "1.0" {[ "button" := sampleEntry "1.0.0" ]})
           "button" eq_refl).
  apply (bool_decide_unpack _). vm_compute. exact I.
Defined.

(** X13: a name that is a member of [Object.prototype] and has no entry is
    still reported as tracked, and [getComponentEntry] returns the
    inherited member instead of [null]. *)
Theorem inherited_name_is_tracked h lockFile v name :
  readValue h lockFile = Some v ->
  name ∈ objectPrototypeKeys ->
  components v !! name = None ->
  isComponentTracked h lockFile name = Some true /\
  getComponentEntry h lockFile name = Some (Inherited name).
Proof.
  intros Hv Hname Hnone.
  destruct (queries_of_value _ _ _ name Hv) as [Ht Hg].
  rewrite Ht, Hg. unfold hasProperty, getProperty.
  rewrite Hnone, bool_decide_eq_true_2 by exact Hname. auto.
Qed.

Lemma inherited_name_is_tracked_witness :
  isComponentTracked sampleHeap 1%positive "constructor" = Some true /\
  getComponentEntry sampleHeap 1%positive "constructor"
  = Some (Inherited "constructor").
Proof.
  apply (inherited_name_is_tracked sampleHeap 1%positive
           (mkLockFile None "1.0" {[ "button" := sampleEntry "1.0.0" ]})
           "constructor" eq_refl).
  - apply (bool_decide_unpack _). vm_compute. exact I.
  - reflexivity.
Defined.

(** X14: two updates under different names give the same store value in
    either order; two updates under the same name give the value of the
    last one alone. *)
Theorem updates_compose h lockFile v name1 entry1 name2 entry2 :
  readValue h lockFile = Some v ->
  exists h1 l1 h2 l2 k1 m1 k2 m2,
    updateComponentEntry h lockFile name1 entry1 = Some (h1, l1) /\
    updateComponentEntry h1 l1 name2 entry2 = Some (h2, l2) /\
    updateComponentEntry h lockFile name2 entry2 = Some (k1, m1) /\
    updateComponentEntry k1 m1 name1 entry1 = Some (k2, m2) /\
    (name1 <> name2 -> readValue h2 l2 = readValue k2 m2) /\
    (name1 = name2 -> readValue h2 l2 = readValue k1 m1).
Proof.
  intros Hv.
  destruct (update_reads h lockFile v name1 entry1 Hv)
    as (h1 & l1 & Hu1 & Hr1 & _).
  destruct (update_reads h1 l1 _ name2 entry2 Hr1)
    as (h2 & l2 & Hu2 & Hr2 & _).
  destruct (update_reads h lockFile v name2 entry2 Hv)
    as (k1 & m1 & Hw1 & Hs1 & _).
  destruct (update_reads k1 m1 _ name1 entry1 Hs1)
    as (k2 & m2 & Hw2 & Hs2 & _).
  exists h1, l1, h2, l2, k1, m1, k2, m2.
  repeat (split; [assumption|]).
  rewrite Hr2, Hs2, Hs1. cbn [schema version components]. split.
  - intros Hne. do 2 f_equal. apply insert_insert_ne. congruence.
  - intros ->. do 2 f_equal. apply insert_insert_eq.
Qed.

Lemma updates_compose_witness :
  exists h1 l1 h2 l2,
    updateComponentEntry sampleHeap 1%positive "card" (sampleEntry "1.0.0")
    = Some (h1, l1) /\
    updateComponentEntry h1 l1 "card" (sampleEntry "2.0.0") = Some (h2, l2) /\
    getComponents h2 l2
    = Some (<["card" := sampleEntry "2.0.0"]>
              {[ "button" := sampleEntry "1.0.0" ]}).
Proof.
  destruct (updates_compose sampleHeap 1%positive
              (mkLockFile None "1.0" {[ "button" := sampleEntry "1.0.0" ]})
              "card" (sampleEntry "1.0.0") "card" (sampleEntry "2.0.0") eq_refl)
    as (h1 & l1 & h2 & l2 & k1 & m1 & k2 & m2 & H1 & H2 & H3 & _ & _ & Hsame).
  exists h1, l1, h2, l2. split; [exact H1|]. split; [exact H2|].
  specialize (Hsame eq_refl).
  destruct (update_reads sampleHeap 1%positive
              (mkLockFile None "1.0" {[ "button" := sampleEntry "1.0.0" ]})
              "card" (sampleEntry "2.0.0") eq_refl)
    as (k1' & m1' & Hk & Hr & _).
  rewrite H3 in Hk. injection Hk as <- <-.
  rewrite Hr in Hsame.
  destruct (LockStoreFacts.readValue_inv _ _ _ Hsame) as (c & Ha & Hb).
  unfold getComponents. rewrite Ha, Hb. reflexivity.
Defined.

(** X15: tracking a name and then removing it gives the store value that
    removing it from the original store gives; when the name had no entry
    it gives the original value back. *)
Theorem update_then_remove h lockFile v name entry :
  readValue h lockFile = Some v ->
  exists h1 l1 h2 l2,
    updateComponentEntry h lockFile name entry = Some (h1, l1) /\
    removeComponentEntry h1 l1 name = Some (h2, l2) /\
    readValue h2 l2
    = Some (mkLockFile (schema v) (version v) (delete name (components v))) /\
    (components v !! name = None -> readValue h2 l2 = Some v).
Proof.
  intros Hv.
  destruct (update_reads h lockFile v name entry Hv)
    as (h1 & l1 & Hu & Hr1 & _).
  destruct (remove_reads h1 l1 _ name Hr1) as (h2 & l2 & Hrm & Hr2 & _).
  exists h1, l1, h2, l2. split; [exact Hu|]. split; [exact Hrm|].
  cbn [schema version components] in Hr2.
  rewrite delete_insert_eq in Hr2.
  split; [exact Hr2|].
  intros Hnone. rewrite Hr2, delete_id by exact Hnone.
  destruct v; reflexivity.
Qed.

Lemma update_then_remove_witness :
  exists h1 l1 h2 l2,
    updateComponentEntry sampleHeap 1%positive "card" (sampleEntry "2.0.0")
    = Some (h1, l1) /\
    removeComponentEntry h1 l1 "card" = Some (h2, l2) /\
    readValue h2 l2
    = Some (mkLockFile None "1.0" {[ "button" := sampleEntry "1.0.0" ]}).
Proof.
  destruct (update_then_remove sampleHeap 1%positive
              (mkLockFile None "1.0" {[ "button" := sampleEntry "1.0.0" ]})
              "card" (sampleEntry "2.0.0") eq_refl)
    as (h1 & l1 & h2 & l2 & Hu & Hrm & _ & Hback).
  exists h1, l1, h2, l2. split; [exact Hu|]. split; [exact Hrm|].
  apply Hback. reflexivity.
Defined.

Lemma fresh_store (h : heap) :
  exists h0 l0,
    readOrCreateLockFile h None = (h0, l0) /\
    readValue h0 l0 = Some (mkLockFile None "1.0" ∅) /\
    forall l x, h !! l = Some x -> h0 !! l = Some x.
Proof.
  unfold readOrCreateLockFile.
  destruct (alloc h (ComponentsObject ∅)) as [h1 c] eqn:E1.
  destruct (alloc h1 (LockFileObject None LOCK_FILE_VERSION c)) as [h0 l0] eqn:E0.
  assert (Hc : h1 !! c = Some (ComponentsObject ∅)).
  { pose proof (LockStoreFacts.alloc_lookup h (ComponentsObject ∅)) as H.
    rewrite E1 in H. exact H. }
  assert (Hl : h0 !! l0 = Some (LockFileObject None LOCK_FILE_VERSION c)).
  { pose proof (LockStoreFacts.alloc_lookup h1
                  (LockFileObject None LOCK_FILE_VERSION c)) as H.
    rewrite E0 in H. exact H. }
  assert (Hframe1 : forall l x, h !! l = Some x -> h1 !! l = Some x).
  { intros l x Hx.
    pose proof (LockStoreFacts.alloc_frame h (ComponentsObject ∅) l x Hx) as H.
    rewrite E1 in H. exact H. }
  assert (Hframe0 : forall l x, h1 !! l = Some x -> h0 !! l = Some x).
  { intros l x Hx.
    pose proof (LockStoreFacts.alloc_frame h1
                  (LockFileObject None LOCK_FILE_VERSION c) l x Hx) as H.
    rewrite E0 in H. exact H. }
  exists h0, l0. split; [reflexivity|]. split; [|auto].
  unfold readValue. rewrite Hl, (Hframe0 _ _ Hc). reflexivity.
Qed.

(** X16: when there is no lock file, [readOrCreateLockFile] gives a store
    with format version 1.0 and no component, and no object that existed
    is changed; the first [updateComponentEntry] on it gives a store with
    exactly that one entry.  An existing lock file is returned as it is. *)
Theorem readOrCreateLockFile_new (h : heap) :
  (forall lockFile, readOrCreateLockFile h (Some lockFile) = (h, lockFile)) /\
  exists h0 l0,
    readOrCreateLockFile h None = (h0, l0) /\
    readValue h0 l0 = Some (mkLockFile None "1.0" ∅) /\
    (forall l x, h !! l = Some x -> h0 !! l = Some x) /\
    forall name entry, exists h1 l1,
      updateComponentEntry h0 l0 name entry = Some (h1, l1) /\
      readValue h1 l1 = Some (mkLockFile None "1.0" {[ name := entry ]}).
Proof.
  split; [reflexivity|].
  destruct (fresh_store h) as (h0 & l0 & Hnew & Hread & Hframe).
  exists h0, l0. split; [exact Hnew|]. split; [exact Hread|].
  split; [exact Hframe|].
  intros name entry.
  destruct (update_reads h0 l0 _ name entry Hread) as (h2 & l2 & Hu & Hr & _).
  exists h2, l2. split; [exact Hu|]. rewrite Hr. reflexivity.
Qed.

Lemma readOrCreateLockFile_new_witness :
  exists h0 l0,
    readOrCreateLockFile sampleHeap None = (h0, l0) /\
    h0 !! 1%positive = Some (LockFileObject None "1.0" 2%positive).
Proof.
  destruct (readOrCreateLockFile_new sampleHeap)
    as (_ & h0 & l0 & Hnew & _ & Hframe & _).
  exists h0, l0. split; [exact Hnew|]. apply Hframe. reflexivity.
Defined.

End LockStoreMore.
(* ===================================================================== *)
(** ** The changelog range of the diff command and new snapshots *)
(* ===================================================================== *)

Module ChangelogMore.
Import DiffFormatter ChangelogSpec.

Lemma index_or_absent entries v :
  versionAbsent entries v \/ exists i, indexOfVersion entries v i.
Proof.
  induction entries as [|e rest IH].
  - left. intros x [].
  - destruct (decide (version e = v)) as [Hv|Hv].
    + right. exists 0%nat. split; [exists e; split; [reflexivity|exact Hv]|].
      intros k x Hk. lia.
    + destruct IH as [Habs|[i [(x & Hx & Hxv) Hfirst]]].
      * left. intros x [<-|Hx]; [exact Hv|apply Habs, Hx].
      * right. exists (S i). split; [exists x; split; assumption|].
        intros k y Hk Hy. destruct k as [|k].
        -- injection Hy as <-. exact Hv.
        -- apply (Hfirst k y); [lia|exact Hy].
Qed.

Lemma indexOfVersion_unique entries v i j :
  indexOfVersion entries v i -> indexOfVersion entries v j -> i = j.
Proof.
  intros [(e & He & Hv) Hi] [(x & Hx & Hxv) Hj].
  destruct (Nat.lt_trichotomy i j) as [Hlt|[Heq|Hlt]]; [|exact Heq|].
  - exfalso. apply (Hj i e Hlt He Hv).
  - exfalso. apply (Hi j x Hlt Hx Hxv).
Qed.

(** The range when both versions are found. *)
Lemma range_explicit entries a b i j :
  indexOfVersion entries a i -> indexOfVersion entries b j ->
  DiffCommand.getEntriesBetweenVersions entries a b
  = reverse (take (Nat.max i j - Nat.min i j + 1) (drop (Nat.min i j) entries)).
Proof.
  intros Hi Hj. unfold DiffCommand.getEntriesBetweenVersions.
  rewrite (DiffFormatterFacts.findIndex_present _ _ _ Hi),
          (DiffFormatterFacts.findIndex_present _ _ _ Hj).
  apply DiffFormatterFacts.indexOfVersion_lt in Hi, Hj.
  destruct (Z.eqb_spec (Z.of_nat i) (-1)); [lia|].
  destruct (Z.eqb_spec (Z.of_nat j) (-1)); [lia|].
  cbn [orb]. cbv zeta.
  rewrite JsFacts.slice_inside by lia.
  rewrite JsFacts.rev_reverse.
  f_equal. f_equal; [lia|f_equal; lia].
Qed.

Lemma range_absent entries a b :
  versionAbsent entries a \/ versionAbsent entries b ->
  DiffCommand.getEntriesBetweenVersions entries a b = [].
Proof.
  intros [H|H]; unfold DiffCommand.getEntriesBetweenVersions;
    rewrite (DiffFormatterFacts.findIndex_absent _ _ H); [reflexivity|].
  rewrite orb_true_r. reflexivity.
Qed.

Lemma absent_not_indexed entries v i :
  versionAbsent entries v -> indexOfVersion entries v i -> False.
Proof.
  intros Habs [(e & He & Hv) _]. apply (Habs e); [|exact Hv].
  apply list_elem_of_In. eapply list_elem_of_lookup_2, He.
Qed.

Lemma range_length entries a b i j :
  indexOfVersion entries a i -> indexOfVersion entries b j ->
  length (take (Nat.max i j - Nat.min i j + 1) (drop (Nat.min i j) entries))
  = (Nat.max i j - Nat.min i j + 1)%nat.
Proof.
  intros Hi Hj. apply DiffFormatterFacts.indexOfVersion_lt in Hi, Hj.
  rewrite length_take, length_drop. lia.
Qed.

(** X17: the range of changelog entries the diff command prints.  It is
    the range of the formatter on every input; it lists entries of the
    changelog only; it is empty exactly when one of the two versions has
    no entry; and when the from-version is not listed before the
    to-version, its first entry is the from-version's own entry and its
    last entry is the to-version's entry, so a version compared with
    itself gives that one entry. *)
Theorem getEntriesBetweenVersions_range entries a b :
  DiffCommand.getEntriesBetweenVersions entries a b
  = filterEntriesBetweenVersions entries a b /\
  (forall e, In e (DiffCommand.getEntriesBetweenVersions entries a b) ->
             In e entries) /\
  (DiffCommand.getEntriesBetweenVersions entries a b = [] <->
   versionAbsent entries a \/ versionAbsent entries b) /\
  (forall i j, indexOfVersion entries a i -> indexOfVersion entries b j ->
     (j <= i)%nat ->
     exists ea eb,
       entries !! i = Some ea /\ version ea = a /\
       entries !! j = Some eb /\ version eb = b /\
       head (DiffCommand.getEntriesBetweenVersions entries a b) = Some ea /\
       last (DiffCommand.getEntriesBetweenVersions entries a b) = Some eb /\
       (a = b -> DiffCommand.getEntriesBetweenVersions entries a b = [ea])).
Proof.
  split; [reflexivity|]. split; [|split].
  - intros e. unfold DiffCommand.getEntriesBetweenVersions.
    destruct (_ || _); [intros []|]. cbv zeta.
    rewrite <- in_rev. apply Diff3Facts.slice_In.
  - split; [|apply range_absent].
    intros Hnil.
    destruct (index_or_absent entries a) as [Ha|[i Hi]]; [left; exact Ha|].
    destruct (index_or_absent entries b) as [Hb|[j Hj]]; [right; exact Hb|].
    exfalso. rewrite (range_explicit _ _ _ _ _ Hi Hj) in Hnil.
    apply (f_equal length) in Hnil.
    rewrite length_reverse, (range_length _ _ _ _ _ Hi Hj) in Hnil.
    simpl in Hnil. lia.
  - intros i j Hi Hj Hji.
    pose proof (range_length _ _ _ _ _ Hi Hj) as Hlen.
    rewrite (range_explicit _ _ _ _ _ Hi Hj).
    destruct Hi as [(ea & Hea & Hva) Hfa], Hj as [(eb & Heb & Hvb) Hfb].
    exists ea, eb. repeat (split; [assumption|]).
    replace (Nat.max i j) with i in * by lia.
    replace (Nat.min i j) with j in * by lia.
    split; [|split].
    + rewrite head_reverse, last_lookup, Hlen.
      rewrite lookup_take_lt by lia. rewrite lookup_drop.
      replace (j + Nat.pred (i - j + 1))%nat with i by lia. exact Hea.
    + rewrite last_reverse, head_lookup.
      rewrite lookup_take_lt by lia. rewrite lookup_drop.
      replace (j + 0)%nat with j by lia. exact Heb.
    + intros Hab. rewrite <- Hab in Hvb.
      assert (i = j).
      { destruct (Nat.eq_dec i j) as [|Hne]; [assumption|].
        exfalso. apply (Hfa j eb); [lia|exact Heb|exact Hvb]. }
      subst j. replace (i - i + 1)%nat with 1%nat by lia.
      rewrite (drop_S _ _ _ Hea). rewrite Heb in Hea. injection Hea as ->.
      reflexivity.
Qed.

Lemma getEntriesBetweenVersions_range_witness :
  let e v := mkChangelogEntry v "2025-01-01T00:00:00.000Z"
               [mkChange fixed "patch"] None in
  let entries := [e "2.0.0"; e "1.1.0"; e "1.0.0"] in
  head (DiffCommand.getEntriesBetweenVersions entries "1.1.0" "2.0.0")
  = Some (e "1.1.0") /\
  last (DiffCommand.getEntriesBetweenVersions entries "1.1.0" "2.0.0")
  = Some (e "2.0.0").
Proof.
  intros e entries.
  destruct (getEntriesBetweenVersions_range entries "1.1.0" "2.0.0")
    as (_ & _ & _ & Hends).
  destruct (Hends 1%nat 0%nat) as (ea & eb & Ha & _ & Hb & _ & Hh & Hl & _).
  - split; [exists (e "1.1.0"); split; reflexivity|].
    intros k x Hk Hx. destruct k as [|k]; [|lia].
    injection Hx as <-. discriminate.
  - split; [exists (e "2.0.0"); split; reflexivity|].
    intros k x Hk. lia.
  - lia.
  - injection Ha as <-. injection Hb as <-. split; assumption.
Defined.

Import Registry Snapshot.

Lemma findIndex_cons_other (x : ChangelogEntry) rest v i :
  version x <> v -> indexOfVersion rest v i ->
  Js.findIndex (fun e => String.eqb (version e) v) (x :: rest)
  = Z.of_nat i + 1.
Proof.
  intros Hx Hi.
  assert (Hi' : indexOfVersion (x :: rest) v (S i)).
  { destruct Hi as [(e & He & Hv) Hfirst]. split; [exists e; split; assumption|].
    intros k y Hk Hy. destruct k as [|k].
    - injection Hy as <-. exact Hx.
    - apply (Hfirst k y); [lia|exact Hy]. }
  rewrite (DiffFormatterFacts.findIndex_present _ _ _ Hi'). lia.
Qed.

Lemma findIndex_cons_same (x : ChangelogEntry) rest v :
  version x = v ->
  Js.findIndex (fun e => String.eqb (version e) v) (x :: rest) = 0.
Proof.
  intros <-. unfold Js.findIndex. cbn [Js.findIndexFrom].
  rewrite String.eqb_refl. reflexivity.
Qed.

Lemma findIndex_cons_absent (x : ChangelogEntry) rest v :
  version x <> v -> versionAbsent rest v ->
  Js.findIndex (fun e => String.eqb (version e) v) (x :: rest) = -1.
Proof.
  intros Hx Habs. apply DiffFormatterFacts.findIndex_absent.
  intros e [<-|He]; [exact Hx|apply Habs, He].
Qed.

Lemma range_to_head first rest a i :
  indexOfVersion (first :: rest) a i ->
  filterEntriesBetweenVersions (first :: rest) a (version first)
  = rev (take (S i) (first :: rest)).
Proof.
  intros Hi. unfold filterEntriesBetweenVersions.
  rewrite (DiffFormatterFacts.findIndex_present _ _ _ Hi).
  rewrite (findIndex_cons_same first rest _ eq_refl).
  apply DiffFormatterFacts.indexOfVersion_lt in Hi.
  destruct (Z.eqb_spec (Z.of_nat i) (-1)); [lia|].
  cbn [orb Z.eqb]. cbv zeta.
  rewrite JsFacts.slice_inside by lia.
  replace (Z.to_nat (Z.max (Z.of_nat i) 0 + 1 - Z.min (Z.of_nat i) 0))
    with (S i) by lia.
  replace (Z.to_nat (Z.min (Z.of_nat i) 0)) with 0%nat by lia.
  rewrite drop_0. reflexivity.
Qed.

Lemma range_cons_new x old a i :
  version x <> a -> indexOfVersion old a i ->
  filterEntriesBetweenVersions (x :: old) a (version x)
  = rev (take (S i) old) ++ [x].
Proof.
  intros Hx Hi. unfold filterEntriesBetweenVersions.
  rewrite (findIndex_cons_same x old _ eq_refl).
  rewrite (findIndex_cons_other x old a i Hx Hi).
  apply DiffFormatterFacts.indexOfVersion_lt in Hi.
  destruct (Z.eqb_spec (Z.of_nat i + 1) (-1)); [lia|].
  cbn [orb Z.eqb]. cbv zeta.
  rewrite JsFacts.slice_inside by (cbn [length]; lia).
  replace (Z.to_nat (Z.max (Z.of_nat i + 1) 0 + 1 - Z.min (Z.of_nat i + 1) 0))
    with (S (S i)) by lia.
  replace (Z.to_nat (Z.min (Z.of_nat i + 1) 0)) with 0%nat by lia.
  rewrite drop_0. reflexivity.
Qed.

(** X18: what a new snapshot does to the changelog.  The new entry is put
    before the entries there were, which stay as they are, and the current
    version becomes the version of the first entry.  For a user on another
    version [a] the entries listed up to the new current version are the
    entries that were listed up to the former first entry, followed by the
    new entry; when [a] has no entry nothing is listed; and a user on the
    new version is shown the new entry alone. *)
Theorem recordSnapshot_extends_range existing component version date
    changeEntries breaking :
  let old := match existing with Some c => entries c | None => [] end in
  let cl := recordSnapshot existing component version date changeEntries
              breaking in
  let newEntry := mkChangelogEntry version date changeEntries
                    (if breaking then Some true else None) in
  entries cl = newEntry :: old /\
  currentVersion cl = version /\
  Registry.component cl
  = match existing with Some c => Registry.component c | None => component end /\
  filterEntriesBetweenVersions (entries cl) version (currentVersion cl)
  = [newEntry] /\
  forall a, a <> version ->
    (versionAbsent old a ->
     filterEntriesBetweenVersions (entries cl) a (currentVersion cl) = []) /\
    (forall first rest i,
       old = first :: rest -> indexOfVersion old a i ->
       filterEntriesBetweenVersions (entries cl) a (currentVersion cl)
       = filterEntriesBetweenVersions old a (DiffFormatter.version first)
         ++ [newEntry]).
Proof.
  intros old cl newEntry.
  assert (Hentries : entries cl = newEntry :: old).
  { subst cl old newEntry. unfold recordSnapshot. destruct existing; reflexivity. }
  assert (Hcur : currentVersion cl = version).
  { subst cl. unfold recordSnapshot. destruct existing; reflexivity. }
  split; [exact Hentries|]. split; [exact Hcur|].
  split; [subst cl; unfold recordSnapshot; destruct existing; reflexivity|].
  rewrite Hentries, Hcur.
  split.
  - unfold filterEntriesBetweenVersions.
    rewrite (findIndex_cons_same newEntry old version eq_refl).
    cbn [orb Z.eqb]. cbv zeta.
    rewrite JsFacts.slice_inside by (cbn [length]; lia). reflexivity.
  - intros a Ha. split.
    + intros Habs. unfold filterEntriesBetweenVersions.
      rewrite (findIndex_cons_absent newEntry old a); [reflexivity| |exact Habs].
      intros E. apply Ha. symmetry. exact E.
    + intros first rest i Hold Hi.
      transitivity (rev (take (S i) old) ++ [newEntry]).
      * apply (range_cons_new newEntry old a i); [|exact Hi].
        intros E. apply Ha. symmetry. exact E.
      * f_equal. revert Hi. rewrite Hold. intros Hi.
        symmetry. apply range_to_head, Hi.
Qed.

Lemma recordSnapshot_extends_range_witness :
  let e v := mkChangelogEntry v "2025-01-01T00:00:00.000Z"
               [mkChange fixed "patch"] None in
  let old := mkChangelog "button" "1.1.0" [e "1.1.0"; e "1.0.0"] in
  let cl := recordSnapshot (Some old) "button" "2.0.0"
              "2025-01-01T00:00:00.000Z" [mkChange fixed "patch"] false in
  filterEntriesBetweenVersions (entries cl) "1.0.0" (currentVersion cl)
  = filterEntriesBetweenVersions (entries old) "1.0.0" "1.1.0" ++ [e "2.0.0"].
Proof.
  intros e old cl.
  destruct (recordSnapshot_extends_range (Some old) "button" "2.0.0"
              "2025-01-01T00:00:00.000Z" [mkChange fixed "patch"] false)
    as (_ & _ & _ & _ & Hother).
  destruct (Hother "1.0.0") as [_ Hext]; [discriminate|].
  apply (Hext (e "1.1.0") [e "1.0.0"] 1%nat); [reflexivity|].
  split; [exists (e "1.0.0"); split; reflexivity|].
  intros k x Hk Hx. destruct k as [|k]; [|lia].
  injection Hx as <-. discriminate.
Defined.

End ChangelogMore.
(* ===================================================================== *)
(** ** The registry item, the component file and the type check script *)
(* ===================================================================== *)

Module FindFacts.

Lemma find_split {A} (p : A -> bool) l x :
  List.find p l = Some x ->
  exists pre post, l = pre ++ x :: post /\ p x = true /\
                   Forall (fun y => p y = false) pre.
Proof.
  induction l as [|y rest IH]; [discriminate|].
  cbn [List.find]. destruct (p y) eqn:E.
  - intros [= ->]. exists [], rest. repeat split; [exact E|constructor].
  - intros H. destruct (IH H) as (pre & post & -> & Hx & Hpre).
    exists (y :: pre), post. repeat split; [exact Hx|].
    constructor; assumption.
Qed.

Lemma find_first {A} (p : A -> bool) pre x post :
  p x = true -> Forall (fun y => p y = false) pre ->
  List.find p (pre ++ x :: post) = Some x.
Proof.
  intros Hx Hpre. induction Hpre as [|y pre Hy _ IH].
  - cbn [app List.find]. rewrite Hx. reflexivity.
  - cbn [app List.find]. rewrite Hy. exact IH.
Qed.

Lemma find_all_false {A} (p : A -> bool) l :
  Forall (fun y => p y = false) l -> List.find p l = None.
Proof.
  induction 1 as [|y rest Hy _ IH]; [reflexivity|].
  cbn [List.find]. rewrite Hy. exact IH.
Qed.

Lemma find_None_all {A} (p : A -> bool) l :
  List.find p l = None -> Forall (fun y => p y = false) l.
Proof.
  induction l as [|y rest IH]; [constructor|].
  cbn [List.find]. destruct (p y) eqn:E; [discriminate|].
  intros H. constructor; [exact E|apply IH, H].
Qed.

End FindFacts.

Module RegistryMore.
Import Registry RegistrySpec.

Lemma content_or_empty (first : RegistryFile) :
  (if String.eqb (content first) "" then "" else content first)
  = content first.
Proof.
  destruct (String.eqb_spec (content first) "") as [->|]; reflexivity.
Qed.

Lemma extractComponentCode_unfold item :
  extractComponentCode item
  = match List.find isUiFile (files item) with
    | None =>
        match files item with
        | first :: _ => if String.eqb (content first) "" then "" else content first
        | [] => ""
        end
    | Some file => content file
    end.
Proof. reflexivity. Qed.

(** X19: the code [extractComponentCode] returns.  When the item has a UI
    file (by type or by path) it is the content of the first one, wherever
    it stands in the list; when it has none it is the content of the first
    file, and the empty text when there is no file; so it is always empty
    or the content of a file of the item. *)
Theorem extractComponentCode_choice (item : RegistryItem) :
  (forall pre f post,
     files item = pre ++ f :: post -> isUiFile f = true ->
     Forall (fun g => isUiFile g = false) pre ->
     extractComponentCode item = content f) /\
  (Forall (fun g => isUiFile g = false) (files item) ->
   extractComponentCode item
   = match files item with first :: _ => content first | [] => "" end) /\
  (extractComponentCode item = "" \/
   exists f, In f (files item) /\ extractComponentCode item = content f).
Proof.
  split; [|split].
  - intros pre f post Hfiles Hf Hpre. rewrite extractComponentCode_unfold.
    rewrite Hfiles.
    rewrite (FindFacts.find_first isUiFile pre f post Hf Hpre). reflexivity.
  - intros Hall. rewrite extractComponentCode_unfold.
    rewrite (FindFacts.find_all_false isUiFile _ Hall).
    destruct (files item) as [|first rest]; [reflexivity|].
    apply content_or_empty.
  - rewrite extractComponentCode_unfold.
    destruct (List.find _ (files item)) as [f|] eqn:E.
    + right. exists f. split; [|reflexivity].
      apply (List.find_some _ _ E).
    + destruct (files item) as [|first rest]; [left; reflexivity|].
      right. exists first. split; [left; reflexivity|].
      apply content_or_empty.
Qed.

Lemma extractComponentCode_choice_witness :
  let item :=
    mkItem "button" "registry:ui"
      [mkFile "lib/utils.ts" "export {}" "registry:lib" None;
       mkFile "registry/components/ui/button.tsx" "button code"
              "registry:component" None]
      None in
  extractComponentCode item = "button code".
Proof.
  intros item.
  destruct (extractComponentCode_choice item) as (Hfirst & _ & _).
  apply (Hfirst [mkFile "lib/utils.ts" "export {}" "registry:lib" None]
                (mkFile "registry/components/ui/button.tsx" "button code"
                        "registry:component" None) []).
  - reflexivity.
  - reflexivity.
  - repeat constructor.
Defined.

End RegistryMore.

Module LocatorMore.
Import ComponentLocator LocatorSpec.

Section Report.
Variable join : list string -> string.
Variable fileExists : string -> bool.

Lemma firstExisting_Some paths p :
  firstExisting fileExists paths = Some p ->
  In p paths /\ fileExists p = true.
Proof.
  induction paths as [|q rest IH]; [discriminate|].
  cbn [firstExisting]. destruct (fileExists q) eqn:E.
  - intros [= ->]. split; [left; reflexivity|exact E].
  - intros H. destruct (IH H) as [Hin Hp]. split; [right; exact Hin|exact Hp].
Qed.

Lemma firstExisting_None paths :
  firstExisting fileExists paths = None ->
  Forall (fun p => fileExists p = false) paths.
Proof.
  induction paths as [|q rest IH]; [constructor|].
  cbn [firstExisting]. destruct (fileExists q) eqn:E; [discriminate|].
  intros H. constructor; [exact E|apply IH, H].
Qed.

(** X20: what [locateComponent] reports, for any file system and any
    [path.join].  The flag [exists] is the truth about the reported path;
    when it is false none of the four common places holds the file; when
    the first common place holds the file and no alias is configured that
    place is reported; and without a [components.json] the reported path
    is one of the four common places. *)
Theorem locateComponent_report (componentName cwd : string)
    (readConfig : option ComponentsConfig) :
  let r := locateComponent join fileExists componentName cwd readConfig in
  let fileName := componentName +:+ ".tsx" in
  exists_ r = fileExists (path r) /\
  (exists_ r = false ->
   Forall (fun p => fileExists p = false) (commonPaths join cwd fileName)) /\
  (fileExists (join [cwd; "components.json"]) = false ->
   In (path r) (commonPaths join cwd fileName) /\
   (fileExists (join [cwd; "components"; "ui"; fileName]) = true ->
    r = mkLocation (join [cwd; "components"; "ui"; fileName]) true)).
Proof.
  intros r fileName. subst r. unfold locateComponent.
  fold fileName.
  set (componentAlias :=
         if fileExists (join [cwd; "components.json"])
         then match nonEmpty (aliasOf readConfig ui) with
              | Some a => Some a
              | None => nonEmpty (aliasOf readConfig components)
              end
         else None).
  set (aliasPaths := match componentAlias with Some a => _ | None => [] end).
  change [join [cwd; "components"; "ui"; fileName];
          join [cwd; "src"; "components"; "ui"; fileName];
          join [cwd; "app"; "components"; "ui"; fileName];
          join [cwd; "lib"; "components"; "ui"; fileName]]
    with (commonPaths join cwd fileName).
  destruct (firstExisting fileExists (aliasPaths ++ commonPaths join cwd fileName))
    as [p|] eqn:E.
  - destruct (firstExisting_Some _ _ E) as [Hin Hp].
    cbn [exists_ path]. split; [symmetry; exact Hp|].
    split; [discriminate|].
    intros Hcfg. subst componentAlias aliasPaths. rewrite Hcfg in *.
    cbn [app] in Hin, E. split; [exact Hin|].
    intros Hfirst. f_equal.
    unfold commonPaths in E. cbn [firstExisting] in E.
    rewrite Hfirst in E. injection E as <-. reflexivity.
  - apply firstExisting_None in E.
    apply Forall_app in E. destruct E as [Halias Hcommon].
    cbn [exists_ path]. split; [|split; [intros _; exact Hcommon|]].
    + symmetry. subst aliasPaths.
      destruct componentAlias as [a|].
      * cbn [app] in Halias. apply Forall_cons in Halias. apply Halias.
      * unfold commonPaths in Hcommon. apply Forall_cons in Hcommon.
        apply Hcommon.
    + intros Hcfg. subst componentAlias. rewrite Hcfg.
      split; [left; reflexivity|].
      intros Hfirst. exfalso.
      unfold commonPaths in Hcommon. apply Forall_cons in Hcommon.
      destruct Hcommon as [Hc _]. congruence.
Qed.

End Report.

Lemma locateComponent_report_witness :
  let join := String.concat "/" in
  let fileExists := String.eqb "/app/src/components/ui/button.tsx" in
  locateComponent join fileExists "button" "/app" None
  = mkLocation "/app/src/components/ui/button.tsx" true.
Proof.
  intros join fileExists.
  destruct (locateComponent_report join fileExists "button" "/app" None)
    as (Hflag & _ & Hnoconfig).
  destruct (Hnoconfig eq_refl) as [Hin _].
  destruct (locateComponent join fileExists "button" "/app" None)
    as [p e] eqn:E.
  cbn [exists_ path] in Hflag, Hin. rewrite Hflag.
  destruct Hin as [<-|[<-|[<-|[<-|[]]]]]; try reflexivity;
    vm_compute in E; discriminate.
Defined.

End LocatorMore.

Module TypecheckMore.
Import TypecheckStaged TypecheckSpec.

Lemma textScript_true sc name : textScript sc name = true <-> isText sc name.
Proof.
  unfold textScript, isText. split.
  - destruct (sc !! name) as [[c|]|]; try discriminate. intros _. exists c.
    reflexivity.
  - intros [c ->]. reflexivity.
Qed.

Lemma textScript_false sc name : textScript sc name = false <-> ~ isText sc name.
Proof.
  rewrite <- textScript_true. destruct (textScript sc name); split;
    congruence.
Qed.

(** X21: the script [pickTypecheckScript] names.  The name it returns is
    one of check, type-check, typecheck, check-types, its entry is a
    string, and no name before it in that order has a string entry; it
    returns nothing exactly when there is no scripts object or none of the
    four names has a string entry. *)
Theorem pickTypecheckScript_priority
    (scripts : option (gmap string scriptValue)) :
  (forall name, pickTypecheckScript scripts = Some name ->
     exists sc pre post,
       scripts = Some sc /\ candidates = pre ++ name :: post /\
       isText sc name /\ Forall (fun n => ~ isText sc n) pre) /\
  (pickTypecheckScript scripts = None <->
   forall sc, scripts = Some sc -> Forall (fun n => ~ isText sc n) candidates).
Proof.
  split.
  - intros name H. destruct scripts as [sc|]; [|discriminate].
    apply (FindFacts.find_split (textScript sc)) in H.
    destruct H as (pre & post & Hc & Hname & Hpre).
    exists sc, pre, post. split; [reflexivity|]. split; [exact Hc|].
    split; [apply textScript_true, Hname|].
    eapply Forall_impl; [exact Hpre|].
    intros n Hn. apply textScript_false, Hn.
  - split.
    + intros H sc ->.
      apply (FindFacts.find_None_all (textScript sc)) in H.
      eapply Forall_impl; [exact H|].
      intros n Hn. apply textScript_false, Hn.
    + intros H. destruct scripts as [sc|]; [|reflexivity].
      apply (FindFacts.find_all_false (textScript sc)).
      eapply Forall_impl; [exact (H sc eq_refl)|].
      intros n Hn. apply textScript_false, Hn.
Qed.

Lemma pickTypecheckScript_priority_witness :
  let sc : gmap string scriptValue :=
    {[ "check" := NotText; "typecheck" := ScriptText "tsc --noEmit";
       "check-types" := ScriptText "tsc" ]} in
  exists pre post,
    candidates = pre ++ "typecheck" :: post /\
    Forall (fun n => ~ isText sc n) pre.
Proof.
  intros sc.
  destruct (pickTypecheckScript_priority (Some sc)) as [Hsome _].
  destruct (Hsome "typecheck" eq_refl)
    as (sc' & pre & post & Hsc & Hc & _ & Hpre).
  injection Hsc as <-. exists pre, post. split; assumption.
Defined.

End TypecheckMore.
(* ===================================================================== *)
(** ** The update and add commands *)
(* ===================================================================== *)

Module UpdateMore.
Import LockStore UpdateCommand.

Lemma compareChecksums_refl c : Checksum.compareChecksums c c = true.
Proof. unfold Checksum.compareChecksums. apply bool_decide_eq_true. reflexivity. Qed.

Lemma computeChecksum_normalized c1 c2 :
  Js.replaceCRLF c1 = Js.replaceCRLF c2 ->
  Checksum.computeChecksum c1 = Checksum.computeChecksum c2.
Proof. intros H. unfold Checksum.computeChecksum. rewrite H. reflexivity. Qed.

Lemma eqb_false_of_neq a b : a <> b -> String.eqb a b = false.
Proof. intros H. apply String.eqb_neq, H. Qed.

(** X22: with [--force], or when the file is the installed one up to CR LF
    line endings, an update to another version writes the registry code
    and records it, whatever the other option, the answers to the prompts
    and the base version are: nothing is asked and nothing is merged. *)
Theorem applyUpdate_overwrites (force merge : bool) (entry : ComponentLockEntry)
    (registryItem : Registry.RegistryItem) (latestVersion oursContent : string)
    (answer : option strategyAnswer) (baseContent : option string)
    (confirmOverwrite : bool) (now installedContent : string) :
  installedVersion entry <> latestVersion ->
  force = true \/
  (checksum entry = Checksum.computeChecksum installedContent /\
   Js.replaceCRLF oursContent = Js.replaceCRLF installedContent) ->
  applyUpdate force merge entry registryItem latestVersion oursContent answer
              baseContent confirmOverwrite now
  = Updated (Registry.extractComponentCode registryItem)
      (mkEntry latestVersion now
         (Checksum.computeChecksum (Registry.extractComponentCode registryItem))
         (registryUrl entry))
      true.
Proof.
  intros Hver Hcase. unfold applyUpdate.
  rewrite (eqb_false_of_neq _ _ Hver). cbv zeta.
  destruct Hcase as [->|[Hsum Hsame]].
  - rewrite andb_false_r. cbn [negb andb]. reflexivity.
  - rewrite (computeChecksum_normalized _ _ Hsame), Hsum, compareChecksums_refl.
    cbn [negb andb]. destruct force, merge; reflexivity.
Qed.

Lemma applyUpdate_overwrites_witness :
  let entry := mkEntry "1.0.0" "2025-01-01T00:00:00.000Z" "sha256:00" None in
  let item :=
    Registry.mkItem "button" "registry:ui"
      [Registry.mkFile "registry/components/ui/button.tsx" "new code"
                       "registry:ui" None] None in
  applyUpdate true true entry item "2.0.0" "my code" (Some AnswerAbort)
              (Some "old code") false "2025-06-01T00:00:00.000Z"
  = Updated (Registry.extractComponentCode item)
      (mkEntry "2.0.0" "2025-06-01T00:00:00.000Z"
         (Checksum.computeChecksum (Registry.extractComponentCode item)) None)
      true.
Proof.
  intros entry item.
  apply (applyUpdate_overwrites true true entry item "2.0.0" "my code"
           (Some AnswerAbort) (Some "old code") false
           "2025-06-01T00:00:00.000Z" "").
  - discriminate.
  - left. reflexivity.
Defined.

Lemma applyUpdate_Updated force merge entry registryItem latestVersion
    oursContent answer baseContent confirmOverwrite now c e ok :
  applyUpdate force merge entry registryItem latestVersion oursContent answer
              baseContent confirmOverwrite now = Updated c e ok ->
  installedVersion entry <> latestVersion /\
  e = mkEntry latestVersion now (Checksum.computeChecksum c) (registryUrl entry) /\
  ((c = Registry.extractComponentCode registryItem /\ ok = true) \/
   exists base,
     baseContent = Some base /\ base <> "" /\
     Checksum.compareChecksums (checksum entry)
       (Checksum.computeChecksum oursContent) = false /\
     let r := Merge.threeWayMerge base oursContent
                (Registry.extractComponentCode registryItem)
                (Some (Merge.mkLabels (Some "your changes")
                         (Some ("v" +:+ latestVersion)))) in
     c = Merge.content r /\ ok = Merge.success r).
Proof.
  unfold applyUpdate.
  destruct (String.eqb_spec (installedVersion entry) latestVersion) as [|Hver];
    [discriminate|].
  cbv zeta.
  set (isModified := negb (Checksum.compareChecksums (checksum entry)
                             (Checksum.computeChecksum oursContent))).
  set (chosen := if isModified && negb force && negb merge then _ else _).
  destruct chosen as [[|]|]; [| |discriminate].
  - intros [= <- <- <-]. split; [exact Hver|]. split; [reflexivity|].
    left. split; reflexivity.
  - destruct isModified eqn:Hmod.
    + destruct baseContent as [base|].
      * destruct (String.eqb_spec base "") as [->|Hbase].
        -- destruct confirmOverwrite; [|discriminate].
           intros [= <- <- <-]. split; [exact Hver|]. split; [reflexivity|].
           left. split; reflexivity.
        -- intros [= <- <- <-]. split; [exact Hver|]. split; [reflexivity|].
           right. exists base. split; [reflexivity|]. split; [exact Hbase|].
           split; [|split; reflexivity].
           subst isModified. apply negb_true_iff in Hmod. exact Hmod.
      * destruct confirmOverwrite; [|discriminate].
        intros [= <- <- <-]. split; [exact Hver|]. split; [reflexivity|].
        left. split; reflexivity.
    + intros [= <- <- <-]. split; [exact Hver|]. split; [reflexivity|].
      left. split; reflexivity.
Qed.

(** X23: whenever an update writes the file, the entry it records has the
    latest version, the registry URL of the old entry and the checksum of
    the content written, so the file counts as unmodified; this is so
    also for a merge with conflicts, whose content then holds conflict
    markers; and running the update again on that state does nothing,
    whatever the options. *)
Theorem applyUpdate_records_file (force merge : bool)
    (entry : ComponentLockEntry) (registryItem : Registry.RegistryItem)
    (latestVersion oursContent : string) (answer : option strategyAnswer)
    (baseContent : option string) (confirmOverwrite : bool) (now : string)
    (c : string) (e : ComponentLockEntry) (ok : bool) :
  applyUpdate force merge entry registryItem latestVersion oursContent answer
              baseContent confirmOverwrite now = Updated c e ok ->
  e = mkEntry latestVersion now (Checksum.computeChecksum c) (registryUrl entry) /\
  Checksum.compareChecksums (checksum e) (Checksum.computeChecksum c) = true /\
  (ok = false -> Merge.hasConflictMarkers c = true) /\
  forall force' merge' answer' baseContent' confirmOverwrite' now',
    applyUpdate force' merge' e registryItem latestVersion c answer'
                baseContent' confirmOverwrite' now' = Returned.
Proof.
  intros H. apply applyUpdate_Updated in H.
  destruct H as (Hver & -> & Hcontent).
  split; [reflexivity|]. cbn [checksum].
  split; [apply compareChecksums_refl|]. split.
  - intros ->. destruct Hcontent as [[_ Hok]|(base & _ & _ & _ & Hr)];
      [discriminate|].
    cbv zeta in Hr. destruct Hr as [-> Hs].
    apply MergeMore.conflicts_have_markers. symmetry. exact Hs.
  - intros force' merge' answer' baseContent' confirmOverwrite' now'.
    unfold applyUpdate. cbn [installedVersion].
    rewrite String.eqb_refl. reflexivity.
Qed.

Lemma applyUpdate_records_file_witness :
  let entry := mkEntry "1.0.0" "2025-01-01T00:00:00.000Z" "sha256:00" None in
  let item :=
    Registry.mkItem "button" "registry:ui"
      [Registry.mkFile "registry/components/ui/button.tsx" "theirs"
                       "registry:ui" None] None in
  let c := Merge.content
             (Merge.threeWayMerge "base" "ours" "theirs"
                (Some (Merge.mkLabels (Some "your changes") (Some "v2.0.0")))) in
  Merge.hasConflictMarkers c = true /\
  applyUpdate false false
    (mkEntry "2.0.0" "2025-06-01T00:00:00.000Z" (Checksum.computeChecksum c) None)
    item "2.0.0" c None None false "2025-06-02T00:00:00.000Z" = Returned.
Proof.
  intros entry item c.
  destruct (applyUpdate_records_file false true entry item "2.0.0" "ours" None
              (Some "base") false "2025-06-01T00:00:00.000Z" c
              (mkEntry "2.0.0" "2025-06-01T00:00:00.000Z"
                       (Checksum.computeChecksum c) None) false)
    as (_ & _ & Hmarkers & Hagain).
  - vm_compute. reflexivity.
  - split; [apply Hmarkers; reflexivity|apply Hagain].
Defined.

(** X24: with a registry that is not on the local machine, the base
    version fetched for the merge is never found, so the update never
    merges: it either stops without writing, or writes the registry code
    as it is. *)
Theorem merge_needs_local_registry (force merge : bool)
    (entry : ComponentLockEntry) (registryItem : Registry.RegistryItem)
    (latestVersion oursContent : string) (answer : option strategyAnswer)
    (localVersion : option string) (url : string)
    (confirmOverwrite : bool) (now : string) :
  Registry.currentVersionOf registryItem = Some latestVersion ->
  RegistrySpec.localRegistry url = false ->
  let baseContent :=
    Registry.fetchComponentVersion (Some registryItem) localVersion
      (installedVersion entry) url in
  let result :=
    applyUpdate force merge entry registryItem latestVersion oursContent
                answer baseContent confirmOverwrite now in
  result = Returned \/
  result = Updated (Registry.extractComponentCode registryItem)
              (mkEntry latestVersion now
                 (Checksum.computeChecksum
                    (Registry.extractComponentCode registryItem))
                 (registryUrl entry))
              true.
Proof.
  intros Hcur Hremote baseContent result.
  destruct (decide (installedVersion entry = latestVersion)) as [Hsame|Hver].
  - left. subst result. unfold applyUpdate.
    rewrite Hsame, String.eqb_refl. reflexivity.
  - assert (Hbase : baseContent = None).
    { subst baseContent. unfold Registry.fetchComponentVersion.
      rewrite Hcur. rewrite bool_decide_eq_false_2 by congruence.
      change (Js.includes "localhost" url || Js.includes "127.0.0.1" url)
        with (RegistrySpec.localRegistry url).
      rewrite Hremote. reflexivity. }
    subst result. rewrite Hbase.
    destruct (applyUpdate force merge entry registryItem latestVersion
                oursContent answer None confirmOverwrite now)
      as [|c e ok] eqn:E; [left; reflexivity|].
    right. apply applyUpdate_Updated in E.
    destruct E as (_ & -> & [[-> ->]|(base & Hb & _)]); [reflexivity|].
    discriminate.
Qed.

Lemma merge_needs_local_registry_witness :
  let entry := mkEntry "1.0.0" "2025-01-01T00:00:00.000Z" "sha256:00" None in
  let item :=
    Registry.mkItem "button" "registry:ui"
      [Registry.mkFile "registry/components/ui/button.tsx" "theirs"
                       "registry:ui" None]
      (Some (Registry.mkMeta
               (Some (Registry.mkVersioning "2.0.0"
                        (Registry.mkChangelog "button" "2.0.0" [])
                        ["2.0.0"; "1.0.0"])))) in
  let result :=
    applyUpdate false true entry item "2.0.0" "ours" None
      (Registry.fetchComponentVersion (Some item) (Some "base") "1.0.0"
         "https://voidui.dev/r")
      true "2025-06-01T00:00:00.000Z" in
  result = Returned \/
  result = Updated (Registry.extractComponentCode item)
              (mkEntry "2.0.0" "2025-06-01T00:00:00.000Z"
                 (Checksum.computeChecksum (Registry.extractComponentCode item))
                 None)
              true.
Proof.
  intros entry item.
  apply (merge_needs_local_registry false true entry item "2.0.0" "ours" None
           (Some "base") "https://voidui.dev/r" true
           "2025-06-01T00:00:00.000Z").
  - reflexivity.
  - vm_compute. reflexivity.
Defined.

(** X25: a merge update of a modified file, when the registry code of the
    latest version is the base version's code, keeps the user's file as it
    is and records its checksum under the latest version. *)
Theorem applyUpdate_merge_keeps_local (merge : bool)
    (entry : ComponentLockEntry) (registryItem : Registry.RegistryItem)
    (latestVersion oursContent : string) (answer : option strategyAnswer)
    (base : string) (confirmOverwrite : bool) (now : string) :
  installedVersion entry <> latestVersion ->
  merge = true \/ answer = Some AnswerMerge ->
  Checksum.compareChecksums (checksum entry)
    (Checksum.computeChecksum oursContent) = false ->
  base <> "" ->
  Registry.extractComponentCode registryItem = base ->
  applyUpdate false merge entry registryItem latestVersion oursContent answer
              (Some base) confirmOverwrite now
  = Updated oursContent
      (mkEntry latestVersion now (Checksum.computeChecksum oursContent)
               (registryUrl entry))
      true.
Proof.
  intros Hver Hmerge Hmod Hbase Hcode. unfold applyUpdate.
  rewrite (eqb_false_of_neq _ _ Hver), Hmod, (eqb_false_of_neq _ _ Hbase), Hcode.
  cbv zeta. cbn [negb andb].
  rewrite MergeMore.merge_theirs_is_base. cbn [Merge.content Merge.success].
  destruct Hmerge as [->| ->]; [reflexivity|].
  destruct merge; reflexivity.
Qed.

Lemma applyUpdate_merge_keeps_local_witness :
  let entry := mkEntry "1.0.0" "2025-01-01T00:00:00.000Z" "sha256:00" None in
  let item :=
    Registry.mkItem "button" "registry:ui"
      [Registry.mkFile "registry/components/ui/button.tsx" "code"
                       "registry:ui" None] None in
  applyUpdate false true entry item "2.0.0" "my code" None (Some "code") false
              "2025-06-01T00:00:00.000Z"
  = Updated "my code"
      (mkEntry "2.0.0" "2025-06-01T00:00:00.000Z"
               (Checksum.computeChecksum "my code") None)
      true.
Proof.
  intros entry item.
  apply (applyUpdate_merge_keeps_local true entry item "2.0.0" "my code" None
           "code" false "2025-06-01T00:00:00.000Z").
  - discriminate.
  - left. reflexivity.
  - vm_compute. reflexivity.
  - discriminate.
  - reflexivity.
Defined.

End UpdateMore.

Module AddMore.
Import LockStore AddCommand AddSpec.

Lemma store_before h existing v :
  storeBefore h existing = Some v ->
  exists h0 l0,
    readOrCreateLockFile h existing = (h0, l0) /\
    readValue h0 l0 = Some v.
Proof.
  destruct existing as [l|]; cbn [storeBefore].
  - intros H. exists h, l. split; [reflexivity|exact H].
  - intros [= <-].
    destruct (LockStoreMore.fresh_store h) as (h0 & l0 & Hnew & Hread & _).
    exists h0, l0. split; assumption.
Qed.

(** X26: what the add command does to the lock store once the component
    file is in place.  When the name is not yet a property of the
    components object, or with [--force], the store gets the entry with
    the registry's current version, the checksum of the file and the
    registry URL, and the other entries stay; otherwise the store is left
    as it is, although the component was installed again unless [--scan]
    was given.  A name of a member of [Object.prototype] counts as a
    property even in a new lock file. *)
Theorem addCommand_tracks (scan force existsBefore shadcnOk : bool)
    (registryItem : Registry.RegistryItem) (currentVersion fileContent : string)
    (h : heap) (existing : option loc) (v : LockFile)
    (component registryUrl now : string) :
  Registry.currentVersionOf registryItem = Some currentVersion ->
  existsBefore && negb scan && negb force = false ->
  negb scan && negb shadcnOk = false ->
  storeBefore h existing = Some v ->
  let r := addCommand scan force existsBefore (Some registryItem) shadcnOk
             true fileContent h existing component registryUrl now in
  let newEntry := mkEntry currentVersion now
                    (Checksum.computeChecksum fileContent) (Some registryUrl) in
  (hasProperty (components v) component = false \/ force = true ->
   exists h1 l1,
     r = Some (Tracked (negb scan) h1 l1) /\
     readValue h1 l1
     = Some (mkLockFile (schema v) (version v)
               (<[component := newEntry]> (components v))) /\
     getComponentEntry h1 l1 component = Some (Entry newEntry)) /\
  (hasProperty (components v) component = true -> force = false ->
   r = Some (AlreadyTracked (negb scan))) /\
  (component ∈ objectPrototypeKeys ->
   hasProperty (components v) component = true).
Proof.
  intros Hcur Hfirst Hinstall Hstore r newEntry.
  destruct (store_before _ _ _ Hstore) as (h0 & l0 & Hnew & Hread).
  destruct (LockStoreMore.queries_of_value _ _ _ component Hread) as [Htracked _].
  assert (Hr : r = match (if hasProperty (components v) component && negb force
                          then None else Some tt) with
                   | None => Some (AlreadyTracked (negb scan))
                   | Some _ =>
                       match updateComponentEntry h0 l0 component newEntry with
                       | Some (h1, l1) => Some (Tracked (negb scan) h1 l1)
                       | None => None
                       end
                   end).
  { subst r. unfold addCommand.
    rewrite Hfirst, Hcur, Hinstall. cbn [negb]. cbv zeta.
    rewrite Hnew, Htracked.
    destruct (hasProperty (components v) component && negb force); reflexivity. }
  split; [|split].
  - intros Hcase.
    destruct (LockStoreMore.update_reads h0 l0 v component newEntry Hread)
      as (h1 & l1 & Hup & Hread1 & _).
    exists h1, l1. rewrite Hr, Hup.
    split; [|split; [exact Hread1|]].
    + destruct Hcase as [-> | ->]; [reflexivity|].
      rewrite andb_false_r. reflexivity.
    + destruct (LockStoreMore.queries_of_value _ _ _ component Hread1) as [_ Hg].
      rewrite Hg. unfold getProperty. cbn [components].
      rewrite lookup_insert_eq. reflexivity.
  - intros Hp ->. rewrite Hr, Hp. reflexivity.
  - intros Hname. unfold hasProperty.
    destruct (components v !! component); [reflexivity|].
    apply bool_decide_eq_true_2, Hname.
Qed.

Lemma addCommand_tracks_witness :
  exists h1 l1,
    addCommand false false false
      (Some (Registry.mkItem "button" "registry:ui" []
               (Some (Registry.mkMeta
                        (Some (Registry.mkVersioning "2.0.0"
                                 (Registry.mkChangelog "button" "2.0.0" [])
                                 ["2.0.0"]))))))
      true true "code" ∅ None "card" "https://voidui.dev/r"
      "2025-06-01T00:00:00.000Z"
    = Some (Tracked true h1 l1) /\
    getComponentEntry h1 l1 "card"
    = Some (Entry (mkEntry "2.0.0" "2025-06-01T00:00:00.000Z"
                     (Checksum.computeChecksum "code")
                     (Some "https://voidui.dev/r"))).
Proof.
  destruct (addCommand_tracks false false false true
              (Registry.mkItem "button" "registry:ui" []
                 (Some (Registry.mkMeta
                          (Some (Registry.mkVersioning "2.0.0"
                                   (Registry.mkChangelog "button" "2.0.0" [])
                                   ["2.0.0"])))))
              "2.0.0" "code" ∅ None (mkLockFile None "1.0" ∅)
              "card" "https://voidui.dev/r" "2025-06-01T00:00:00.000Z"
              eq_refl eq_refl eq_refl eq_refl)
    as (Htrack & _ & _).
  destruct Htrack as (h1 & l1 & Hr & _ & Hg).
  - left. vm_compute. reflexivity.
  - exists h1, l1. split; assumption.
Defined.

End AddMore.
